(** * FinMentor: ConceptCard validation and the guardrail policy router

    A shallow embedding of
      - [finmentor/domain/concepts/types.py] and [validator.py]
        (the ConceptCard schema and its validation pipeline), and
      - [finmentor/guardrails/policy_router.py]
        (the ALLOW / TRANSFORM / REFUSE classifier and its rewrite scrub),
    together with the properties the specification states about them.

    Text.  A Python [str] is modelled as a list of characters whose code
    points lie in 0..255 (the Latin-1 range), one [ascii] per code point.
    The character classes below are the ones Python's [str.isspace],
    [str.lower] and the [re] module ([\s], [\w], [\d], IGNORECASE) use on that
    range.  Code points above 255 are outside the model. *)

From Stdlib Require Import List Ascii String Bool Arith Lia ZArith.
From Stdlib Require Import DecimalString.
Import ListNotations.

Set Implicit Arguments.
Set Warnings "-register-all".

(* ================================================================== *)
(** ** Characters and strings *)
(* ================================================================== *)

Module Text.

Definition str : Type := list ascii.

(** String literals of the source, written [py "..."]. *)
Definition py (s : string) : str := list_ascii_of_string s.

Definition code (c : ascii) : nat := nat_of_ascii c.

Definition in_range (lo hi : nat) (c : ascii) : bool :=
  (lo <=? code c) && (code c <=? hi).

(** [str.isspace] / [\s] on code points 0..255: TAB..CR, FS..US, space,
    NEL (0x85) and NBSP (0xA0). *)
Definition isspace (c : ascii) : bool :=
  in_range 9 13 c || in_range 28 32 c || (code c =? 133) || (code c =? 160).

(** [\d]: decimal digits. *)
Definition isdigit (c : ascii) : bool := in_range 48 57 c.

(** [\w]: alphanumerics and the underscore.  On 0..255 the alphanumerics
    are the ASCII letters and digits, the ordinal indicators, the micro sign,
    the superscript digits, the vulgar fractions and the accented letters. *)
Definition isword (c : ascii) : bool :=
  isdigit c || in_range 65 90 c || in_range 97 122 c || (code c =? 95)
  || (code c =? 170) || in_range 178 179 c || (code c =? 181)
  || in_range 185 186 c || in_range 188 190 c
  || in_range 192 214 c || in_range 216 246 c || in_range 248 255 c.

(** [str.lower] on one character. *)
Definition lower_char (c : ascii) : ascii :=
  if in_range 65 90 c || in_range 192 214 c || in_range 216 222 c
  then ascii_of_nat (code c + 32) else c.

Definition lower (s : str) : str := map lower_char s.

Definition str_eqb (a b : str) : bool :=
  if list_eq_dec ascii_dec a b then true else false.

(** [str.strip()]. *)
Fixpoint lstrip (s : str) : str :=
  match s with
  | c :: s' => if isspace c then lstrip s' else s
  | [] => []
  end.

Definition rstrip (s : str) : str := rev (lstrip (rev s)).

Definition strip (s : str) : str := rstrip (lstrip s).

(** [sep.join(items)]. *)
Fixpoint join (sep : str) (items : list str) : str :=
  match items with
  | [] => []
  | [x] => x
  | x :: rest => x ++ sep ++ join sep rest
  end.

(** [needle in hay], the substring test. *)
Fixpoint starts_with (needle hay : str) : bool :=
  match needle, hay with
  | [], _ => true
  | a :: n', b :: h' => Ascii.eqb a b && starts_with n' h'
  | _ :: _, [] => false
  end.

Fixpoint contains (needle hay : str) : bool :=
  starts_with needle hay ||
  match hay with
  | [] => false
  | _ :: h' => contains needle h'
  end.

(** [str(i)] for a non-negative index. *)
Definition str_of_nat (n : nat) : str :=
  py (NilEmpty.string_of_uint (Nat.to_uint n)).

End Text.
Import Text.

(* ================================================================== *)
(** ** The fragment of Python's [re] the source uses *)
(* ================================================================== *)

Module Re.

(** Single-character items.  [CharI] is a literal compiled under
    [re.IGNORECASE]; [Char] is a literal compiled without it. *)
Inductive cset : Type :=
| Char (c : ascii)
| CharI (c : ascii)
| Range (lo hi : ascii)
| Digit
| Space
| Dot
| Or (a b : cset)
| Not (a : cset).

Fixpoint cmatch (cs : cset) (x : ascii) : bool :=
  match cs with
  | Char c => Ascii.eqb x c
  | CharI c => Ascii.eqb (lower_char x) (lower_char c)
  | Range lo hi => in_range (code lo) (code hi) x
  | Digit => isdigit x
  | Space => isspace x
  | Dot => negb (Ascii.eqb x "010"%char)
  | Or a b => cmatch a x || cmatch b x
  | Not a => negb (cmatch a x)
  end.

(** Patterns.  Every repetition of the source ranges over a single-character
    item, so [Rep cs lo hi] is the greedy [cs{lo,hi}] ([hi = None] for no
    upper bound); [X?] is [Alt X Eps]. *)
Inductive regex : Type :=
| Eps
| One (cs : cset)
| Bnd
| Seq (r1 r2 : regex)
| Alt (r1 r2 : regex)
| Rep (cs : cset) (lo : nat) (hi : option nat).

Definition hi_zero (hi : option nat) : bool :=
  match hi with Some 0 => true | _ => false end.

(** Is the next character a word character (false at the end of the text). *)
Definition hw (s : str) : bool :=
  match s with x :: _ => isword x | [] => false end.

(** The backtracking matcher.  A position in the text is the pair of the
    flag "the character to the left is a word character" (all that [\b]
    ever asks about the left) and the text still to be read; [k] is what
    remains to be matched after [r].  Alternatives are tried left to right
    and repetitions are greedy, as in Python. *)
Fixpoint rep_m (cs : cset) (lo : nat) (hi : option nat) (pw : bool) (s : str)
         (k : bool -> str -> option str) {struct s} : option str :=
  let stop := match lo with 0 => k pw s | S _ => None end in
  match s with
  | x :: s' =>
      if negb (hi_zero hi) && cmatch cs x then
        match rep_m cs (pred lo) (option_map pred hi) (isword x) s' k with
        | Some r => Some r
        | None => stop
        end
      else stop
  | [] => stop
  end.

Fixpoint m (r : regex) (pw : bool) (s : str)
         (k : bool -> str -> option str) {struct r} : option str :=
  match r with
  | Eps => k pw s
  | One cs =>
      match s with
      | x :: s' => if cmatch cs x then k (isword x) s' else None
      | [] => None
      end
  | Bnd => if xorb pw (hw s) then k pw s else None
  | Seq r1 r2 => m r1 pw s (fun pw' s' => m r2 pw' s' k)
  | Alt r1 r2 =>
      match m r1 pw s k with
      | Some res => Some res
      | None => m r2 pw s k
      end
  | Rep cs lo hi => rep_m cs lo hi pw s k
  end.

(** A match attempt at one position: the text left after the match. *)
Definition match_at (r : regex) (pw : bool) (s : str) : option str :=
  m r pw s (fun _ rest => Some rest).

(** [re.search]: is there a match starting anywhere in the text.  [scan]
    tries each position from left to right with the attempt [mt]. *)
Fixpoint scan (mt : bool -> str -> option str) (pw : bool) (s : str) : bool :=
  match mt pw s with
  | Some _ => true
  | None =>
      match s with
      | [] => false
      | x :: s' => scan mt (isword x) s'
      end
  end.

Definition search_from (r : regex) (pw : bool) (s : str) : bool :=
  scan (match_at r) pw s.

Definition search (r : regex) (s : str) : bool := search_from r false s.

(** [re.fullmatch]: the match must end at the end of the text. *)
Definition fullmatch (r : regex) (s : str) : bool :=
  match m r false s (fun _ rest => match rest with [] => Some [] | _ => None end) with
  | Some _ => true
  | None => false
  end.

(** [re.sub(r, repl, s)] with a literal replacement: scan left to right,
    replace each match, resume after it.  [skip] counts the characters of
    the current match still to be dropped.  (No pattern the source passes to
    [re.sub] can match the empty string; the branch for an empty match
    inserts the replacement and moves on by one character.) *)
Fixpoint sub_loop (mt : bool -> str -> option nat) (repl : str)
         (skip : nat) (pw : bool) (s : str) {struct s} : str :=
  match s with
  | [] =>
      match skip, mt pw [] with
      | 0, Some _ => repl
      | _, _ => []
      end
  | x :: s' =>
      match skip with
      | S n => sub_loop mt repl n (isword x) s'
      | 0 =>
          match mt pw s with
          | Some (S n) => repl ++ sub_loop mt repl n (isword x) s'
          | Some 0 => repl ++ x :: sub_loop mt repl 0 (isword x) s'
          | None => x :: sub_loop mt repl 0 (isword x) s'
          end
      end
  end.

Definition match_len (r : regex) (pw : bool) (s : str) : option nat :=
  match match_at r pw s with
  | Some rest => Some (List.length s - List.length rest)
  | None => None
  end.

Definition sub (r : regex) (repl : str) (s : str) : str :=
  sub_loop (match_len r) repl 0 false s.

(** Pattern-building shorthands. *)
Fixpoint seq (rs : list regex) : regex :=
  match rs with
  | [] => Eps
  | [r] => r
  | r :: rest => Seq r (seq rest)
  end.

Fixpoint alt (rs : list regex) : regex :=
  match rs with
  | [] => Eps
  | [r] => r
  | r :: rest => Alt r (alt rest)
  end.

Definition opt (r : regex) : regex := Alt r Eps.

(** A literal word under IGNORECASE, and without it. *)
Definition liti (w : string) : regex := seq (map (fun c => One (CharI c)) (py w)).
Definition lit (w : string) : regex := seq (map (fun c => One (Char c)) (py w)).

Definition star (cs : cset) : regex := Rep cs 0 None.
Definition plus (cs : cset) : regex := Rep cs 1 None.
Definition times (cs : cset) (n : nat) : regex := Rep cs n (Some n).

End Re.
Import Re.

(* ================================================================== *)
(** ** [types.py]: the closed vocabularies and the card *)
(* ================================================================== *)

Module Types.

Inductive Category : Type :=
| BUDGETING | CREDIT | INVESTING | TAXES | BANKING | INSURANCE | DEBT.

Inductive Difficulty : Type :=
| BEGINNER | INTERMEDIATE | ADVANCED.

Inductive Intent : Type :=
| EDUCATIONAL_EXPLANATION
| DEFINITION_LOOKUP
| PERSONAL_ADVICE
| SCORE_OPTIMIZATION
| PRODUCT_RECOMMENDATION.

(** What the validator uses of an [Enum] class: iteration over the members
    in definition order, and each member's [.value]. *)
Class PyEnum (A : Type) : Type := {
  members : list A;
  value : A -> str
}.

#[export] Instance Category_enum : PyEnum Category := {|
  members := [BUDGETING; CREDIT; INVESTING; TAXES; BANKING; INSURANCE; DEBT];
  value c :=
    match c with
    | BUDGETING => py "budgeting"
    | CREDIT => py "credit"
    | INVESTING => py "investing"
    | TAXES => py "taxes"
    | BANKING => py "banking"
    | INSURANCE => py "insurance"
    | DEBT => py "debt"
    end
|}.

#[export] Instance Difficulty_enum : PyEnum Difficulty := {|
  members := [BEGINNER; INTERMEDIATE; ADVANCED];
  value d :=
    match d with
    | BEGINNER => py "beginner"
    | INTERMEDIATE => py "intermediate"
    | ADVANCED => py "advanced"
    end
|}.

#[export] Instance Intent_enum : PyEnum Intent := {|
  members := [EDUCATIONAL_EXPLANATION; DEFINITION_LOOKUP; PERSONAL_ADVICE;
              SCORE_OPTIMIZATION; PRODUCT_RECOMMENDATION];
  value i :=
    match i with
    | EDUCATIONAL_EXPLANATION => py "educational_explanation"
    | DEFINITION_LOOKUP => py "definition_lookup"
    | PERSONAL_ADVICE => py "personal_advice"
    | SCORE_OPTIMIZATION => py "score_optimization"
    | PRODUCT_RECOMMENDATION => py "product_recommendation"
    end
|}.

(** [enum_cls(value)]: the member with that value, if any. *)
Definition enum_call {A : Type} `{PyEnum A} (v : str) : option A :=
  find (fun e => str_eqb (value e) v) members.

Definition Intent_eqb (a b : Intent) : bool :=
  match a, b with
  | EDUCATIONAL_EXPLANATION, EDUCATIONAL_EXPLANATION
  | DEFINITION_LOOKUP, DEFINITION_LOOKUP
  | PERSONAL_ADVICE, PERSONAL_ADVICE
  | SCORE_OPTIMIZATION, SCORE_OPTIMIZATION
  | PRODUCT_RECOMMENDATION, PRODUCT_RECOMMENDATION => true
  | _, _ => false
  end.

Record ConceptExample : Type := {
  scenario : str;
  explanation : str
}.

Record ConceptCard : Type := {
  id : str;
  title : str;
  category : Category;
  difficulty : Difficulty;
  summary : list str;
  core_mechanics : list str;
  examples : list ConceptExample;
  misconceptions : list str;
  non_goals : list str;
  allowed_intents : list Intent;
  forbidden_intents : list Intent;
  sources : list str;
  last_updated : str
}.

End Types.
Import Types.

(* ================================================================== *)
(** ** [validator.py] *)
(* ================================================================== *)

Module Validator.

(** An untrusted record as the loader hands it over: nested mappings,
    lists and scalars.  A mapping keeps its items in insertion order. *)
Inductive raw_value : Type :=
| VNone
| VBool (b : bool)
| VInt (z : Z)
| VStr (s : str)
| VList (l : list raw_value)
| VDict (d : list (str * raw_value)).

Definition dict : Type := list (str * raw_value).

(** [d.get(key)] / [key in d] / [d[key]]. *)
Fixpoint get (d : dict) (key : str) : option raw_value :=
  match d with
  | [] => None
  | (k, v) :: rest => if str_eqb k key then Some v else get rest key
  end.

(** [ConceptValidationError].  The field-addressed form is the message
    [f"[ConceptCard id={card_id}] {field}: {msg}"], kept as its three
    parts. *)
Inductive error : Type :=
| FieldError (card_id field msg : str)
| NotADict
| DuplicateId (cid : str).

Inductive result (A : Type) : Type :=
| Ok (a : A)
| Err (e : error).

Arguments Ok {A} a.
Arguments Err {A} e.

Definition bind {A B : Type} (x : result A) (f : A -> result B) : result B :=
  match x with
  | Ok a => f a
  | Err e => Err e
  end.

Notation "x <- c ;; k" := (bind c (fun x => k))
  (at level 61, c at next level, right associativity).
Notation "' pat <- c ;; k" := (bind c (fun x => match x with pat => k end))
  (at level 61, pat pattern, c at next level, right associativity).

Definition is_ok {A : Type} (x : result A) : bool :=
  match x with Ok _ => true | Err _ => false end.

Definition is_empty (s : str) : bool :=
  match s with [] => true | _ => false end.

(** [_PLACEHOLDER_RE = re.compile(r"<[^>]+>")] *)
Definition _PLACEHOLDER_RE : regex :=
  seq [One (Char "<"); plus (Not (Char ">")); One (Char ">")].

(** [_SECOND_PERSON_RE = re.compile(r"\b(you|your|yours|yourself)\b", re.IGNORECASE)] *)
Definition _SECOND_PERSON_RE : regex :=
  seq [Bnd; alt [liti "you"; liti "your"; liti "yours"; liti "yourself"]; Bnd].

(** [r"\d{4}-\d{2}-\d{2}"] *)
Definition DATE_RE : regex :=
  seq [times Digit 4; One (Char "-"); times Digit 2; One (Char "-"); times Digit 2].

(** [r"[a-z][a-z0-9_]*"] *)
Definition ID_RE : regex :=
  seq [One (Range "a" "z");
       star (Or (Range "a" "z") (Or (Range "0" "9") (Char "_")))].

Definition _card_id_for_errors (raw : dict) : str :=
  match get raw (py "id") with
  | Some (VStr cid) => if is_empty (strip cid) then py "<missing-id>" else cid
  | _ => py "<missing-id>"
  end.

Definition _raise {A : Type} (card_id field msg : str) : result A :=
  Err (FieldError card_id field msg).

Definition _require_key (raw : dict) (card_id key : str) : result raw_value :=
  match get raw key with
  | None => _raise card_id key (py "missing required field")
  | Some v => Ok v
  end.

Definition _require_str (raw : dict) (card_id key : str) : result str :=
  v <- _require_key raw card_id key ;;
  match v with
  | VStr s =>
      if is_empty (strip s) then
        _raise card_id key (py "must be a non-empty string")
      else if search _PLACEHOLDER_RE s then
        _raise card_id key (py "contains placeholder text like <...>")
      else Ok (strip s)
  | _ => _raise card_id key (py "must be a non-empty string")
  end.

(** [f"{key}[{i}]"] *)
Definition indexed (key : str) (i : nat) : str :=
  key ++ py "[" ++ str_of_nat i ++ py "]".

(** The [for i, item in enumerate(v)] loop of [_require_list_of_str],
    from index [i] on. *)
Fixpoint list_of_str_loop (card_id key : str) (i : nat) (v : list raw_value)
  : result (list str) :=
  match v with
  | [] => Ok []
  | item :: rest =>
      match item with
      | VStr s =>
          if is_empty (strip s) then
            _raise card_id (indexed key i) (py "must be a non-empty string")
          else if search _PLACEHOLDER_RE s then
            _raise card_id (indexed key i) (py "contains placeholder text like <...>")
          else
            out <- list_of_str_loop card_id key (S i) rest ;;
            Ok (strip s :: out)
      | _ => _raise card_id (indexed key i) (py "must be a non-empty string")
      end
  end.

Definition _require_list_of_str (raw : dict) (card_id key : str) (min_len : nat)
  : result (list str) :=
  v <- _require_key raw card_id key ;;
  match v with
  | VList items =>
      out <- list_of_str_loop card_id key 0 items ;;
      if List.length out <? min_len then
        _raise card_id key
          (py "must contain at least " ++ str_of_nat min_len ++ py " item(s)")
      else Ok out
  | _ => _raise card_id key (py "must be a list of strings")
  end.

Definition _to_enum {A : Type} `{PyEnum A} (card_id field : str) (v : str)
  : result A :=
  match enum_call v with
  | Some e => Ok e
  | None =>
      let allowed := join (py ", ") (map value members) in
      _raise card_id field
        (py "invalid value '" ++ v ++ py "'. Allowed: " ++ allowed)
  end.

Definition _require_enum {A : Type} `{PyEnum A} (raw : dict) (card_id key : str)
  : result A :=
  s <- _require_str raw card_id key ;;
  _to_enum card_id key s.

(** Is the value a [str] that is non-empty once stripped. *)
Definition nonblank_str (v : option raw_value) : option str :=
  match v with
  | Some (VStr s) => if is_empty (strip s) then None else Some s
  | _ => None
  end.

Fixpoint examples_loop (card_id : str) (i : nat) (examples_raw : list raw_value)
  : result (list ConceptExample) :=
  match examples_raw with
  | [] => Ok []
  | ex :: rest =>
      let at_i := py "examples[" ++ str_of_nat i ++ py "]" in
      match ex with
      | VDict exd =>
          match nonblank_str (get exd (py "scenario")) with
          | None =>
              _raise card_id (at_i ++ py ".scenario") (py "must be a non-empty string")
          | Some sc =>
              match nonblank_str (get exd (py "explanation")) with
              | None =>
                  _raise card_id (at_i ++ py ".explanation")
                    (py "must be a non-empty string")
              | Some expl =>
                  if search _PLACEHOLDER_RE sc then
                    _raise card_id (at_i ++ py ".scenario")
                      (py "contains placeholder text like <...>")
                  else if search _PLACEHOLDER_RE expl then
                    _raise card_id (at_i ++ py ".explanation")
                      (py "contains placeholder text like <...>")
                  else
                    out <- examples_loop card_id (S i) rest ;;
                    Ok ({| scenario := strip sc; explanation := strip expl |} :: out)
              end
          end
      | _ => _raise card_id at_i (py "must be a mapping with scenario/explanation")
      end
  end.

Definition _require_examples (raw : dict) (card_id : str)
  : result (list ConceptExample) :=
  examples_raw <- _require_key raw card_id (py "examples") ;;
  match examples_raw with
  | VList l => examples_loop card_id 0 l
  | _ => _raise card_id (py "examples") (py "must be a list of example objects")
  end.

(** [isinstance(v, list) and all(isinstance(x, str) for x in v)] *)
Fixpoint all_str (l : list raw_value) : option (list str) :=
  match l with
  | [] => Some []
  | VStr s :: rest =>
      match all_str rest with
      | Some out => Some (s :: out)
      | None => None
      end
  | _ :: _ => None
  end.

Definition list_of_strs (v : option raw_value) : option (list str) :=
  match v with
  | Some (VList l) => all_str l
  | _ => None
  end.

Fixpoint intents_loop (card_id field : str) (i : nat) (l : list str)
  : result (list Intent) :=
  match l with
  | [] => Ok []
  | s :: rest =>
      let s2 := strip s in
      if is_empty s2 then
        _raise card_id (indexed field i) (py "must be a non-empty string")
      else if search _PLACEHOLDER_RE s2 then
        _raise card_id (indexed field i) (py "contains placeholder text like <...>")
      else
        e <- _to_enum card_id (indexed field i) s2 ;;
        out <- intents_loop card_id field (S i) rest ;;
        Ok (e :: out)
  end.

Definition mem (i : Intent) (l : list Intent) : bool := existsb (Intent_eqb i) l.

(** The members of [Intent] in increasing order of [.value], the order
    [sorted(..., key=lambda x: x.value)] lists them in. *)
Definition intents_by_value : list Intent :=
  [DEFINITION_LOOKUP; EDUCATIONAL_EXPLANATION; PERSONAL_ADVICE;
   PRODUCT_RECOMMENDATION; SCORE_OPTIMIZATION].

Definition must_forbid : list Intent := [PERSONAL_ADVICE; PRODUCT_RECOMMENDATION].

(** [sorted(must_forbid - set(forbidden), key=value)] *)
Definition missing_of (forbidden : list Intent) : list Intent :=
  filter (fun i => mem i must_forbid && negb (mem i forbidden)) intents_by_value.

(** [sorted(set(allowed) & set(forbidden), key=value)] *)
Definition overlap_of (allowed forbidden : list Intent) : list Intent :=
  filter (fun i => mem i allowed && mem i forbidden) intents_by_value.

Definition _require_safety (raw : dict) (card_id : str)
  : result (list Intent * list Intent) :=
  safety <- _require_key raw card_id (py "safety") ;;
  match safety with
  | VDict sd =>
      match list_of_strs (get sd (py "allowed_intents")) with
      | None => _raise card_id (py "safety.allowed_intents") (py "must be a list of strings")
      | Some allowed_raw =>
          match list_of_strs (get sd (py "forbidden_intents")) with
          | None =>
              _raise card_id (py "safety.forbidden_intents") (py "must be a list of strings")
          | Some forbidden_raw =>
              allowed <- intents_loop card_id (py "safety.allowed_intents") 0 allowed_raw ;;
              forbidden <- intents_loop card_id (py "safety.forbidden_intents") 0 forbidden_raw ;;
              match missing_of forbidden with
              | (_ :: _) as missing =>
                  _raise card_id (py "safety.forbidden_intents")
                    (py "must include: " ++ join (py ", ") (map value missing))
              | [] =>
                  match overlap_of allowed forbidden with
                  | (_ :: _) as overlap =>
                      _raise card_id (py "safety")
                        (py "allowed_intents and forbidden_intents overlap: "
                         ++ join (py ", ") (map value overlap))
                  | [] => Ok (allowed, forbidden)
                  end
              end
          end
      end
  | _ =>
      _raise card_id (py "safety")
        (py "must be a mapping with allowed_intents/forbidden_intents")
  end.

Fixpoint sources_loop (card_id : str) (i : nat) (l : list raw_value) : result (list str) :=
  match l with
  | [] => Ok []
  | item :: rest =>
      match item with
      | VStr s =>
          if is_empty (strip s) then
            _raise card_id (indexed (py "metadata.sources") i)
              (py "must be a non-empty string")
          else if search _PLACEHOLDER_RE s then
            _raise card_id (indexed (py "metadata.sources") i)
              (py "contains placeholder text like <...>")
          else
            out <- sources_loop card_id (S i) rest ;;
            Ok (strip s :: out)
      | _ =>
          _raise card_id (indexed (py "metadata.sources") i)
            (py "must be a non-empty string")
      end
  end.

Definition _require_metadata (raw : dict) (card_id : str) : result (list str * str) :=
  meta <- _require_key raw card_id (py "metadata") ;;
  match meta with
  | VDict md =>
      match get md (py "sources") with
      | Some (VList ((_ :: _) as srcs)) =>
          clean_sources <- sources_loop card_id 0 srcs ;;
          match nonblank_str (get md (py "last_updated")) with
          | None =>
              _raise card_id (py "metadata.last_updated")
                (py "must be a non-empty string in YYYY-MM-DD format")
          | Some lu =>
              let last_updated := strip lu in
              if search _PLACEHOLDER_RE last_updated then
                _raise card_id (py "metadata.last_updated")
                  (py "contains placeholder text like <...>")
              else if negb (fullmatch DATE_RE last_updated) then
                _raise card_id (py "metadata.last_updated") (py "must match YYYY-MM-DD")
              else Ok (clean_sources, last_updated)
          end
      | _ =>
          _raise card_id (py "metadata.sources") (py "must be a non-empty list of strings")
      end
  | _ => _raise card_id (py "metadata") (py "must be a mapping with sources/last_updated")
  end.

(** The three loops of [_education_only_heuristics]. *)
Fixpoint second_person_loop (card_id : str) (i : nat) (l : list raw_value)
  : result unit :=
  match l with
  | [] => Ok tt
  | item :: rest =>
      match item with
      | VStr s =>
          if search _SECOND_PERSON_RE s then
            _raise card_id (indexed (py "summary") i)
              (py "should avoid second-person phrasing (you/your)")
          else second_person_loop card_id (S i) rest
      | _ => second_person_loop card_id (S i) rest
      end
  end.

(** [[x for x in non_goals if isinstance(x, str)]] *)
Fixpoint only_strs (l : list raw_value) : list str :=
  match l with
  | [] => []
  | VStr s :: rest => s :: only_strs rest
  | _ :: rest => only_strs rest
  end.

Definition advice_terms : list str :=
  [py "advice"; py "recommend"; py "optimiz"; py "personal"; py "product"].

Fixpoint placeholder_sweep (card_id : str) (items : dict) : result unit :=
  match items with
  | [] => Ok tt
  | (key, v) :: rest =>
      match v with
      | VStr s =>
          if search _PLACEHOLDER_RE s then
            _raise card_id key (py "contains placeholder text like <...>")
          else placeholder_sweep card_id rest
      | _ => placeholder_sweep card_id rest
      end
  end.

Definition _education_only_heuristics (card_id : str) (raw : dict) : result unit :=
  _ <- match get raw (py "summary") with
       | Some (VList summary_list) => second_person_loop card_id 0 summary_list
       | _ => Ok tt
       end ;;
  _ <- match get raw (py "non_goals") with
       | Some (VList non_goals) =>
           let joined := lower (join (py " ") (only_strs non_goals)) in
           if negb (existsb (fun term => contains term joined) advice_terms) then
             _raise card_id (py "non_goals")
               (py "must explicitly block advice/recommendation/optimization scope")
           else Ok tt
       | _ => Ok tt
       end ;;
  placeholder_sweep card_id raw.

Definition validate_conceptcard (raw : raw_value) : result ConceptCard :=
  match raw with
  | VDict raw =>
      let card_id := _card_id_for_errors raw in
      cid <- _require_str raw card_id (py "id") ;;
      title <- _require_str raw card_id (py "title") ;;
      category <- _require_enum raw card_id (py "category") ;;
      difficulty <- _require_enum raw card_id (py "difficulty") ;;
      summary <- _require_list_of_str raw card_id (py "summary") 1 ;;
      core_mechanics <- _require_list_of_str raw card_id (py "core_mechanics") 1 ;;
      misconceptions <- _require_list_of_str raw card_id (py "misconceptions") 1 ;;
      non_goals <- _require_list_of_str raw card_id (py "non_goals") 1 ;;
      examples <- _require_examples raw card_id ;;
      '(allowed_intents, forbidden_intents) <- _require_safety raw card_id ;;
      '(sources, last_updated) <- _require_metadata raw card_id ;;
      _ <- _education_only_heuristics card_id raw ;;
      if negb (fullmatch ID_RE cid) then
        _raise card_id (py "id")
          (py "must be snake_case (lowercase letters, digits, underscores)")
      else
        Ok {| id := cid;
              title := title;
              category := category;
              difficulty := difficulty;
              summary := summary;
              core_mechanics := core_mechanics;
              examples := examples;
              misconceptions := misconceptions;
              non_goals := non_goals;
              allowed_intents := allowed_intents;
              forbidden_intents := forbidden_intents;
              sources := sources;
              last_updated := last_updated |}
  | _ => Err NotADict
  end.

(** The loop of [validate_all_conceptcards], with the cards accepted so far
    and the set of ids seen so far. *)
Fixpoint validate_all_loop (raw_cards : list raw_value)
         (cards : list ConceptCard) (seen_ids : list str)
  : result (list ConceptCard) :=
  match raw_cards with
  | [] => Ok cards
  | raw :: rest =>
      card <- validate_conceptcard raw ;;
      if existsb (str_eqb (id card)) seen_ids then Err (DuplicateId (id card))
      else validate_all_loop rest (cards ++ [card]) (id card :: seen_ids)
  end.

Definition validate_all_conceptcards (raw_cards : list raw_value)
  : result (list ConceptCard) :=
  validate_all_loop raw_cards [] [].

End Validator.
Import Validator.

(* ================================================================== *)
(** ** [policy_router.py] *)
(* ================================================================== *)

Module Router.

Inductive PolicyAction : Type := ALLOW | TRANSFORM | REFUSE.

Record PolicyDecision : Type := {
  action : PolicyAction;
  reason : str;
  rewrite : option str
}.

Definition REASON_GENERAL_EDU : str := py "general_education".
Definition REASON_PERSONALIZED_ADVICE : str := py "personalized_advice".
Definition REASON_ASSET_RECOMMENDATION : str := py "asset_recommendation".
Definition REASON_TIMING_REQUEST : str := py "timing_request".
Definition REASON_PORTFOLIO_ALLOCATION : str := py "portfolio_allocation".
Definition REASON_ILLEGAL_FINANCIAL : str := py "illegal_financial".
Definition REASON_AMBIGUOUS : str := py "ambiguous".

(** [\s+] *)
Definition ws : regex := plus Space.

(** The pattern tables, each pattern compiled under [re.IGNORECASE] as
    [_matches_any] does. *)
Definition _ILLEGAL_PATTERNS : list regex :=
  [ (* \bmoney\s+launder(ing|)\b *)
    seq [Bnd; liti "money"; ws; liti "launder"; alt [liti "ing"; Eps]; Bnd];
    (* \blaunder(ing|)\b.*\bmoney\b *)
    seq [Bnd; liti "launder"; alt [liti "ing"; Eps]; Bnd; star Dot; Bnd; liti "money"; Bnd];
    (* \binsider\s+trad(ing|e)\b *)
    seq [Bnd; liti "insider"; ws; liti "trad"; alt [liti "ing"; liti "e"]; Bnd];
    (* \bfront[-\s]?run(ning|)\b *)
    seq [Bnd; liti "front"; opt (One (Or (CharI "-") Space)); liti "run";
         alt [liti "ning"; Eps]; Bnd];
    (* \bevade\s+tax(es|)\b *)
    seq [Bnd; liti "evade"; ws; liti "tax"; alt [liti "es"; Eps]; Bnd];
    (* \btax\s+evasion\b *)
    seq [Bnd; liti "tax"; ws; liti "evasion"; Bnd];
    (* \bfake\s+(receipt|invoic)e(s|)\b *)
    seq [Bnd; liti "fake"; ws; alt [liti "receipt"; liti "invoic"]; liti "e";
         alt [liti "s"; Eps]; Bnd];
    (* \bforg(e|ing)\s+(a|an)\s+(receipt|invoice|statement)\b *)
    seq [Bnd; liti "forg"; alt [liti "e"; liti "ing"]; ws; alt [liti "a"; liti "an"]; ws;
         alt [liti "receipt"; liti "invoice"; liti "statement"]; Bnd];
    (* \bcommit\s+fraud\b *)
    seq [Bnd; liti "commit"; ws; liti "fraud"; Bnd];
    (* \bponzi\b *)
    seq [Bnd; liti "ponzi"; Bnd] ].

Definition _ADVICE_PATTERNS : list regex :=
  [ (* \bwhat\s+should\s+i\s+(invest|buy|do)\b *)
    seq [Bnd; liti "what"; ws; liti "should"; ws; liti "i"; ws;
         alt [liti "invest"; liti "buy"; liti "do"]; Bnd];
    (* \bshould\s+i\s+(buy|sell|invest)\b *)
    seq [Bnd; liti "should"; ws; liti "i"; ws;
         alt [liti "buy"; liti "sell"; liti "invest"]; Bnd];
    (* \bis\s+.+\s+a\s+good\s+(buy|investment)\b *)
    seq [Bnd; liti "is"; ws; plus Dot; ws; liti "a"; ws; liti "good"; ws;
         alt [liti "buy"; liti "investment"]; Bnd];
    (* \b(best|top)\s+(stock|etf|crypto|investment)\b *)
    seq [Bnd; alt [liti "best"; liti "top"]; ws;
         alt [liti "stock"; liti "etf"; liti "crypto"; liti "investment"]; Bnd];
    (* \bwhich\s+(stock|etf|crypto)\s+should\s+i\s+(buy|pick)\b *)
    seq [Bnd; liti "which"; ws; alt [liti "stock"; liti "etf"; liti "crypto"]; ws;
         liti "should"; ws; liti "i"; ws; alt [liti "buy"; liti "pick"]; Bnd];
    (* \b(rate|rank)\s+.+\s+(stock|etf|crypto)\b *)
    seq [Bnd; alt [liti "rate"; liti "rank"]; ws; plus Dot; ws;
         alt [liti "stock"; liti "etf"; liti "crypto"]; Bnd];
    (* \bbest\s+way\s+to\s+invest\b *)
    seq [Bnd; liti "best"; ws; liti "way"; ws; liti "to"; ws; liti "invest"; Bnd];
    (* \binvest\s+my\s+money\b *)
    seq [Bnd; liti "invest"; ws; liti "my"; ws; liti "money"; Bnd];
    (* \bwhat'?s\s+the\s+best\s+way\s+to\s+invest\b *)
    seq [Bnd; liti "what"; opt (One (CharI "'")); liti "s"; ws; liti "the"; ws;
         liti "best"; ws; liti "way"; ws; liti "to"; ws; liti "invest"; Bnd] ].

Definition _ALLOCATION_PATTERNS : list regex :=
  [ (* \ballocat(e|ion)\b *)
    seq [Bnd; liti "allocat"; alt [liti "e"; liti "ion"]; Bnd];
    (* \bmy\s+portfolio\b *)
    seq [Bnd; liti "my"; ws; liti "portfolio"; Bnd];
    (* \bdiversif(y|ication)\s+my\s+portfolio\b *)
    seq [Bnd; liti "diversif"; alt [liti "y"; liti "ication"]; ws; liti "my"; ws;
         liti "portfolio"; Bnd];
    (* \bI\s+have\s+\$?\d *)
    seq [Bnd; liti "I"; ws; liti "have"; ws; opt (One (CharI "$")); One Digit];
    (* \bwith\s+\$?\d *)
    seq [Bnd; liti "with"; ws; opt (One (CharI "$")); One Digit];
    (* \bhow\s+should\s+i\s+invest\s+\$?\d *)
    seq [Bnd; liti "how"; ws; liti "should"; ws; liti "i"; ws; liti "invest"; ws;
         opt (One (CharI "$")); One Digit];
    (* \bretirement\s+plan\b *)
    seq [Bnd; liti "retirement"; ws; liti "plan"; Bnd];
    (* \bbuild\s+me\s+(a|an)\s+(portfolio|plan)\b *)
    seq [Bnd; liti "build"; ws; liti "me"; ws; alt [liti "a"; liti "an"]; ws;
         alt [liti "portfolio"; liti "plan"]; Bnd] ].

Definition _TIMING_PATTERNS : list regex :=
  [ (* \bwhen\s+should\s+i\s+(buy|sell)\b *)
    seq [Bnd; liti "when"; ws; liti "should"; ws; liti "i"; ws;
         alt [liti "buy"; liti "sell"]; Bnd];
    (* \btime\s+the\s+market\b *)
    seq [Bnd; liti "time"; ws; liti "the"; ws; liti "market"; Bnd];
    (* \bshould\s+i\s+sell\s+now\b *)
    seq [Bnd; liti "should"; ws; liti "i"; ws; liti "sell"; ws; liti "now"; Bnd] ].

(** [_TICKER_LIKE = re.compile(r"\b[A-Z]{1,5}\b")] *)
Definition _TICKER_LIKE : regex :=
  seq [Bnd; Rep (Range "A" "Z") 1 (Some 5); Bnd].

(** [r"\$?\d[\d,]*(\.\d+)?"] *)
Definition AMOUNT_RE : regex :=
  seq [opt (One (Char "$")); One Digit; star (Or Digit (Char ","));
       opt (seq [One (Char "."); plus Digit])].

(** [r"\b(buy|sell)\b"] under [re.IGNORECASE] *)
Definition BUY_SELL_RE : regex :=
  seq [Bnd; alt [liti "buy"; liti "sell"]; Bnd].

Definition _matches_any (patterns : list regex) (text : str) : bool :=
  existsb (fun p => search p text) patterns.

Definition REWRITE_TIMING : str :=
  py "What are the common factors and risks people consider when deciding whether to hold or sell an investment, and why is market timing difficult in general?".

Definition REWRITE_ALLOCATION : str :=
  py "What are general frameworks people use to think about diversification, time horizon, liquidity needs, and risk tolerance when building a long-term investment plan (conceptually)?".

Definition REWRITE_DEFAULT : str :=
  py "What are general frameworks to evaluate investment options based on goals, time horizon, and risk tolerance, and what tradeoffs typically matter?".

Definition _safe_rewrite_for_advice (original : str) : str :=
  let t := lower (strip original) in
  if _matches_any _TIMING_PATTERNS t then REWRITE_TIMING
  else if _matches_any _ALLOCATION_PATTERNS t then REWRITE_ALLOCATION
  else REWRITE_DEFAULT.

Definition _sanitize_rewrite (rewrite : str) : str :=
  let out := rewrite in
  let out := sub AMOUNT_RE (py "[amount]") out in
  let out := sub _TICKER_LIKE (py "[asset]") out in
  let out := sub BUY_SELL_RE (py "trade") out in
  strip out.

(** [route].  [user_text or ""] is [user_text] itself on a [str]. *)
Definition route (user_text : str) : PolicyDecision :=
  let text := strip user_text in
  if is_empty text then
    {| action := ALLOW; reason := REASON_GENERAL_EDU; rewrite := None |}
  else if _matches_any _ILLEGAL_PATTERNS text then
    {| action := REFUSE; reason := REASON_ILLEGAL_FINANCIAL; rewrite := None |}
  else if _matches_any _ADVICE_PATTERNS text then
    let rw := _safe_rewrite_for_advice text in
    {| action := TRANSFORM; reason := REASON_ASSET_RECOMMENDATION;
       rewrite := Some (_sanitize_rewrite rw) |}
  else if _matches_any _ALLOCATION_PATTERNS text then
    let rw := _safe_rewrite_for_advice text in
    {| action := TRANSFORM; reason := REASON_PORTFOLIO_ALLOCATION;
       rewrite := Some (_sanitize_rewrite rw) |}
  else if _matches_any _TIMING_PATTERNS text then
    let rw := _safe_rewrite_for_advice text in
    {| action := TRANSFORM; reason := REASON_TIMING_REQUEST;
       rewrite := Some (_sanitize_rewrite rw) |}
  else
    {| action := ALLOW; reason := REASON_GENERAL_EDU; rewrite := None |}.

End Router.
Import Router.

(* ================================================================== *)
(** ** Sample inputs *)
(* ================================================================== *)

Module Samples.

Definition safety_ok : raw_value :=
  VDict [ (py "allowed_intents", VList [VStr (py "educational_explanation")]);
          (py "forbidden_intents",
           VList [VStr (py "personal_advice"); VStr (py "product_recommendation")]) ].

Definition metadata_ok : raw_value :=
  VDict [ (py "sources", VList [VStr (py "https://example.com")]);
          (py "last_updated", VStr (py "2025-12-25")) ].

(** A well-formed record, with the given title, non_goals and metadata. *)
Definition record (title : raw_value) (non_goals : string) (metadata : raw_value)
  : dict :=
  [ (py "id", VStr (py "credit_score"));
    (py "title", title);
    (py "category", VStr (py "credit"));
    (py "difficulty", VStr (py "beginner"));
    (py "summary", VList [VStr (py " A credit score summarises a credit history. ")]);
    (py "core_mechanics", VList [VStr (py "Payment history is one input.")]);
    (py "examples",
     VList [VDict [ (py "scenario", VStr (py "A payment is late."));
                    (py "explanation", VStr (py "The score may drop.")) ]]);
    (py "misconceptions", VList [VStr (py "Checking a score lowers it.")]);
    (py "non_goals", VList [VStr (py non_goals)]);
    (py "safety", safety_ok);
    (py "metadata", metadata) ].

Definition good_dict : dict :=
  record (VStr (py "Credit Score")) "Not personal advice." metadata_ok.

Definition good_raw : raw_value := VDict good_dict.

(** A record whose [non_goals] names no advice-blocking term, and the same
    record without its title. *)
Definition vague_dict : dict :=
  record (VStr (py "Credit Score")) "Nothing else." metadata_ok.

Definition untitled_dict : dict :=
  filter (fun kv => negb (str_eqb (fst kv) (py "title"))) vague_dict.

(** The good record with an advice-blocking term split over two items of
    [non_goals]. *)
Definition split_dict : dict :=
  map (fun kv =>
         if str_eqb (fst kv) (py "non_goals")
         then (fst kv, VList [VStr (py "Not adv"); VStr (py "ice.")])
         else kv)
      good_dict.

(** The good record with one more key under [metadata], holding
    placeholder markup. *)
Definition noted_raw : raw_value :=
  VDict (record (VStr (py "Credit Score")) "Not personal advice."
           (VDict [ (py "sources", VList [VStr (py "https://example.com")]);
                    (py "last_updated", VStr (py "2025-12-25"));
                    (py "editor_note", VStr (py "<todo>")) ])).

Definition good_card : ConceptCard :=
  {| id := py "credit_score";
     title := py "Credit Score";
     category := CREDIT;
     difficulty := BEGINNER;
     summary := [py "A credit score summarises a credit history."];
     core_mechanics := [py "Payment history is one input."];
     examples := [ {| scenario := py "A payment is late.";
                      explanation := py "The score may drop." |} ];
     misconceptions := [py "Checking a score lowers it."];
     non_goals := [py "Not personal advice."];
     allowed_intents := [EDUCATIONAL_EXPLANATION];
     forbidden_intents := [PERSONAL_ADVICE; PRODUCT_RECOMMENDATION];
     sources := [py "https://example.com"];
     last_updated := py "2025-12-25" |}.

End Samples.

(* ================================================================== *)
(** ** What a pattern matches *)
(* ================================================================== *)

Module Sem.

(** The left-context flag after reading [m1] from a position with flag [pw]. *)
Definition lw (pw : bool) (m1 : str) : bool :=
  fold_left (fun _ x => isword x) m1 pw.

Definition within (hi : option nat) (n : nat) : Prop :=
  match hi with Some h => n <= h | None => True end.

(** [matches r pw m1 n]: at a position with left-context flag [pw] and with
    [n] to the right of it, the pattern [r] can match exactly [m1]. *)
Fixpoint matches (r : regex) (pw : bool) (m1 n : str) : Prop :=
  match r with
  | Eps => m1 = []
  | One cs => exists x, m1 = [x] /\ cmatch cs x = true
  | Bnd => m1 = [] /\ xorb pw (hw n) = true
  | Seq r1 r2 =>
      exists a b, m1 = a ++ b /\ matches r1 pw a (b ++ n) /\ matches r2 (lw pw a) b n
  | Alt r1 r2 => matches r1 pw m1 n \/ matches r2 pw m1 n
  | Rep cs lo hi =>
      Forall (fun x => cmatch cs x = true) m1 /\
      lo <= List.length m1 /\ within hi (List.length m1)
  end.

(** The text has a match of [r] somewhere, read from a position with
    left-context flag [pw]. *)
Definition has_match (r : regex) (pw : bool) (s : str) : Prop :=
  exists l m1 n, s = l ++ m1 ++ n /\ matches r (lw pw l) m1 n.

Definition all_chars : list ascii := map ascii_of_nat (List.seq 0 256).

(** No character of the class is white space. *)
Definition cs_nonspace (cs : cset) : bool :=
  forallb (fun x => negb (cmatch cs x && isspace x)) all_chars.

(** What is known of one end of the matches of a pattern: [Solid], every
    match is non-empty and has a non-space character at that end; [Soft],
    every non-empty match has; [Unknown] otherwise. *)
Inductive edge : Type := Solid | Soft | Unknown.

Definition edge_join (a b : edge) : edge :=
  match a, b with
  | Solid, Solid => Solid
  | Unknown, _ | _, Unknown => Unknown
  | _, _ => Soft
  end.

(** The edge of a sequence, given the edge of the part at that end ([near])
    and of the other part ([far]). *)
Definition edge_seq (near far : edge) : edge :=
  match near with
  | Solid => Solid
  | Soft => far
  | Unknown => Unknown
  end.

Definition edge_rep (cs : cset) (lo : nat) : edge :=
  if cs_nonspace cs then match lo with 0 => Soft | S _ => Solid end else Unknown.

Fixpoint first_edge (r : regex) : edge :=
  match r with
  | Eps | Bnd => Soft
  | One cs => if cs_nonspace cs then Solid else Unknown
  | Seq r1 r2 => edge_seq (first_edge r1) (first_edge r2)
  | Alt r1 r2 => edge_join (first_edge r1) (first_edge r2)
  | Rep cs lo _ => edge_rep cs lo
  end.

Fixpoint last_edge (r : regex) : edge :=
  match r with
  | Eps | Bnd => Soft
  | One cs => if cs_nonspace cs then Solid else Unknown
  | Seq r1 r2 => edge_seq (last_edge r2) (last_edge r1)
  | Alt r1 r2 => edge_join (last_edge r1) (last_edge r2)
  | Rep cs lo _ => edge_rep cs lo
  end.

(** The text starts, or ends, with a character that is not white space. *)
Definition starts_solid (m1 : str) : Prop :=
  match m1 with x :: _ => isspace x = false | [] => False end.

Definition ends_solid (m1 : str) : Prop := starts_solid (rev m1).

Definition edge_holds (e : edge) (P : str -> Prop) (m1 : str) : Prop :=
  match e with
  | Solid => P m1
  | Soft => m1 = [] \/ P m1
  | Unknown => True
  end.

Definition is_solid (e : edge) : bool :=
  match e with Solid => true | _ => false end.

(** The pattern has no [\b] in it. *)
Fixpoint bnd_free (r : regex) : bool :=
  match r with
  | Bnd => false
  | Seq r1 r2 | Alt r1 r2 => bnd_free r1 && bnd_free r2
  | _ => true
  end.

(** Every character of the class is a word character. *)
Definition cs_word (cs : cset) : bool :=
  forallb (fun x => negb (cmatch cs x) || isword x) all_chars.

(** The pattern matches word characters only. *)
Fixpoint only_word (r : regex) : bool :=
  match r with
  | Eps | Bnd => true
  | One cs | Rep cs _ _ => cs_word cs
  | Seq r1 r2 | Alt r1 r2 => only_word r1 && only_word r2
  end.

(** The pattern has no empty match. *)
Fixpoint nonnull (r : regex) : bool :=
  match r with
  | Eps | Bnd => false
  | One _ => true
  | Seq r1 r2 => nonnull r1 || nonnull r2
  | Alt r1 r2 => nonnull r1 && nonnull r2
  | Rep _ lo _ => negb (lo =? 0)
  end.

(** A pattern for whole words: [\b] cannot occur inside it, and what it
    matches is a non-empty run of word characters. *)
Definition wordy (r : regex) : bool := bnd_free r && only_word r && nonnull r.

(** [\bA\b] *)
Definition word_re (A : regex) : regex := Seq Bnd (Seq A Bnd).

(** The longest run of word characters at the start of the text, and what
    follows it. *)
Fixpoint span_word (s : str) : str * str :=
  match s with
  | x :: s' =>
      if isword x then let (t, rest) := span_word s' in (x :: t, rest)
      else ([], s)
  | [] => ([], [])
  end.

(** The match attempt of a whole-word pattern, told by words: at the start
    of a word that satisfies [P], the whole word is matched. *)
Definition tok_match (P : str -> bool) (pw : bool) (s : str) : option str :=
  if pw then None
  else
    let (t, rest) := span_word s in
    match t with
    | [] => None
    | _ :: _ => if P t then Some rest else None
    end.

Definition len_of (mt : bool -> str -> option str) (pw : bool) (s : str)
  : option nat :=
  match mt pw s with
  | Some rest => Some (List.length s - List.length rest)
  | None => None
  end.

(** Substitution and search told by words. *)
Definition tsub (P : str -> bool) (repl : str) (pw : bool) (s : str) : str :=
  sub_loop (len_of (tok_match P)) repl 0 pw s.

Definition tscan (Q : str -> bool) (pw : bool) (s : str) : bool :=
  scan (tok_match Q) pw s.

(** Putting [repl] in front of a text that does not start inside a word
    adds no word satisfying [Q]. *)
Definition quiet (Q : str -> bool) (repl : str) : Prop :=
  forall rest, hw rest = false -> tscan Q false (repl ++ rest) = tscan Q false rest.

(** Every match of the pattern starts and ends with a non-space character. *)
Definition solid (r : regex) : bool :=
  is_solid (first_edge r) && is_solid (last_edge r).

End Sem.
Import Sem.

(* ================================================================== *)
(** ** What the stages of validation accept *)
(* ================================================================== *)

Module Accept.

(** The record validates, and [card] is the card returned. *)
Definition validates (raw : raw_value) (card : ConceptCard) : Prop :=
  validate_conceptcard raw = Ok card.

(** A text with no white space at either end. *)
Definition trimmed (s : str) : Prop := s = [] \/ (starts_solid s /\ ends_solid s).

(** [item] is a string, non-empty once stripped and free of placeholder
    markup, and [out] is its stripped form. *)
Definition clean_str (item : raw_value) (out : str) : Prop :=
  exists s, item = VStr s /\ is_empty (strip s) = false /\
            search _PLACEHOLDER_RE s = false /\ out = strip s.

Definition clean_example (ex : raw_value) (e : ConceptExample) : Prop :=
  exists exd sc expl,
    ex = VDict exd /\
    nonblank_str (get exd (py "scenario")) = Some sc /\
    nonblank_str (get exd (py "explanation")) = Some expl /\
    search _PLACEHOLDER_RE sc = false /\
    search _PLACEHOLDER_RE expl = false /\
    e = {| scenario := strip sc; explanation := strip expl |}.

Definition clean_intent (s : str) (e : Intent) : Prop :=
  is_empty (strip s) = false /\
  search _PLACEHOLDER_RE (strip s) = false /\
  enum_call (strip s) = Some e.

(** The summary items that are strings have no second-person wording. *)
Definition no_second_person (items : list raw_value) : Prop :=
  Forall (fun item => forall s, item = VStr s -> search _SECOND_PERSON_RE s = false) items.

(** The top-level string fields have no placeholder markup. *)
Definition swept (d : dict) : Prop :=
  Forall (fun kv => forall s, snd kv = VStr s -> search _PLACEHOLDER_RE s = false) d.

(** The text has one of the advice-blocking terms as a substring. *)
Definition names_advice_term (text : str) : bool :=
  existsb (fun term => contains term text) advice_terms.

(** The [non_goals] text the validator builds names one of the terms. *)
Definition blocks_advice (non_goals : list raw_value) : bool :=
  names_advice_term (lower (join (py " ") (only_strs non_goals))).

(** The first loop of [_education_only_heuristics], over [summary]. *)
Definition summary_stage (card_id : str) (d : dict) : result unit :=
  match get d (py "summary") with
  | Some (VList summary_list) => second_person_loop card_id 0 summary_list
  | _ => Ok tt
  end.

(** Every check that [validate_conceptcard] runs before it looks at the
    [non_goals] text passes. *)
Definition earlier_checks_pass (d : dict) : bool :=
  let card_id := _card_id_for_errors d in
  is_ok (_require_str d card_id (py "id")) &&
  is_ok (_require_str d card_id (py "title")) &&
  is_ok (_require_enum (A := Category) d card_id (py "category")) &&
  is_ok (_require_enum (A := Difficulty) d card_id (py "difficulty")) &&
  is_ok (_require_list_of_str d card_id (py "summary") 1) &&
  is_ok (_require_list_of_str d card_id (py "core_mechanics") 1) &&
  is_ok (_require_list_of_str d card_id (py "misconceptions") 1) &&
  is_ok (_require_list_of_str d card_id (py "non_goals") 1) &&
  is_ok (_require_examples d card_id) &&
  is_ok (_require_safety d card_id) &&
  is_ok (_require_metadata d card_id) &&
  is_ok (summary_stage card_id d).

(** Is there placeholder markup in a string anywhere in the value, at any
    depth. *)
Fixpoint any_placeholder (v : raw_value) : bool :=
  match v with
  | VStr s => search _PLACEHOLDER_RE s
  | VList l => existsb any_placeholder l
  | VDict d => existsb (fun kv => any_placeholder (snd kv)) d
  | _ => false
  end.

Definition no_placeholder (s : str) : Prop := search _PLACEHOLDER_RE s = false.

(** The string elements of the list stored under [key] have no placeholder
    markup. *)
Definition list_field_clean (d : dict) (key : str) : Prop :=
  forall items s,
    get d key = Some (VList items) -> In (VStr s) items -> no_placeholder s.

(** The strings the validator looks at have no placeholder markup: every
    top-level string field, the elements of the four text lists, the two
    texts of every example, the intent strings and the metadata. *)
Definition checked_strings_clean (d : dict) : Prop :=
  (forall key s, In (key, VStr s) d -> no_placeholder s) /\
  list_field_clean d (py "summary") /\
  list_field_clean d (py "core_mechanics") /\
  list_field_clean d (py "misconceptions") /\
  list_field_clean d (py "non_goals") /\
  (forall exs exd key s,
      get d (py "examples") = Some (VList exs) -> In (VDict exd) exs ->
      key = py "scenario" \/ key = py "explanation" ->
      get exd key = Some (VStr s) -> no_placeholder s) /\
  (forall sd,
      get d (py "safety") = Some (VDict sd) ->
      list_field_clean sd (py "allowed_intents") /\
      list_field_clean sd (py "forbidden_intents")) /\
  (forall md,
      get d (py "metadata") = Some (VDict md) ->
      list_field_clean md (py "sources") /\
      (forall s, get md (py "last_updated") = Some (VStr s) -> no_placeholder s)).

End Accept.
Import Accept.

(* ================================================================== *)
(** ** The serialized form of a card *)
(* ================================================================== *)

Module Serial.

(** Modelled from the spec: the repository has no serializer; the
    serialized form of an example is the mapping of its two texts under
    [scenario] and [explanation]. *)
Definition example_to_raw (e : ConceptExample) : raw_value :=
  VDict [ (py "scenario", VStr (scenario e));
          (py "explanation", VStr (explanation e)) ].

Definition intents_to_raw (l : list Intent) : raw_value :=
  VList (map (fun i => VStr (value i)) l).

(** Modelled from the spec: the repository has no serializer; the
    serialized form of a card is the raw record with enum members as
    their string values, examples as scenario/explanation mappings, the
    intents under [safety], and the sources and the date under
    [metadata]. *)
Definition card_to_dict (c : ConceptCard) : dict :=
  [ (py "id", VStr (id c));
    (py "title", VStr (title c));
    (py "category", VStr (value (category c)));
    (py "difficulty", VStr (value (difficulty c)));
    (py "summary", VList (map VStr (summary c)));
    (py "core_mechanics", VList (map VStr (core_mechanics c)));
    (py "examples", VList (map example_to_raw (examples c)));
    (py "misconceptions", VList (map VStr (misconceptions c)));
    (py "non_goals", VList (map VStr (non_goals c)));
    (py "safety",
     VDict [ (py "allowed_intents", intents_to_raw (allowed_intents c));
             (py "forbidden_intents", intents_to_raw (forbidden_intents c)) ]);
    (py "metadata",
     VDict [ (py "sources", VList (map VStr (sources c)));
             (py "last_updated", VStr (last_updated c)) ]) ].

Definition card_to_raw (c : ConceptCard) : raw_value := VDict (card_to_dict c).

End Serial.
Import Serial.

(* ================================================================== *)
(** ** The shape of validated cards and of validation errors *)
(* ================================================================== *)

Module Shape.

(** [a-z] and [a-z0-9_], the two classes of the id pattern. *)
Definition is_lower_az (c : ascii) : bool := in_range 97 122 c.

Definition is_id_char (c : ascii) : bool :=
  in_range 97 122 c || in_range 48 57 c || (code c =? 95).

(** Every string a card stores. *)
Definition card_strings (c : ConceptCard) : list str :=
  [id c; title c; last_updated c]
  ++ summary c ++ core_mechanics c ++ misconceptions c ++ non_goals c
  ++ sources c
  ++ flat_map (fun e => [scenario e; explanation e]) (examples c).

(** [out] is the stripped form of a text that is not blank and whose
    stripped form has no placeholder markup. *)
Definition stored (out : str) : Prop :=
  exists s, is_empty (strip s) = false /\ no_placeholder (strip s) /\ out = strip s.

(** The list under [key] is a list of strings, [strs]. *)
Definition raw_strings (d : dict) (key : str) (strs : list str) : Prop :=
  get d key = Some (VList (map VStr strs)).

(** The top-level keys [validate_conceptcard] asks for. *)
Definition required_keys : list str :=
  [py "id"; py "title"; py "category"; py "difficulty"; py "summary";
   py "core_mechanics"; py "misconceptions"; py "non_goals"; py "examples";
   py "safety"; py "metadata"].

(** The error is the field-addressed one, for the card id [card_id]. *)
Definition addressed_to (card_id : str) (e : error) : Prop :=
  exists field msg, e = FieldError card_id field msg.

End Shape.
Import Shape.

(* ================================================================== *)
(** ** The router, told by what the text matches *)
(* ================================================================== *)

Module Decide.

(** The class takes a character exactly when it takes its lowercase form. *)
Definition cs_caseblind (cs : cset) : bool :=
  forallb (fun x => Bool.eqb (cmatch cs (lower_char x)) (cmatch cs x)) all_chars.

Fixpoint caseblind (r : regex) : bool :=
  match r with
  | Eps | Bnd => true
  | One cs | Rep cs _ _ => cs_caseblind cs
  | Seq r1 r2 | Alt r1 r2 => caseblind r1 && caseblind r2
  end.

(** A pattern table whose matches survive stripping and lowercasing. *)
Definition steady (patterns : list regex) : bool :=
  forallb solid patterns && forallb caseblind patterns.

(** The reframing [_safe_rewrite_for_advice] picks, told by the groups the
    text matches. *)
Definition rewrite_for (timing allocation : bool) : str :=
  if timing then REWRITE_TIMING
  else if allocation then REWRITE_ALLOCATION
  else REWRITE_DEFAULT.

(** The decision, told by the groups the text matches, which fix the
    action and the reason, and by the timing and allocation groups its
    lowercase form matches, which pick the rewrite. *)
Definition decide (illegal advice allocation timing : bool)
           (timing_lower allocation_lower : bool) : PolicyDecision :=
  if illegal then
    {| action := REFUSE; reason := REASON_ILLEGAL_FINANCIAL; rewrite := None |}
  else if advice || allocation || timing then
    {| action := TRANSFORM;
       reason := if advice then REASON_ASSET_RECOMMENDATION
                 else if allocation then REASON_PORTFOLIO_ALLOCATION
                 else REASON_TIMING_REQUEST;
       rewrite := Some (_sanitize_rewrite (rewrite_for timing_lower allocation_lower)) |}
  else
    {| action := ALLOW; reason := REASON_GENERAL_EDU; rewrite := None |}.

(** Every character of the text is an ASCII character. *)
Definition is_ascii (s : str) : bool := forallb (fun c => code c <? 128) s.

(** The three texts a rewrite can be, as the caller receives them. *)
Definition rewrites_out : list str :=
  [ py "What are the common factors and risks people consider when deciding whether to hold or trade an investment, and why is market timing difficult in general?";
    py "What are general frameworks people use to think about diversification, time horizon, liquidity needs, and risk tolerance when building a long-term investment plan (conceptually)?";
    py "What are general frameworks to evaluate investment options based on goals, time horizon, and risk tolerance, and what tradeoffs typically matter?" ].

Definition all_space (s : str) : Prop := Forall (fun c => isspace c = true) s.

End Decide.
Import Decide.

(* ================================================================== *)
(** ** [retriever.py] *)
(* ================================================================== *)

Module Retriever.

Definition _STOPWORDS : list str :=
  map py
    [ "a"; "an"; "the"; "and"; "or"; "but";
      "is"; "are"; "was"; "were"; "be"; "being"; "been";
      "to"; "of"; "in"; "on"; "for"; "with"; "as"; "at"; "by"; "from";
      "what"; "why"; "how"; "when"; "where"; "who"; "which";
      "i"; "you"; "we"; "they"; "he"; "she"; "it"; "my"; "your"; "our";
      "their" ]%string.

(** [_WORD_RE = re.compile(r"[a-z0-9]+")] *)
Definition WORD_CS : cset := Or (Range "a" "z") (Range "0" "9").
Definition _WORD_RE : regex := plus WORD_CS.

(** [re.findall(r, s)] for a pattern without groups: scan left to right,
    collect each match, resume after it.  [skip] counts the characters of
    the current match still to be passed.  ([_WORD_RE], the one pattern the
    source passes to [findall], cannot match the empty string; the branch
    for an empty match collects it and moves on by one character.) *)
Fixpoint findall_loop (mt : bool -> str -> option nat)
         (skip : nat) (pw : bool) (s : str) {struct s} : list str :=
  match s with
  | [] =>
      match skip, mt pw [] with
      | 0, Some _ => [[]]
      | _, _ => []
      end
  | x :: s' =>
      match skip with
      | S n => findall_loop mt n (isword x) s'
      | 0 =>
          match mt pw s with
          | Some (S n) => firstn (S n) s :: findall_loop mt n (isword x) s'
          | Some 0 => [] :: findall_loop mt 0 (isword x) s'
          | None => findall_loop mt 0 (isword x) s'
          end
      end
  end.

Definition findall (r : regex) (s : str) : list str :=
  findall_loop (match_len r) 0 false s.

(** [t in xs] on strings. *)
Definition member (t : str) (xs : list str) : bool := existsb (str_eqb t) xs.

(** A [Set[str]] is kept as a list without repetitions; the source looks
    only at emptiness, membership and size of its sets. *)
Definition to_set (xs : list str) : list str := nodup (list_eq_dec ascii_dec) xs.

(** [a & b] *)
Definition intersection (a b : list str) : list str :=
  filter (fun t => member t b) a.

(** [_tokens].  [text or ""] is [text] itself on a [str]. *)
Definition _tokens (text : str) : list str :=
  let raw := findall _WORD_RE (lower text) in
  to_set (filter (fun t => negb (member t _STOPWORDS)) raw).

(** The attribute values [_stringify] is given here: [None], a [str], or a
    list or tuple whose items are [str] or [None]. *)
Inductive attr : Type :=
| ANone
| AStr (s : str)
| AItems (items : list (option str)).

(** [[x for x in value if x is not None]] *)
Fixpoint present (items : list (option str)) : list str :=
  match items with
  | [] => []
  | Some x :: rest => x :: present rest
  | None :: rest => present rest
  end.

Definition _stringify (value : attr) : str :=
  match value with
  | ANone => []
  | AStr s => s
  | AItems items => join (py " ") (present items)
  end.

(** [RetrievalDebug] *)
Record RetrievalDebug : Type := {
  matched_terms : list str;
  matched_fields : list str
}.

(** [a | b] *)
Definition union (a b : list str) : list str := to_set (a ++ b).

(** The order of [str]: by code points, a proper prefix first. *)
Fixpoint str_leb (a b : str) : bool :=
  match a, b with
  | [], _ => true
  | _ :: _, [] => false
  | x :: a', y :: b' =>
      if code x <? code y then true
      else if code y <? code x then false
      else str_leb a' b'
  end.

Fixpoint insert_sorted (t : str) (xs : list str) : list str :=
  match xs with
  | [] => [t]
  | x :: rest => if str_leb t x then t :: xs else x :: insert_sorted t rest
  end.

(** [sorted(xs)] on strings. *)
Definition sorted (xs : list str) : list str := fold_right insert_sorted [] xs.

Inductive exception : Type :=
| UnboundLocalError (name : str)
| TypeError.

Section Cards.

(** The card objects, with what [getattr(card, name)] finds on them:
    [None] when the object has no such attribute. *)
Variable T : Type.
Variable attribute : T -> str -> option attr.

(** [getattr(card, name, default)] *)
Definition getattr (card : T) (name : str) (default : attr) : attr :=
  match attribute card name with
  | Some v => v
  | None => default
  end.

(** [" ".join([title, tags, summary])] *)
Definition card_text (card : T) : str :=
  let title := _stringify (getattr card (py "title") (AStr [])) in
  let tags := _stringify (getattr card (py "tags") (AStr [])) in
  let summary := _stringify (getattr card (py "summary") (AStr [])) in
  join (py " ") [title; tags; summary].

(** The loop of [retrieve_candidates], with the candidates so far. *)
Fixpoint candidates_loop (q_tokens : list str) (cards : list T)
         (candidates : list T) : list T :=
  match cards with
  | [] => candidates
  | card :: rest =>
      let haystack := strip (card_text card) in
      if is_empty haystack then candidates_loop q_tokens rest candidates
      else
        let card_tokens := _tokens haystack in
        match intersection q_tokens card_tokens with
        | _ :: _ => candidates_loop q_tokens rest (candidates ++ [card])
        | [] => candidates_loop q_tokens rest candidates
        end
  end.

Definition retrieve_candidates (query : str) (cards : list T) : list T :=
  let q := strip query in
  if is_empty q then []
  else
    let q_tokens := _tokens q in
    match q_tokens with
    | [] => []
    | _ :: _ => candidates_loop q_tokens cards []
    end.

(** The loop of [_match_debug] over [fields.items()], with the two
    accumulators. *)
Fixpoint match_debug_loop (query_tokens : list str) (fields : list (str * str))
         (matched_fields : list str) (all_overlap : list str)
  : list str * list str :=
  match fields with
  | [] => (matched_fields, all_overlap)
  | (name, text) :: rest =>
      let t := _tokens text in
      let overlap := intersection query_tokens t in
      match overlap with
      | _ :: _ =>
          match_debug_loop query_tokens rest (matched_fields ++ [name])
                           (union all_overlap overlap)
      | [] => match_debug_loop query_tokens rest matched_fields all_overlap
      end
  end.

Definition _match_debug (query_tokens : list str) (card : T) : RetrievalDebug :=
  let fields :=
    [ (py "title", _stringify (getattr card (py "title") (AStr [])));
      (py "tags", _stringify (getattr card (py "tags") (AStr [])));
      (py "summary", _stringify (getattr card (py "summary") (AStr []))) ] in
  let (matched_fields, all_overlap) := match_debug_loop query_tokens fields [] [] in
  {| matched_terms := sorted all_overlap;
     matched_fields := matched_fields |}.

(** What a call of [retrieve] comes to: the scored list, the scored list
    with the debug map, or an exception. *)
Inductive retrieved : Type :=
| Scored (scored : list (nat * T))
| ScoredDebug (scored : list (nat * T)) (debug_map : list (nat * RetrievalDebug))
| Raised (e : exception).

(** The scoring loop of [retrieve], with the list so far. *)
Fixpoint scored_loop (q_tokens : list str) (candidates : list T)
         (scored : list (nat * T)) : list (nat * T) :=
  match candidates with
  | [] => scored
  | card :: rest =>
      let haystack := strip (card_text card) in
      if is_empty haystack then scored_loop q_tokens rest scored
      else
        let card_tokens := _tokens haystack in
        let matched_terms := intersection q_tokens card_tokens in
        let score := List.length matched_terms in
        scored_loop q_tokens rest (scored ++ [(score, card)])
  end.

(** [retrieve].  With [debug] set, the loop header after the slice,
    [for i in (score, card) in enumerate(scored)], first evaluates the
    membership test [(score, card) in enumerate(scored)]: the local [score]
    is unbound when the scoring loop assigned nothing, and otherwise the
    test yields a [bool], which [for] cannot iterate. *)
Definition retrieve (query : str) (cards : list T) (top_k : Z) (debug : bool)
  : retrieved :=
  let q := strip query in
  if is_empty q || (top_k <=? 0)%Z then
    if debug then ScoredDebug [] [] else Scored []
  else
    let q_tokens := _tokens q in
    let candidates := retrieve_candidates q cards in
    let scored_all := scored_loop q_tokens candidates [] in
    let scored := firstn (Z.to_nat top_k) scored_all in
    if negb debug then Scored scored
    else
      match scored_all with
      | [] => Raised (UnboundLocalError (py "score"))
      | _ :: _ => Raised TypeError
      end.

End Cards.

(** A [ConceptCard] as the retriever sees it: a [str] title, a list of
    [str] as summary, and no [tags] attribute. *)
Definition concept_attribute (card : ConceptCard) (name : str) : option attr :=
  if str_eqb name (py "title") then Some (AStr (title card))
  else if str_eqb name (py "summary") then Some (AItems (map Some (summary card)))
  else None.

End Retriever.
Import Retriever.

Module Tokens.

(** The characters [_WORD_RE] takes. *)
Definition is_token_char (c : ascii) : bool := in_range 97 122 c || in_range 48 57 c.

(** The maximal runs of characters that satisfy [P], left to right; [cur]
    is the run being read. *)
Fixpoint words (P : ascii -> bool) (cur : str) (s : str) : list str :=
  match s with
  | [] => match cur with [] => [] | _ :: _ => [cur] end
  | x :: s' =>
      if P x then words P (cur ++ [x]) s'
      else
        match cur with
        | [] => words P [] s'
        | _ :: _ => cur :: words P [] s'
        end
  end.

(** The longest prefix of characters that satisfy [P], and the rest. *)
Fixpoint span (P : ascii -> bool) (s : str) : str * str :=
  match s with
  | x :: s' =>
      if P x then let (t, rest) := span P s' in (x :: t, rest) else ([], s)
  | [] => ([], [])
  end.

(** The set is not empty. *)
Definition any (xs : list str) : bool :=
  match xs with [] => false | _ :: _ => true end.

(** The number of query tokens the card's text has. *)
Definition overlap (T : Type) (attribute : T -> str -> option attr)
           (query : str) (card : T) : nat :=
  List.length (intersection (_tokens query) (_tokens (card_text attribute card))).

(** The card shares a token with the query. *)
Definition shares_token (T : Type) (attribute : T -> str -> option attr)
           (query : str) (card : T) : Prop :=
  exists t, In t (_tokens query) /\ In t (_tokens (card_text attribute card)).

End Tokens.
Import Tokens.

Module Fakes.

(** The cards of the retrieval tests: a title, a list of tags, a summary. *)
Record FakeCard : Type := {
  fake_title : str;
  fake_tags : list str;
  fake_summary : str
}.

Definition fake_attribute (card : FakeCard) (name : str) : option attr :=
  if str_eqb name (py "title") then Some (AStr (fake_title card))
  else if str_eqb name (py "tags") then Some (AItems (map Some (fake_tags card)))
  else if str_eqb name (py "summary") then Some (AStr (fake_summary card))
  else None.

Definition compound : FakeCard :=
  {| fake_title := py "Compound Interest Basics";
     fake_tags := [py "interest"; py "math"];
     fake_summary := py "How growth works." |}.

Definition budgeting : FakeCard :=
  {| fake_title := py "Budgeting 101";
     fake_tags := [py "budget"];
     fake_summary := py "Track spending." |}.

Definition shelf : list FakeCard := [compound; budgeting].

End Fakes.

(* ================================================================== *)
(** ** What a substitution does to a text *)
(* ================================================================== *)

Module Subst.



End Subst.
Import Subst.

(* ================================================================== *)
(** ** Inversion of the validation pipeline *)
(* ================================================================== *)

Lemma bind_ok (A B : Type) (x : result A) (f : A -> result B) (b : B) :
  bind x f = Ok b -> exists a, x = Ok a /\ f a = Ok b.
Proof.
  destruct x as [a|e]; simpl; intros H.
  - exists a; auto.
  - discriminate.
Qed.

Ltac inv_bind H :=
  let a := fresh "a" in
  let E := fresh "E" in
  apply bind_ok in H; destruct H as (a & E & H).

Example validate_good_raw :
  validate_conceptcard Samples.good_raw = Ok Samples.good_card.
Proof. vm_compute. reflexivity. Qed.

(** A record validates exactly when each stage of the pipeline succeeds,
    and the card collects the stages' results. *)
Lemma validate_conceptcard_ok_iff (raw : raw_value) (card : ConceptCard) :
  validate_conceptcard raw = Ok card <->
  exists d, raw = VDict d /\
    let card_id := _card_id_for_errors d in
    _require_str d card_id (py "id") = Ok (id card) /\
    _require_str d card_id (py "title") = Ok (title card) /\
    _require_enum d card_id (py "category") = Ok (category card) /\
    _require_enum d card_id (py "difficulty") = Ok (difficulty card) /\
    _require_list_of_str d card_id (py "summary") 1 = Ok (summary card) /\
    _require_list_of_str d card_id (py "core_mechanics") 1 = Ok (core_mechanics card) /\
    _require_list_of_str d card_id (py "misconceptions") 1 = Ok (misconceptions card) /\
    _require_list_of_str d card_id (py "non_goals") 1 = Ok (non_goals card) /\
    _require_examples d card_id = Ok (examples card) /\
    _require_safety d card_id = Ok (allowed_intents card, forbidden_intents card) /\
    _require_metadata d card_id = Ok (sources card, last_updated card) /\
    _education_only_heuristics card_id d = Ok tt /\
    fullmatch ID_RE (id card) = true.
Proof.
  split.
  - destruct raw as [ | | | |l|d]; simpl; try discriminate.
    intros H. exists d. split; [reflexivity|].
    repeat inv_bind H. destruct a8 as [al fo].
    inv_bind H. destruct a8 as [so lu]. inv_bind H. destruct a8.
    destruct (fullmatch ID_RE a) eqn:Hid; simpl in H; [|discriminate].
    injection H as <-. simpl. tauto.
  - intros (d & -> & H). simpl in H.
    destruct H as (H1 & H2 & H3 & H4 & H5 & H6 & H7 & H8 & H9 & H10 & H11 & H12 & H13).
    simpl. rewrite H1; simpl. rewrite H2; simpl. rewrite H3; simpl.
    rewrite H4; simpl. rewrite H5; simpl. rewrite H6; simpl. rewrite H7; simpl.
    rewrite H8; simpl. rewrite H9; simpl. rewrite H10; simpl. rewrite H11; simpl.
    rewrite H12; simpl. rewrite H13; simpl. destruct card; reflexivity.
Qed.

(* ================================================================== *)
(** ** The safety sets of a validated card *)
(* ================================================================== *)

Lemma Intent_eqb_eq (a b : Intent) : Intent_eqb a b = true <-> a = b.
Proof. destruct a, b; simpl; split; intros H; try reflexivity; discriminate. Qed.

Lemma mem_In (i : Intent) (l : list Intent) : mem i l = true <-> In i l.
Proof.
  unfold mem. rewrite existsb_exists. split.
  - intros (x & Hx & E). apply Intent_eqb_eq in E. subst. exact Hx.
  - intros H. exists i. split; [exact H | apply Intent_eqb_eq; reflexivity].
Qed.

Lemma _require_safety_ok (d : dict) (card_id : str) (al fo : list Intent) :
  _require_safety d card_id = Ok (al, fo) ->
  missing_of fo = [] /\ overlap_of al fo = [].
Proof.
  unfold _require_safety. intros H. inv_bind H.
  destruct a as [ | | | | |sd]; try discriminate.
  destruct (list_of_strs (get sd (py "allowed_intents"))); [|discriminate].
  destruct (list_of_strs (get sd (py "forbidden_intents"))); [|discriminate].
  inv_bind H. inv_bind H.
  destruct (missing_of a0) eqn:Hm; [|discriminate].
  destruct (overlap_of a a0) eqn:Ho; [|discriminate].
  injection H as <- <-. auto.
Qed.

Lemma filter_nil_all (A : Type) (f : A -> bool) (l : list A) (x : A) :
  filter f l = [] -> In x l -> f x = false.
Proof.
  induction l as [|y l IH]; simpl; intros H Hin; [contradiction|].
  destruct (f y) eqn:Hy; [discriminate|].
  destruct Hin as [->|Hin]; auto.
Qed.

Lemma intents_by_value_all (i : Intent) : In i intents_by_value.
Proof. destruct i; simpl; tauto. Qed.

(** C1: a validated card forbids both [personal_advice] and
    [product_recommendation], and no intent is both allowed and forbidden. *)
Theorem validated_card_safety_sets (raw : raw_value) (card : ConceptCard) :
  validate_conceptcard raw = Ok card ->
  In PERSONAL_ADVICE (forbidden_intents card) /\
  In PRODUCT_RECOMMENDATION (forbidden_intents card) /\
  (forall i : Intent,
      In i (allowed_intents card) -> In i (forbidden_intents card) -> False).
Proof.
  intros H. apply validate_conceptcard_ok_iff in H.
  destruct H as (d & -> & H). simpl in H.
  destruct H as (_ & _ & _ & _ & _ & _ & _ & _ & _ & Hs & _).
  apply _require_safety_ok in Hs. destruct Hs as (Hm & Ho).
  assert (Hall : forall i, In i must_forbid -> In i (forbidden_intents card)).
  { intros i Hi. apply mem_In.
    pose proof (filter_nil_all _ _ i Hm (intents_by_value_all i)) as F.
    cbv beta in F. apply mem_In in Hi. rewrite Hi in F. simpl in F.
    destruct (mem i (forbidden_intents card)); [reflexivity | discriminate]. }
  split; [apply Hall; simpl; auto|].
  split; [apply Hall; simpl; auto|].
  intros i Ha Hf.
  pose proof (filter_nil_all _ _ i Ho (intents_by_value_all i)) as F.
  cbv beta in F. apply mem_In in Ha, Hf. rewrite Ha, Hf in F. discriminate.
Qed.

Lemma validated_card_safety_sets_witness :
  validate_conceptcard Samples.good_raw = Ok Samples.good_card /\
  In PERSONAL_ADVICE (forbidden_intents Samples.good_card) /\
  In PRODUCT_RECOMMENDATION (forbidden_intents Samples.good_card) /\
  (forall i : Intent,
      In i (allowed_intents Samples.good_card) ->
      In i (forbidden_intents Samples.good_card) -> False).
Proof.
  split; [vm_compute; reflexivity|].
  apply (@validated_card_safety_sets Samples.good_raw Samples.good_card).
  vm_compute; reflexivity.
Defined.

(* ================================================================== *)
(** ** The shape of the router's decisions *)
(* ================================================================== *)

(** C5: the decision of [route] carries a rewrite exactly when its action is
    TRANSFORM; ALLOW and REFUSE decisions carry none. *)
Theorem route_rewrite_iff_transform (user_text : str) :
  (rewrite (route user_text) <> None <-> action (route user_text) = TRANSFORM) /\
  (action (route user_text) = ALLOW -> rewrite (route user_text) = None) /\
  (action (route user_text) = REFUSE -> rewrite (route user_text) = None).
Proof.
  unfold route.
  destruct (is_empty (strip user_text));
    [|destruct (_matches_any _ILLEGAL_PATTERNS (strip user_text));
      [|destruct (_matches_any _ADVICE_PATTERNS (strip user_text));
        [|destruct (_matches_any _ALLOCATION_PATTERNS (strip user_text));
          [|destruct (_matches_any _TIMING_PATTERNS (strip user_text))]]]];
    simpl; repeat split; intros; try reflexivity; try discriminate;
    try congruence.
Qed.

(** C8: a text that is empty once stripped is allowed as general education,
    with no rewrite; [route] is a total function, so nothing is raised. *)
Theorem route_blank_allows (user_text : str) :
  strip user_text = [] ->
  route user_text =
    {| action := ALLOW; reason := py "general_education"; rewrite := None |}.
Proof.
  intros H. unfold route. rewrite H. reflexivity.
Qed.

Lemma route_blank_allows_witness :
  strip (py "  ") = [] /\
  route (py "  ") =
    {| action := ALLOW; reason := py "general_education"; rewrite := None |}.
Proof.
  split; [reflexivity|].
  apply (@route_blank_allows (py "  ")). reflexivity.
Defined.

(* ================================================================== *)
(** ** The corpus validator *)
(* ================================================================== *)

Lemma seen_In (x : str) (seen : list str) :
  existsb (str_eqb x) seen = true <-> In x seen.
Proof.
  rewrite existsb_exists. unfold str_eqb. split.
  - intros (y & Hy & E). destruct (list_eq_dec ascii_dec x y); [subst; auto|discriminate].
  - intros H. exists x. split; [exact H|].
    destruct (list_eq_dec ascii_dec x x); [reflexivity|contradiction].
Qed.

Lemma seen_not_In (x : str) (seen : list str) :
  existsb (str_eqb x) seen = false <-> ~ In x seen.
Proof.
  rewrite <- seen_In. destruct (existsb (str_eqb x) seen); split; intros; congruence.
Qed.

(** The loop over a prefix of records that all validate, with ids that are
    new: it reaches the rest with the cards appended and the ids recorded. *)
Lemma validate_all_loop_prefix (pre rest : list raw_value)
      (cs : list ConceptCard) :
  Forall2 validates pre cs ->
  forall (cards : list ConceptCard) (seen : list str),
  NoDup (map id cs) ->
  (forall c, In c cs -> ~ In (id c) seen) ->
  validate_all_loop (pre ++ rest) cards seen =
  validate_all_loop rest (cards ++ cs) (rev (map id cs) ++ seen).
Proof.
  induction 1 as [|raw c pre cs Hv HF IH]; intros cards seen Hnd Hseen.
  - simpl. rewrite app_nil_r. reflexivity.
  - simpl. unfold validates in Hv. rewrite Hv. simpl.
    assert (Hc : existsb (str_eqb (id c)) seen = false).
    { apply seen_not_In. apply Hseen. left. reflexivity. }
    rewrite Hc. inversion Hnd as [|? ? Hnotin Hnd']; subst.
    rewrite IH; [| exact Hnd' |].
    + rewrite <- app_assoc. simpl. rewrite <- app_assoc. reflexivity.
    + intros c' Hc' [E|Hin].
      * apply Hnotin. rewrite E. apply in_map. exact Hc'.
      * apply (Hseen c'); [right; exact Hc' | exact Hin].
Qed.

(** C6: on records that all validate with distinct ids the corpus validator
    returns the cards in input order; it raises at the first record whose id
    repeats an earlier one; and a record that fails validation makes the
    whole call fail, with that record's error when it is the first fault. *)
Theorem validate_all_conceptcards_spec (raw_cards : list raw_value) :
  (forall cards,
      Forall2 validates raw_cards cards -> NoDup (map id cards) ->
      validate_all_conceptcards raw_cards = Ok cards) /\
  (forall pre raw post cards card,
      raw_cards = pre ++ raw :: post ->
      Forall2 validates pre cards -> NoDup (map id cards) ->
      validates raw card -> In (id card) (map id cards) ->
      validate_all_conceptcards raw_cards = Err (DuplicateId (id card))) /\
  (forall pre raw post cards e,
      raw_cards = pre ++ raw :: post ->
      Forall2 validates pre cards -> NoDup (map id cards) ->
      validate_conceptcard raw = Err e ->
      validate_all_conceptcards raw_cards = Err e) /\
  (forall raw e,
      In raw raw_cards -> validate_conceptcard raw = Err e ->
      exists e', validate_all_conceptcards raw_cards = Err e').
Proof.
  unfold validate_all_conceptcards.
  split; [|split; [|split]].
  - intros cards HF Hnd.
    rewrite <- (app_nil_r raw_cards).
    rewrite (validate_all_loop_prefix [] HF [] [] Hnd); [reflexivity|].
    intros c _ [].
  - intros pre raw post cards card -> HF Hnd Hv Hin.
    rewrite (validate_all_loop_prefix (raw :: post) HF [] [] Hnd);
      [|intros c _ []].
    simpl. unfold validates in Hv. rewrite Hv. simpl.
    rewrite app_nil_r.
    assert (Hs : existsb (str_eqb (id card)) (rev (map id cards)) = true).
    { apply seen_In. apply in_rev. rewrite rev_involutive. exact Hin. }
    rewrite Hs. reflexivity.
  - intros pre raw post cards e -> HF Hnd He.
    rewrite (validate_all_loop_prefix (raw :: post) HF [] [] Hnd);
      [|intros c _ []].
    simpl. rewrite He. reflexivity.
  - intros raw e Hin He.
    generalize (@nil ConceptCard) (@nil str).
    induction raw_cards as [|r rs IH]; [contradiction|].
    intros cards seen. simpl.
    destruct Hin as [->|Hin].
    + rewrite He. simpl. eauto.
    + destruct (validate_conceptcard r) as [c|e0]; simpl; [|eauto].
      destruct (existsb (str_eqb (id c)) seen); [eauto|].
      apply IH. exact Hin.
Qed.

(* ================================================================== *)
(** ** The matcher against the meaning of patterns *)
(* ================================================================== *)

Lemma lw_app (pw : bool) (a b : str) : lw pw (a ++ b) = lw (lw pw a) b.
Proof. unfold lw. apply fold_left_app. Qed.

Lemma lw_cons (pw : bool) (x : ascii) (a : str) : lw pw (x :: a) = lw (isword x) a.
Proof. reflexivity. Qed.

Lemma rep_m_sound (cs : cset) (k : bool -> str -> option str) (s : str) :
  forall lo hi pw res,
  rep_m cs lo hi pw s k = Some res ->
  exists m1 n, s = m1 ++ n /\
    (Forall (fun x => cmatch cs x = true) m1 /\
     lo <= List.length m1 /\ within hi (List.length m1)) /\
    k (lw pw m1) n = Some res.
Proof.
  induction s as [|x s IH]; intros lo hi pw res H; simpl in H.
  - destruct lo; [|discriminate].
    exists [], []. repeat split; simpl; auto. destruct hi; simpl; lia.
  - assert (Hstop : match lo with 0 => k pw (x :: s) | S _ => None end = Some res ->
              exists m1 n, x :: s = m1 ++ n /\
                (Forall (fun x => cmatch cs x = true) m1 /\
                 lo <= List.length m1 /\ within hi (List.length m1)) /\
                k (lw pw m1) n = Some res).
    { intros Hs. destruct lo; [|discriminate].
      exists [], (x :: s). repeat split; simpl; auto. destruct hi; simpl; lia. }
    destruct (negb (hi_zero hi) && cmatch cs x) eqn:Hc; [|auto].
    destruct (rep_m cs (pred lo) (option_map pred hi) (isword x) s k) eqn:Hr; [|auto].
    injection H as <-.
    apply IH in Hr. destruct Hr as (m1 & n & -> & (HF & Hlo & Hhi) & Hk).
    apply andb_prop in Hc. destruct Hc as (Hz & Hx).
    exists (x :: m1), n. repeat split; simpl; auto; [lia|].
    destruct hi as [[|h]|]; simpl in *; try discriminate; auto. lia.
Qed.

Lemma rep_m_complete (cs : cset) (k : bool -> str -> option str) (n : str) (m1 : str) :
  forall lo hi pw,
  Forall (fun x => cmatch cs x = true) m1 ->
  lo <= List.length m1 -> within hi (List.length m1) ->
  k (lw pw m1) n <> None ->
  rep_m cs lo hi pw (m1 ++ n) k <> None.
Proof.
  induction m1 as [|x m1 IH]; intros lo hi pw HF Hlo Hhi Hk; simpl in *.
  - assert (lo = 0) by lia. subst lo.
    destruct n as [|y n]; simpl; [exact Hk|].
    destruct (negb (hi_zero hi) && cmatch cs y); [|exact Hk].
    destruct (rep_m cs 0 (option_map pred hi) (isword y) n k); [discriminate|exact Hk].
  - inversion HF as [|? ? Hx HF']; subst.
    assert (Hz : negb (hi_zero hi) = true).
    { destruct hi as [[|h]|]; simpl in *; auto. lia. }
    rewrite Hz, Hx. simpl.
    assert (Hr : rep_m cs (pred lo) (option_map pred hi) (isword x) (m1 ++ n) k <> None).
    { apply IH; auto; [lia|].
      destruct hi as [h|]; simpl in *; auto. lia. }
    destruct (rep_m cs (pred lo) (option_map pred hi) (isword x) (m1 ++ n) k);
      [discriminate|contradiction].
Qed.

Lemma m_sound (r : regex) :
  forall pw s k res,
  m r pw s k = Some res ->
  exists m1 n, s = m1 ++ n /\ matches r pw m1 n /\ k (lw pw m1) n = Some res.
Proof.
  induction r as [ |cs| |r1 IH1 r2 IH2|r1 IH1 r2 IH2|cs lo hi];
    intros pw s k res H; simpl in H.
  - exists [], s. simpl. auto.
  - destruct s as [|x s]; [discriminate|].
    destruct (cmatch cs x) eqn:Hx; [|discriminate].
    exists [x], s. simpl. repeat split; eauto.
  - destruct (xorb pw (hw s)) eqn:Hb; [|discriminate].
    exists [], s. simpl. auto.
  - apply IH1 in H. destruct H as (a & n1 & -> & Ha & H).
    apply IH2 in H. destruct H as (b & n & -> & Hb & H).
    exists (a ++ b), n. rewrite <- app_assoc. split; [reflexivity|].
    split; [|rewrite lw_app; exact H].
    simpl. exists a, b. auto.
  - destruct (m r1 pw s k) eqn:H1.
    + injection H as <-. apply IH1 in H1.
      destruct H1 as (m1 & n & -> & Hm & Hk). exists m1, n. simpl. auto.
    + apply IH2 in H. destruct H as (m1 & n & -> & Hm & Hk).
      exists m1, n. simpl. auto.
  - apply rep_m_sound in H. destruct H as (m1 & n & -> & Hm & Hk).
    exists m1, n. simpl. auto.
Qed.

Lemma m_complete (r : regex) :
  forall pw m1 n k,
  matches r pw m1 n -> k (lw pw m1) n <> None ->
  m r pw (m1 ++ n) k <> None.
Proof.
  induction r as [ |cs| |r1 IH1 r2 IH2|r1 IH1 r2 IH2|cs lo hi];
    intros pw m1 n k Hm Hk; simpl in Hm |- *.
  - subst. exact Hk.
  - destruct Hm as (x & -> & Hx). simpl. rewrite Hx. exact Hk.
  - destruct Hm as (-> & Hb). simpl. rewrite Hb. exact Hk.
  - destruct Hm as (a & b & -> & Ha & Hb). rewrite <- app_assoc.
    apply IH1; [exact Ha|]. apply IH2; [exact Hb|].
    rewrite <- lw_app. exact Hk.
  - destruct Hm as [Hm|Hm].
    + pose proof (IH1 _ _ _ _ Hm Hk) as H1.
      destruct (m r1 pw (m1 ++ n) k); [discriminate|contradiction].
    + destruct (m r1 pw (m1 ++ n) k); [discriminate|].
      apply IH2; assumption.
  - destruct Hm as (HF & Hlo & Hhi). apply rep_m_complete; assumption.
Qed.

Lemma match_at_sound (r : regex) (pw : bool) (s rest : str) :
  match_at r pw s = Some rest ->
  exists m1, s = m1 ++ rest /\ matches r pw m1 rest.
Proof.
  unfold match_at. intros H. apply m_sound in H.
  destruct H as (m1 & n & -> & Hm & Hk). injection Hk as <-. eauto.
Qed.

Lemma match_at_complete (r : regex) (pw : bool) (m1 n : str) :
  matches r pw m1 n -> match_at r pw (m1 ++ n) <> None.
Proof.
  intros H. unfold match_at. apply m_complete with (1 := H). discriminate.
Qed.

Lemma search_from_iff (r : regex) (s : str) :
  forall pw, search_from r pw s = true <-> has_match r pw s.
Proof.
  unfold search_from. induction s as [|x s IH]; intros pw; simpl.
  - destruct (match_at r pw []) as [rest|] eqn:Hm.
    + split; [intros _|reflexivity].
      apply match_at_sound in Hm. destruct Hm as (m1 & E & Hm).
      exists [], m1, rest. simpl. auto.
    + split; [discriminate|]. intros (l & m1 & n & E & H).
      destruct l; [|discriminate]. simpl in E.
      destruct m1; [|discriminate]. simpl in E. subst n.
      apply match_at_complete in H. simpl in H. contradiction.
  - destruct (match_at r pw (x :: s)) as [rest|] eqn:Hm.
    + split; [intros _|reflexivity].
      apply match_at_sound in Hm. destruct Hm as (m1 & E & Hm).
      exists [], m1, rest. simpl. auto.
    + rewrite IH. split.
      * intros (l & m1 & n & -> & H). exists (x :: l), m1, n. simpl. auto.
      * intros (l & m1 & n & E & H). destruct l as [|y l].
        -- simpl in E, H. apply match_at_complete in H. rewrite <- E in H. contradiction.
        -- simpl in E. injection E as <- ->. exists l, m1, n. auto.
Qed.

Lemma search_iff (r : regex) (s : str) : search r s = true <-> has_match r false s.
Proof. apply search_from_iff. Qed.

Lemma fullmatch_iff (r : regex) (s : str) : fullmatch r s = true <-> matches r false s [].
Proof.
  unfold fullmatch. split.
  - destruct (m r false s _) eqn:H; [intros _|discriminate].
    apply m_sound in H. destruct H as (m1 & n & -> & Hm & Hk).
    destruct n; [|discriminate]. rewrite app_nil_r. exact Hm.
  - intros H.
    pose proof (@m_complete r false s [] (fun _ rest => match rest with [] => Some [] | _ => None end) H) as C.
    rewrite app_nil_r in C.
    destruct (m r false s _); [reflexivity|].
    exfalso. apply C; [discriminate|reflexivity].
Qed.

(* ================================================================== *)
(** ** Stripping a text and searching it *)
(* ================================================================== *)

Lemma space_not_word (x : ascii) : isspace x = true -> isword x = false.
Proof.
  destruct x as [[] [] [] [] [] [] [] []]; vm_compute; intros H;
    first [reflexivity | discriminate H].
Qed.

Lemma all_chars_complete (x : ascii) : In x all_chars.
Proof.
  unfold all_chars. rewrite <- (ascii_nat_embedding x).
  apply in_map. apply in_seq. pose proof (nat_ascii_bounded x). lia.
Qed.

Lemma cs_nonspace_sound (cs : cset) (x : ascii) :
  cs_nonspace cs = true -> cmatch cs x = true -> isspace x = false.
Proof.
  unfold cs_nonspace. rewrite forallb_forall. intros H Hx.
  specialize (H x (all_chars_complete x)). rewrite Hx in H. simpl in H.
  destruct (isspace x); [discriminate|reflexivity].
Qed.

Lemma starts_solid_app (a b : str) : starts_solid a -> starts_solid (a ++ b).
Proof. destruct a; simpl; [intros []|auto]. Qed.

Lemma ends_solid_app (a b : str) : ends_solid b -> ends_solid (a ++ b).
Proof. unfold ends_solid. rewrite rev_app_distr. apply starts_solid_app. Qed.

Lemma edge_seq_holds (near far : edge) (P : str -> Prop) (a b ab : str) :
  (P a -> P ab) -> (a = [] -> P b -> P ab) -> (a = [] -> b = [] -> ab = []) ->
  edge_holds near P a -> edge_holds far P b ->
  edge_holds (edge_seq near far) P ab.
Proof.
  intros H1 H2 H3 Hn Hf. destruct near; simpl in *.
  - auto.
  - destruct Hn as [Ha|Ha].
    + destruct far; simpl in *; [auto | destruct Hf; auto | exact I].
    + destruct far; simpl; auto.
  - exact I.
Qed.

Lemma edge_join_holds (e1 e2 : edge) (P : str -> Prop) (m1 : str) :
  edge_holds e1 P m1 \/ edge_holds e2 P m1 ->
  edge_holds (edge_join e1 e2) P m1.
Proof. destruct e1, e2; simpl; tauto. Qed.

Lemma first_edge_sound (r : regex) :
  forall pw m1 n, matches r pw m1 n -> edge_holds (first_edge r) starts_solid m1.
Proof.
  induction r as [ |cs| |r1 IH1 r2 IH2|r1 IH1 r2 IH2|cs lo hi];
    intros pw m1 n H; simpl in H |- *.
  - auto.
  - destruct H as (x & -> & Hx). destruct (cs_nonspace cs) eqn:Hc; simpl; auto.
    apply (cs_nonspace_sound _ _ Hc Hx).
  - destruct H as (-> & _). auto.
  - destruct H as (a & b & -> & Ha & Hb).
    apply edge_seq_holds with (a := a) (b := b); eauto.
    + apply starts_solid_app.
    + intros ->. auto.
    + intros -> ->. reflexivity.
  - apply edge_join_holds. destruct H; eauto.
  - destruct H as (HF & Hlo & _). unfold edge_rep.
    destruct (cs_nonspace cs) eqn:Hc; simpl; auto.
    assert (Hs : m1 = [] \/ starts_solid m1).
    { destruct m1 as [|x m1]; auto. right. simpl.
      inversion HF; subst. eapply cs_nonspace_sound; eauto. }
    destruct lo; simpl; auto. destruct Hs as [->|Hs]; auto. simpl in Hlo. lia.
Qed.

Lemma last_edge_sound (r : regex) :
  forall pw m1 n, matches r pw m1 n -> edge_holds (last_edge r) ends_solid m1.
Proof.
  induction r as [ |cs| |r1 IH1 r2 IH2|r1 IH1 r2 IH2|cs lo hi];
    intros pw m1 n H; simpl in H |- *.
  - auto.
  - destruct H as (x & -> & Hx). destruct (cs_nonspace cs) eqn:Hc; simpl; auto.
    apply (cs_nonspace_sound _ _ Hc Hx).
  - destruct H as (-> & _). auto.
  - destruct H as (a & b & -> & Ha & Hb).
    apply edge_seq_holds with (a := b) (b := a); eauto.
    + apply ends_solid_app.
    + intros ->. rewrite app_nil_r. auto.
    + intros -> ->. reflexivity.
  - apply edge_join_holds. destruct H; eauto.
  - destruct H as (HF & Hlo & _). unfold edge_rep.
    destruct (cs_nonspace cs) eqn:Hc; simpl; auto.
    assert (Hs : m1 = [] \/ ends_solid m1).
    { unfold ends_solid. apply Forall_rev in HF.
      destruct (rev m1) as [|x m'] eqn:E.
      - left. apply (f_equal (@rev ascii)) in E. rewrite rev_involutive in E. exact E.
      - right. simpl. inversion HF; subst. eapply cs_nonspace_sound; eauto. }
    destruct lo; simpl; auto. destruct Hs as [->|Hs]; auto. simpl in Hlo. lia.
Qed.

Lemma solid_sound (r : regex) (pw : bool) (m1 n : str) :
  solid r = true -> matches r pw m1 n -> starts_solid m1 /\ ends_solid m1.
Proof.
  unfold solid. intros H Hm. apply andb_prop in H. destruct H as (H1 & H2).
  pose proof (first_edge_sound _ _ _ _ Hm) as F.
  pose proof (last_edge_sound _ _ _ _ Hm) as L.
  destruct (first_edge r); try discriminate.
  destruct (last_edge r); try discriminate. auto.
Qed.

(** What is to the right of a match matters only through its first
    character being a word character or not. *)
Lemma hw_app (b n n' : str) : hw n = hw n' -> hw (b ++ n) = hw (b ++ n').
Proof. destruct b; simpl; auto. Qed.

Lemma matches_ctx (r : regex) :
  forall pw m1 n n', hw n = hw n' -> matches r pw m1 n -> matches r pw m1 n'.
Proof.
  induction r as [ |cs| |r1 IH1 r2 IH2|r1 IH1 r2 IH2|cs lo hi];
    intros pw m1 n n' E H; simpl in H |- *; auto.
  - rewrite <- E. exact H.
  - destruct H as (a & b & -> & Ha & Hb). exists a, b.
    split; [reflexivity|]. split; [|eauto].
    apply (IH1 _ _ (b ++ n)); [apply hw_app; exact E | exact Ha].
  - destruct H; eauto.
Qed.

Lemma lstrip_app_solid (l m1 : str) :
  starts_solid m1 -> lstrip (l ++ m1) = lstrip l ++ m1.
Proof.
  intros H. induction l as [|c l IH]; simpl.
  - destruct m1 as [|x m1]; [contradiction|]. simpl in H |- *. rewrite H. reflexivity.
  - destruct (isspace c); auto.
Qed.

Lemma rstrip_app_solid (m1 n : str) :
  ends_solid m1 -> rstrip (m1 ++ n) = m1 ++ rstrip n.
Proof.
  intros H. unfold rstrip. rewrite rev_app_distr.
  rewrite lstrip_app_solid by exact H.
  rewrite rev_app_distr, rev_involutive. reflexivity.
Qed.

Lemma lstrip_decomp (s : str) :
  exists sp, s = sp ++ lstrip s /\ Forall (fun c => isspace c = true) sp.
Proof.
  induction s as [|c s (sp & E & F)]; simpl.
  - exists []. auto.
  - destruct (isspace c) eqn:Hc.
    + exists (c :: sp). simpl. rewrite <- E. auto.
    + exists []. auto.
Qed.

Lemma rstrip_decomp (s : str) :
  exists sp, s = rstrip s ++ sp /\ Forall (fun c => isspace c = true) sp.
Proof.
  destruct (lstrip_decomp (rev s)) as (sp & E & F).
  exists (rev sp). split; [|apply Forall_rev; exact F].
  unfold rstrip. rewrite <- rev_app_distr, <- E, rev_involutive. reflexivity.
Qed.

Lemma strip_decomp (s : str) :
  exists sp1 sp2, s = sp1 ++ strip s ++ sp2 /\
    Forall (fun c => isspace c = true) sp1 /\ Forall (fun c => isspace c = true) sp2.
Proof.
  destruct (lstrip_decomp s) as (sp1 & E1 & F1).
  destruct (rstrip_decomp (lstrip s)) as (sp2 & E2 & F2).
  exists sp1, sp2. unfold strip. rewrite <- E2, <- E1. auto.
Qed.

Lemma lw_spaces (sp : str) :
  Forall (fun c => isspace c = true) sp -> lw false sp = false.
Proof.
  induction 1 as [|c sp Hc F IH]; [reflexivity|].
  rewrite lw_cons, (space_not_word _ Hc). exact IH.
Qed.

Lemma hw_spaces (sp : str) :
  Forall (fun c => isspace c = true) sp -> hw sp = false.
Proof.
  destruct 1 as [|c sp Hc F]; [reflexivity|]. simpl. apply space_not_word. exact Hc.
Qed.

(** A match in the stripped text is a match in the text. *)
Lemma has_match_strip_back (r : regex) (s : str) :
  has_match r false (strip s) -> has_match r false s.
Proof.
  intros (l & m1 & n & E & H).
  destruct (strip_decomp s) as (sp1 & sp2 & Es & F1 & F2).
  exists (sp1 ++ l), m1, (n ++ sp2). split.
  - rewrite Es at 1. rewrite E. repeat rewrite <- app_assoc. reflexivity.
  - rewrite lw_app, (lw_spaces F1).
    apply (matches_ctx r _ _ n); [|exact H].
    destruct n; simpl; [|reflexivity]. symmetry. apply hw_spaces. exact F2.
Qed.

Lemma search_strip_back (r : regex) (s : str) :
  search r s = false -> search r (strip s) = false.
Proof.
  intros H. destruct (search r (strip s)) eqn:E; [|reflexivity].
  apply search_iff in E. apply has_match_strip_back in E.
  apply search_iff in E. congruence.
Qed.

Lemma lw_lstrip (l : str) : lw false (lstrip l) = lw false l.
Proof.
  induction l as [|c l IH]; [reflexivity|].
  change (lstrip (c :: l)) with (if isspace c then lstrip l else c :: l).
  destruct (isspace c) eqn:Hc; [|reflexivity].
  rewrite lw_cons, (space_not_word _ Hc). exact IH.
Qed.

Lemma hw_rstrip (n : str) : hw (rstrip n) = hw n.
Proof.
  destruct n as [|x n]; [reflexivity|].
  destruct (isspace x) eqn:Hx.
  - destruct (rstrip_decomp (x :: n)) as (sp & E & _).
    simpl. rewrite (space_not_word _ Hx).
    destruct (rstrip (x :: n)) as [|y t]; [reflexivity|].
    simpl in E. injection E as <- _. simpl. apply space_not_word. exact Hx.
  - change (x :: n) with ([x] ++ n). rewrite rstrip_app_solid; [reflexivity|].
    exact Hx.
Qed.

(** A match that starts and ends with a non-space character survives
    stripping. *)
Lemma has_match_strip (r : regex) (s : str) :
  solid r = true -> has_match r false s -> has_match r false (strip s).
Proof.
  intros Hs (l & m1 & n & -> & H).
  destruct (solid_sound _ _ _ _ Hs H) as (Hf & Hl).
  exists (lstrip l), m1, (rstrip n). split.
  - unfold strip. rewrite lstrip_app_solid by (apply starts_solid_app; exact Hf).
    rewrite app_assoc. rewrite rstrip_app_solid by (apply ends_solid_app; exact Hl).
    rewrite <- app_assoc. reflexivity.
  - rewrite lw_lstrip. apply (matches_ctx r _ _ n); [|exact H].
    symmetry. apply hw_rstrip.
Qed.

Lemma search_strip (r : regex) (s : str) :
  solid r = true -> search r s = true -> search r (strip s) = true.
Proof.
  intros Hs H. apply search_iff. apply has_match_strip; [exact Hs|].
  apply search_iff. exact H.
Qed.

Lemma _matches_any_strip (patterns : list regex) (s : str) :
  forallb solid patterns = true ->
  _matches_any patterns s = true -> _matches_any patterns (strip s) = true.
Proof.
  unfold _matches_any. rewrite forallb_forall.
  intros Hs H. apply existsb_exists in H. destruct H as (p & Hin & Hp).
  apply existsb_exists. exists p. split; [exact Hin|].
  apply search_strip; auto.
Qed.

(* ================================================================== *)
(** ** Illegal requests are refused first *)
(* ================================================================== *)

Lemma route_illegal_refuses (user_text : str) :
  _matches_any _ILLEGAL_PATTERNS user_text = true ->
  route user_text =
    {| action := REFUSE; reason := py "illegal_financial"; rewrite := None |}.
Proof.
  intros H. apply _matches_any_strip in H; [|vm_compute; reflexivity].
  unfold route. destruct (strip user_text) as [|c t] eqn:E.
  - vm_compute in H. discriminate.
  - simpl is_empty. cbv iota. rewrite H. reflexivity.
Qed.

(** C2: a text that matches an illegal-intent pattern and an advice-seeking
    pattern is refused, with reason [illegal_financial] and no rewrite. *)
Theorem route_illegal_before_advice (user_text : str) :
  _matches_any _ILLEGAL_PATTERNS user_text = true ->
  _matches_any _ADVICE_PATTERNS user_text = true ->
  route user_text =
    {| action := REFUSE; reason := py "illegal_financial"; rewrite := None |}.
Proof.
  intros Hi _. apply route_illegal_refuses. exact Hi.
Qed.

Lemma route_illegal_before_advice_witness :
  _matches_any _ILLEGAL_PATTERNS (py " Should I buy stock through insider trading? ") = true /\
  _matches_any _ADVICE_PATTERNS (py " Should I buy stock through insider trading? ") = true /\
  route (py " Should I buy stock through insider trading? ") =
    {| action := REFUSE; reason := py "illegal_financial"; rewrite := None |}.
Proof.
  split; [vm_compute; reflexivity|].
  split; [vm_compute; reflexivity|].
  apply (@route_illegal_before_advice (py " Should I buy stock through insider trading? "));
    vm_compute; reflexivity.
Defined.

(* ================================================================== *)
(** ** When each stage of validation succeeds *)
(* ================================================================== *)

Lemma _require_key_ok (d : dict) (card_id key : str) (v : raw_value) :
  _require_key d card_id key = Ok v <-> get d key = Some v.
Proof.
  unfold _require_key. destruct (get d key); split; intros H;
    try discriminate; congruence.
Qed.

Lemma check_str_ok (card_id field : str) (A : Type) (item : raw_value)
      (k : str -> result A) (a : A) :
  match item with
  | VStr s =>
      if is_empty (strip s) then _raise card_id field (py "must be a non-empty string")
      else if search _PLACEHOLDER_RE s then
        _raise card_id field (py "contains placeholder text like <...>")
      else k (strip s)
  | _ => _raise card_id field (py "must be a non-empty string")
  end = Ok a <->
  exists out, clean_str item out /\ k out = Ok a.
Proof.
  unfold clean_str. split.
  - intros H. destruct item as [ | | |s| | ]; try discriminate.
    destruct (is_empty (strip s)) eqn:He; [discriminate|].
    destruct (search _PLACEHOLDER_RE s) eqn:Hp; [discriminate|].
    exists (strip s). split; [|exact H]. exists s. auto.
  - intros (out & (s & -> & He & Hp & ->) & H). rewrite He, Hp. exact H.
Qed.

Lemma _require_str_ok (d : dict) (card_id key : str) (v : str) :
  _require_str d card_id key = Ok v <->
  exists item, get d key = Some item /\ clean_str item v.
Proof.
  unfold _require_str. split.
  - intros H. inv_bind H. apply _require_key_ok in E. exists a. split; [exact E|].
    apply (check_str_ok card_id key a (fun x => Ok x)) in H.
    destruct H as (out & Hc & Ho). injection Ho as <-. exact Hc.
  - intros (item & Hg & Hc). apply _require_key_ok with (card_id := card_id) in Hg.
    rewrite Hg. cbn [bind].
    apply (check_str_ok card_id key item (fun x => Ok x)). eauto.
Qed.

Lemma list_of_str_loop_ok (card_id key : str) (items : list raw_value) :
  forall i out,
  list_of_str_loop card_id key i items = Ok out <-> Forall2 clean_str items out.
Proof.
  induction items as [|item items IH]; intros i out; simpl.
  - split.
    + intros H. injection H as <-. constructor.
    + intros H. inversion H. reflexivity.
  - rewrite (check_str_ok card_id (indexed key i) item
               (fun s => out <- list_of_str_loop card_id key (S i) items ;; Ok (s :: out))).
    split.
    + intros (o & Hc & H). inv_bind H. injection H as <-.
      constructor; [exact Hc|]. apply (IH (S i)). exact E.
    + intros H. inversion H as [|? o ? os Hc HF]; subst.
      exists o. split; [exact Hc|]. apply (IH (S i)) in HF. rewrite HF. reflexivity.
Qed.

Lemma _require_list_of_str_ok (d : dict) (card_id key : str) (min_len : nat)
      (out : list str) :
  _require_list_of_str d card_id key min_len = Ok out <->
  exists items, get d key = Some (VList items) /\ Forall2 clean_str items out /\
                min_len <= List.length out.
Proof.
  unfold _require_list_of_str. split.
  - intros H. inv_bind H. apply _require_key_ok in E.
    destruct a as [ | | | |items| ]; try discriminate.
    inv_bind H. apply list_of_str_loop_ok in E0.
    destruct (List.length a <? min_len) eqn:Hl; [discriminate|].
    injection H as <-. apply Nat.ltb_ge in Hl. eauto.
  - intros (items & Hg & HF & Hl).
    apply _require_key_ok with (card_id := card_id) in Hg. rewrite Hg. cbn [bind].
    apply (list_of_str_loop_ok card_id key items 0) in HF. rewrite HF. cbn [bind].
    apply Nat.ltb_ge in Hl. rewrite Hl. reflexivity.
Qed.

Lemma sources_loop_ok (card_id : str) (items : list raw_value) :
  forall i out,
  sources_loop card_id i items = Ok out <-> Forall2 clean_str items out.
Proof.
  induction items as [|item items IH]; intros i out; simpl.
  - split.
    + intros H. injection H as <-. constructor.
    + intros H. inversion H. reflexivity.
  - rewrite (check_str_ok card_id (indexed (py "metadata.sources") i) item
               (fun s => out <- sources_loop card_id (S i) items ;; Ok (s :: out))).
    split.
    + intros (o & Hc & H). inv_bind H. injection H as <-.
      constructor; [exact Hc|]. apply (IH (S i)). exact E.
    + intros H. inversion H as [|? o ? os Hc HF]; subst.
      exists o. split; [exact Hc|]. apply (IH (S i)) in HF. rewrite HF. reflexivity.
Qed.

Lemma _to_enum_ok (A : Type) (E : PyEnum A) (card_id field v : str) (e : A) :
  _to_enum card_id field v = Ok e <-> enum_call v = Some e.
Proof.
  unfold _to_enum. destruct (enum_call v); split; intros H;
    try discriminate; congruence.
Qed.

Lemma _require_enum_ok (A : Type) (E : PyEnum A) (d : dict) (card_id key : str) (e : A) :
  _require_enum d card_id key = Ok e <->
  exists s, _require_str d card_id key = Ok s /\ enum_call s = Some e.
Proof.
  unfold _require_enum. split.
  - intros H. inv_bind H. apply _to_enum_ok in H. eauto.
  - intros (s & Hs & He). rewrite Hs. simpl. apply _to_enum_ok. exact He.
Qed.

Lemma examples_loop_ok (card_id : str) (items : list raw_value) :
  forall i out,
  examples_loop card_id i items = Ok out <-> Forall2 clean_example items out.
Proof.
  induction items as [|ex items IH]; intros i out; cbn -[nonblank_str search strip get py _PLACEHOLDER_RE].
  - split.
    + intros H. injection H as <-. constructor.
    + intros H. inversion H. reflexivity.
  - split.
    + intros H. destruct ex as [ | | | | |exd]; try discriminate.
      destruct (nonblank_str (get exd (py "scenario"))) as [sc|] eqn:Hsc; [|discriminate].
      destruct (nonblank_str (get exd (py "explanation"))) as [expl|] eqn:Hex; [|discriminate].
      destruct (search _PLACEHOLDER_RE sc) eqn:P1; [discriminate|].
      destruct (search _PLACEHOLDER_RE expl) eqn:P2; [discriminate|].
      inv_bind H. injection H as <-.
      constructor; [|apply (IH (S i)); exact E].
      exists exd, sc, expl. repeat split; auto.
    + intros H. inversion H as [|? e ? es Hc HF]; subst.
      destruct Hc as (exd & sc & expl & -> & Hsc & Hex & P1 & P2 & ->).
      rewrite Hsc, Hex, P1, P2. apply (IH (S i)) in HF. rewrite HF. reflexivity.
Qed.

Lemma _require_examples_ok (d : dict) (card_id : str) (out : list ConceptExample) :
  _require_examples d card_id = Ok out <->
  exists items, get d (py "examples") = Some (VList items) /\
                Forall2 clean_example items out.
Proof.
  unfold _require_examples. split.
  - intros H. inv_bind H. apply _require_key_ok in E.
    destruct a as [ | | | |items| ]; try discriminate.
    apply examples_loop_ok in H. eauto.
  - intros (items & Hg & HF).
    apply _require_key_ok with (card_id := card_id) in Hg. rewrite Hg. cbn [bind].
    apply examples_loop_ok. exact HF.
Qed.

Lemma intents_loop_ok (card_id field : str) (l : list str) :
  forall i out,
  intents_loop card_id field i l = Ok out <-> Forall2 clean_intent l out.
Proof.
  unfold clean_intent.
  induction l as [|s l IH]; intros i out; simpl.
  - split.
    + intros H. injection H as <-. constructor.
    + intros H. inversion H. reflexivity.
  - split.
    + intros H. destruct (is_empty (strip s)) eqn:He; [discriminate|].
      destruct (search _PLACEHOLDER_RE (strip s)) eqn:Hp; [discriminate|].
      inv_bind H. inv_bind H. injection H as <-.
      apply _to_enum_ok in E. constructor; [auto|]. apply (IH (S i)). exact E0.
    + intros H. inversion H as [|? e ? es (He & Hp & Hd) HF]; subst.
      rewrite He, Hp.
      apply (_to_enum_ok _ card_id (indexed field i)) in Hd. rewrite Hd. simpl.
      apply (IH (S i)) in HF. rewrite HF. reflexivity.
Qed.

Lemma _require_safety_ok_iff (d : dict) (card_id : str) (al fo : list Intent) :
  _require_safety d card_id = Ok (al, fo) <->
  exists sd araw fraw,
    get d (py "safety") = Some (VDict sd) /\
    list_of_strs (get sd (py "allowed_intents")) = Some araw /\
    list_of_strs (get sd (py "forbidden_intents")) = Some fraw /\
    Forall2 clean_intent araw al /\ Forall2 clean_intent fraw fo /\
    missing_of fo = [] /\ overlap_of al fo = [].
Proof.
  unfold _require_safety. split.
  - intros H. inv_bind H. apply _require_key_ok in E.
    destruct a as [ | | | | |sd]; try discriminate.
    destruct (list_of_strs (get sd (py "allowed_intents"))) as [araw|] eqn:Ha;
      [|discriminate].
    destruct (list_of_strs (get sd (py "forbidden_intents"))) as [fraw|] eqn:Hf;
      [|discriminate].
    inv_bind H. inv_bind H.
    destruct (missing_of a0) eqn:Hm; [|discriminate].
    destruct (overlap_of a a0) eqn:Ho; [|discriminate].
    injection H as <- <-.
    apply intents_loop_ok in E0, E1.
    exists sd, araw, fraw. auto 10.
  - intros (sd & araw & fraw & Hg & Ha & Hf & Fa & Ff & Hm & Ho).
    apply _require_key_ok with (card_id := card_id) in Hg. rewrite Hg. cbn [bind].
    rewrite Ha, Hf.
    apply (intents_loop_ok card_id (py "safety.allowed_intents") araw 0) in Fa.
    apply (intents_loop_ok card_id (py "safety.forbidden_intents") fraw 0) in Ff.
    rewrite Fa. cbn [bind]. rewrite Ff. cbn [bind]. rewrite Hm, Ho. reflexivity.
Qed.

Lemma _require_metadata_ok (d : dict) (card_id : str) (so : list str) (lu : str) :
  _require_metadata d card_id = Ok (so, lu) <->
  exists md srcs raw_lu,
    get d (py "metadata") = Some (VDict md) /\
    get md (py "sources") = Some (VList srcs) /\ srcs <> [] /\
    Forall2 clean_str srcs so /\
    nonblank_str (get md (py "last_updated")) = Some raw_lu /\
    lu = strip raw_lu /\
    search _PLACEHOLDER_RE (strip raw_lu) = false /\
    fullmatch DATE_RE (strip raw_lu) = true.
Proof.
  unfold _require_metadata. split.
  - intros H. inv_bind H. apply _require_key_ok in E.
    destruct a as [ | | | | |md]; try discriminate.
    destruct (get md (py "sources")) as [[ | | | |[|x srcs]| ]|] eqn:Hs; try discriminate.
    inv_bind H. apply sources_loop_ok in E0.
    destruct (nonblank_str (get md (py "last_updated"))) as [raw_lu|] eqn:Hl;
      [|discriminate].
    destruct (search _PLACEHOLDER_RE (strip raw_lu)) eqn:Hp; [discriminate|].
    destruct (fullmatch DATE_RE (strip raw_lu)) eqn:Hd; [|discriminate].
    simpl in H. injection H as <- <-.
    exists md, (x :: srcs), raw_lu. repeat split; auto. discriminate.
  - intros (md & srcs & raw_lu & Hg & Hs & Hne & HF & Hl & -> & Hp & Hd).
    apply _require_key_ok with (card_id := card_id) in Hg. rewrite Hg. cbn [bind].
    rewrite Hs. destruct srcs as [|x srcs]; [contradiction|].
    apply (sources_loop_ok card_id (x :: srcs) 0) in HF. rewrite HF. cbn [bind].
    rewrite Hl, Hp, Hd. reflexivity.
Qed.

Lemma second_person_loop_ok (card_id : str) (items : list raw_value) :
  forall i, second_person_loop card_id i items = Ok tt <-> no_second_person items.
Proof.
  unfold no_second_person.
  induction items as [|item items IH]; intros i; simpl.
  - split; auto.
  - split.
    + intros H. constructor.
      * intros s ->. destruct (search _SECOND_PERSON_RE s); [discriminate|reflexivity].
      * apply (IH (S i)).
        destruct item as [ | | |s| | ]; auto.
        destruct (search _SECOND_PERSON_RE s); [discriminate|auto].
    + intros H. inversion H as [|? ? Hi HF]; subst.
      apply (IH (S i)) in HF.
      destruct item as [ | | |s| | ]; auto.
      rewrite (Hi s eq_refl). exact HF.
Qed.

Lemma placeholder_sweep_ok (card_id : str) (d : dict) :
  placeholder_sweep card_id d = Ok tt <-> swept d.
Proof.
  unfold swept. induction d as [|[key v] d IH]; simpl.
  - split; auto.
  - split.
    + intros H. constructor; simpl.
      * intros s ->. destruct (search _PLACEHOLDER_RE s); [discriminate|reflexivity].
      * apply IH. destruct v as [ | | |s| | ]; auto.
        destruct (search _PLACEHOLDER_RE s); [discriminate|auto].
    + intros H. inversion H as [|? ? Hi HF]; subst. simpl in Hi.
      apply IH in HF. destruct v as [ | | |s| | ]; auto.
      rewrite (Hi s eq_refl). exact HF.
Qed.

Lemma _education_only_heuristics_ok (card_id : str) (d : dict) :
  _education_only_heuristics card_id d = Ok tt <->
  (forall items, get d (py "summary") = Some (VList items) -> no_second_person items) /\
  (forall items, get d (py "non_goals") = Some (VList items) -> blocks_advice items = true) /\
  swept d.
Proof.
  unfold _education_only_heuristics, blocks_advice, names_advice_term. split.
  - intros H. inv_bind H. inv_bind H. apply placeholder_sweep_ok in H.
    split; [|split; [|exact H]].
    + intros items Hg. rewrite Hg in E. destruct a.
      apply second_person_loop_ok in E. exact E.
    + intros items Hg. rewrite Hg in E0.
      destruct (existsb _ advice_terms); [reflexivity|discriminate].
  - intros (H1 & H2 & H3).
    assert (E1 : match get d (py "summary") with
                 | Some (VList summary_list) => second_person_loop card_id 0 summary_list
                 | _ => Ok tt
                 end = Ok tt).
    { destruct (get d (py "summary")) as [[ | | | |items| ]|]; auto.
      apply second_person_loop_ok. apply H1. reflexivity. }
    rewrite E1. cbn [bind].
    destruct (get d (py "non_goals")) as [[ | | | |items| ]|]; cbn [bind];
      try (apply placeholder_sweep_ok; exact H3).
    rewrite (H2 items eq_refl). cbn [negb bind]. apply placeholder_sweep_ok. exact H3.
Qed.

(* ================================================================== *)
(** ** Stored strings are stripped *)
(* ================================================================== *)

Lemma lstrip_head (s : str) : lstrip s = [] \/ starts_solid (lstrip s).
Proof.
  induction s as [|c s IH]; simpl; auto.
  destruct (isspace c) eqn:Hc; auto.
Qed.

Lemma rstrip_last (s : str) : rstrip s = [] \/ ends_solid (rstrip s).
Proof.
  unfold rstrip, ends_solid. rewrite rev_involutive.
  destruct (lstrip_head (rev s)) as [E|H]; [left; rewrite E; reflexivity | auto].
Qed.

Lemma strip_trimmed (s : str) : trimmed (strip s).
Proof.
  unfold trimmed, strip.
  destruct (rstrip_last (lstrip s)) as [E|Hl]; [auto|]. right. split; [|exact Hl].
  destruct (lstrip_head s) as [E|Hf].
  - rewrite E in Hl. contradiction.
  - destruct (lstrip s) as [|x t]; [contradiction|].
    change (x :: t) with ([x] ++ t). rewrite rstrip_app_solid; exact Hf.
Qed.

Lemma trimmed_strip_id (s : str) : trimmed s -> strip s = s.
Proof.
  intros [->|(Hf & Hl)]; [reflexivity|]. unfold strip.
  assert (E : lstrip s = s).
  { destruct s as [|x t]; [reflexivity|]. simpl in Hf |- *. rewrite Hf. reflexivity. }
  rewrite E. rewrite <- (app_nil_r s) at 1. rewrite rstrip_app_solid by exact Hl.
  apply app_nil_r.
Qed.

Lemma strip_idempotent (s : str) : strip (strip s) = strip s.
Proof. apply trimmed_strip_id, strip_trimmed. Qed.

Lemma clean_str_trimmed (item : raw_value) (out : str) :
  clean_str item out -> trimmed out.
Proof. intros (s & _ & _ & _ & ->). apply strip_trimmed. Qed.

Lemma clean_strs_trimmed (items : list raw_value) (out : list str) :
  Forall2 clean_str items out -> Forall trimmed out.
Proof.
  induction 1 as [|item o items out Hc HF IH]; constructor; auto.
  exact (clean_str_trimmed Hc).
Qed.

Lemma clean_examples_trimmed (items : list raw_value) (out : list ConceptExample) :
  Forall2 clean_example items out ->
  Forall (fun e => trimmed (scenario e) /\ trimmed (explanation e)) out.
Proof.
  induction 1 as [|ex e items out Hc HF IH]; constructor; auto.
  destruct Hc as (exd & sc & expl & _ & _ & _ & _ & _ & ->). simpl.
  split; apply strip_trimmed.
Qed.

(** C10: every string stored in a validated card has no white space at
    either end: the id, the title, the date, every element of the five
    string lists, and both texts of every example. *)
Theorem validated_card_strings_trimmed (raw : raw_value) (card : ConceptCard) :
  validate_conceptcard raw = Ok card ->
  trimmed (id card) /\ trimmed (title card) /\ trimmed (last_updated card) /\
  Forall trimmed (summary card) /\
  Forall trimmed (core_mechanics card) /\
  Forall trimmed (misconceptions card) /\
  Forall trimmed (non_goals card) /\
  Forall trimmed (sources card) /\
  Forall (fun e => trimmed (scenario e) /\ trimmed (explanation e)) (examples card).
Proof.
  intros H. apply validate_conceptcard_ok_iff in H.
  destruct H as (d & -> & H). cbv zeta in H.
  destruct H as (Hid & Hti & _ & _ & Hsu & Hco & Hmi & Hno & Hex & _ & Hme & _).
  apply _require_str_ok in Hid, Hti.
  apply _require_list_of_str_ok in Hsu, Hco, Hmi, Hno.
  apply _require_examples_ok in Hex. apply _require_metadata_ok in Hme.
  destruct Hid as (i1 & _ & Hid), Hti as (i2 & _ & Hti).
  destruct Hsu as (l1 & _ & Hsu & _), Hco as (l2 & _ & Hco & _).
  destruct Hmi as (l3 & _ & Hmi & _), Hno as (l4 & _ & Hno & _).
  destruct Hex as (l5 & _ & Hex).
  destruct Hme as (md & srcs & raw_lu & _ & _ & _ & Hso & _ & Hlu & _).
  repeat split;
    eauto using clean_str_trimmed, clean_strs_trimmed, clean_examples_trimmed.
  rewrite Hlu. apply strip_trimmed.
Qed.

Lemma validated_card_strings_trimmed_witness :
  validate_conceptcard Samples.good_raw = Ok Samples.good_card /\
  (trimmed (id Samples.good_card) /\ trimmed (title Samples.good_card) /\
   trimmed (last_updated Samples.good_card) /\
   Forall trimmed (summary Samples.good_card) /\
   Forall trimmed (core_mechanics Samples.good_card) /\
   Forall trimmed (misconceptions Samples.good_card) /\
   Forall trimmed (non_goals Samples.good_card) /\
   Forall trimmed (sources Samples.good_card) /\
   Forall (fun e => trimmed (scenario e) /\ trimmed (explanation e))
          (examples Samples.good_card)).
Proof.
  split; [vm_compute; reflexivity|].
  apply (@validated_card_strings_trimmed Samples.good_raw Samples.good_card).
  vm_compute; reflexivity.
Defined.

(* ================================================================== *)
(** ** Placeholder markup *)
(* ================================================================== *)

(** C4, as stated, fails: a string nested under a key the schema does not
    name is never looked at.  The record validates, although
    [metadata.editor_note] is ["<todo>"]. *)
Lemma nested_placeholder_survives :
  validate_conceptcard Samples.noted_raw = Ok Samples.good_card /\
  any_placeholder Samples.noted_raw = true.
Proof. split; vm_compute; reflexivity. Qed.

Lemma placeholder_solid : solid _PLACEHOLDER_RE = true.
Proof. vm_compute. reflexivity. Qed.

Lemma no_placeholder_unstrip (s : str) :
  no_placeholder (strip s) -> no_placeholder s.
Proof.
  unfold no_placeholder. intros H.
  destruct (search _PLACEHOLDER_RE s) eqn:E; [|reflexivity].
  apply (search_strip _ _ placeholder_solid) in E. congruence.
Qed.

Lemma no_placeholder_strip (s : str) :
  no_placeholder s -> no_placeholder (strip s).
Proof. apply search_strip_back. Qed.

Lemma clean_strs_no_placeholder (items : list raw_value) (out : list str) (s : str) :
  Forall2 clean_str items out -> In (VStr s) items -> no_placeholder s.
Proof.
  induction 1 as [|item o items out Hc HF IH]; simpl; [contradiction|].
  intros [->|Hin]; [|auto].
  destruct Hc as (s' & E & _ & Hp & _). injection E as <-. exact Hp.
Qed.

Lemma all_str_In (l : list raw_value) (out : list str) (s : str) :
  all_str l = Some out -> In (VStr s) l -> In s out.
Proof.
  revert out. induction l as [|v l IH]; intros out H Hin; [contradiction|].
  simpl in H. destruct v as [ | | |s'| | ]; try discriminate.
  destruct (all_str l) as [o|]; [|discriminate]. injection H as <-.
  destruct Hin as [E|Hin]; [injection E as ->; left; reflexivity|].
  right. apply IH; auto.
Qed.

Lemma clean_intents_no_placeholder (l : list str) (out : list Intent) (s : str) :
  Forall2 clean_intent l out -> In s l -> no_placeholder s.
Proof.
  induction 1 as [|x e l out Hc HF IH]; simpl; [contradiction|].
  intros [->|Hin]; [|auto].
  destruct Hc as (_ & Hp & _). apply no_placeholder_unstrip. exact Hp.
Qed.

Lemma nonblank_str_get (d : dict) (key sc s : str) :
  nonblank_str (get d key) = Some sc -> get d key = Some (VStr s) -> sc = s.
Proof.
  intros H G. rewrite G in H. simpl in H.
  destruct (is_empty (strip s)); congruence.
Qed.

Lemma swept_In (d : dict) (key s : str) :
  swept d -> In (key, VStr s) d -> no_placeholder s.
Proof.
  unfold swept. rewrite Forall_forall. intros H Hin.
  apply (H (key, VStr s) Hin). reflexivity.
Qed.

Lemma list_field_clean_of (d : dict) (key : str) (items : list raw_value)
      (out : list str) :
  get d key = Some (VList items) -> Forall2 clean_str items out ->
  list_field_clean d key.
Proof.
  intros G HF items' s G' Hin. rewrite G in G'. injection G' as <-.
  eapply clean_strs_no_placeholder; eauto.
Qed.

Lemma intents_field_clean (sd : dict) (key : str) (raw_l : list str)
      (out : list Intent) :
  list_of_strs (get sd key) = Some raw_l -> Forall2 clean_intent raw_l out ->
  list_field_clean sd key.
Proof.
  intros G HF items s G' Hin. rewrite G' in G. simpl in G.
  eapply clean_intents_no_placeholder; [exact HF|].
  eapply all_str_In; eauto.
Qed.

(** C4, amended: in a record that validates, no top-level string field and
    no string at a position the schema names holds placeholder markup. *)
Theorem validated_record_checked_strings_clean (raw : raw_value) (card : ConceptCard) :
  validate_conceptcard raw = Ok card ->
  exists d, raw = VDict d /\ checked_strings_clean d.
Proof.
  intros H. apply validate_conceptcard_ok_iff in H.
  destruct H as (d & -> & H). exists d. split; [reflexivity|]. cbv zeta in H.
  destruct H as (_ & _ & _ & _ & Hsu & Hco & Hmi & Hno & Hex & Hsa & Hme & Hh & _).
  apply _require_list_of_str_ok in Hsu, Hco, Hmi, Hno.
  apply _require_examples_ok in Hex. apply _require_safety_ok_iff in Hsa.
  apply _require_metadata_ok in Hme. apply _education_only_heuristics_ok in Hh.
  destruct Hsu as (l1 & G1 & F1 & _), Hco as (l2 & G2 & F2 & _).
  destruct Hmi as (l3 & G3 & F3 & _), Hno as (l4 & G4 & F4 & _).
  destruct Hex as (exs & Gex & Fex).
  destruct Hsa as (sd & araw & fraw & Gsd & Ga & Gf & Fa & Ff & _).
  destruct Hme as (md & srcs & raw_lu & Gmd & Gs & _ & Fs & Glu & _ & Plu & _).
  destruct Hh as (_ & _ & Hsw).
  unfold checked_strings_clean.
  split; [intros key s; apply swept_In; exact Hsw|].
  split; [eapply list_field_clean_of; eauto|].
  split; [eapply list_field_clean_of; eauto|].
  split; [eapply list_field_clean_of; eauto|].
  split; [eapply list_field_clean_of; eauto|].
  split; [|split].
  - intros exs' exd key s G Hin Hk Gk. rewrite Gex in G. injection G as <-.
    clear - Fex Hin Hk Gk.
    induction Fex as [|ex e exs out Hc HF IH]; [contradiction|].
    destruct Hin as [->|Hin]; [|auto].
    destruct Hc as (exd' & sc & expl & E & Hsc & Hexp & P1 & P2 & _).
    injection E as <-.
    destruct Hk as [->| ->].
    + rewrite <- (nonblank_str_get _ _ Hsc Gk). exact P1.
    + rewrite <- (nonblank_str_get _ _ Hexp Gk). exact P2.
  - intros sd' G. rewrite Gsd in G. injection G as <-.
    split; eapply intents_field_clean; eauto.
  - intros md' G. rewrite Gmd in G. injection G as <-.
    split; [eapply list_field_clean_of; eauto|].
    intros s G. apply no_placeholder_unstrip.
    rewrite <- (nonblank_str_get _ _ Glu G). exact Plu.
Qed.

Lemma validated_record_checked_strings_clean_witness :
  validate_conceptcard Samples.noted_raw = Ok Samples.good_card /\
  exists d, Samples.noted_raw = VDict d /\ checked_strings_clean d.
Proof.
  split; [vm_compute; reflexivity|].
  apply (@validated_record_checked_strings_clean Samples.noted_raw Samples.good_card).
  vm_compute; reflexivity.
Defined.

(* ================================================================== *)
(** ** Substrings *)
(* ================================================================== *)

Lemma starts_with_iff (n h : str) :
  starts_with n h = true <-> exists post, h = n ++ post.
Proof.
  revert h. induction n as [|a n IH]; intros h; simpl.
  - split; eauto.
  - destruct h as [|b h].
    + split; [discriminate|]. intros (post & E). discriminate.
    + rewrite andb_true_iff, IH, Ascii.eqb_eq. split.
      * intros (-> & post & ->). eauto.
      * intros (post & E). injection E as -> ->. eauto.
Qed.

Lemma contains_iff (n h : str) :
  contains n h = true <-> exists pre post, h = pre ++ n ++ post.
Proof.
  induction h as [|b h IH]; simpl.
  - rewrite orb_false_r, starts_with_iff. split.
    + intros (post & E). exists [], post. exact E.
    + intros (pre & post & E). destruct pre; [eauto|discriminate].
  - rewrite orb_true_iff, starts_with_iff, IH. split.
    + intros [(post & E)|(pre & post & E)].
      * exists [], post. exact E.
      * exists (b :: pre), post. rewrite E. reflexivity.
    + intros (pre & post & E). destruct pre as [|c pre].
      * left. eauto.
      * right. injection E as _ E. eauto.
Qed.

Lemma contains_app_l (n a b : str) : contains n a = true -> contains n (a ++ b) = true.
Proof.
  rewrite !contains_iff. intros (pre & post & ->).
  exists pre, (post ++ b). repeat rewrite <- app_assoc. reflexivity.
Qed.

Lemma contains_app_r (n a b : str) : contains n b = true -> contains n (a ++ b) = true.
Proof.
  rewrite !contains_iff. intros (pre & post & ->).
  exists (a ++ pre), post. repeat rewrite <- app_assoc. reflexivity.
Qed.

(** An occurrence of [n] does not run across a character that is not in
    [n]. *)
Lemma contains_split (n a b : str) (c : ascii) :
  ~ In c n -> contains n (a ++ c :: b) = true ->
  contains n a = true \/ contains n b = true.
Proof.
  intros Hc. rewrite !contains_iff. intros (pre & post & E).
  apply app_eq_app in E. destruct E as (l & [(-> & E)|(-> & E)]).
  - apply app_eq_app in E. destruct E as (l2 & [(-> & E)|(-> & E)]).
    + destruct l2 as [|c' l2]; simpl in E.
      * rewrite app_nil_r. left. exists pre, []. rewrite app_nil_r. reflexivity.
      * injection E as <- _. exfalso. apply Hc. apply in_or_app. right. left. reflexivity.
    + left. exists pre, l2. reflexivity.
  - destruct l as [|c' l]; simpl in E.
    + destruct n as [|x n]; simpl in E.
      * left. exists a, []. rewrite !app_nil_r. reflexivity.
      * injection E as <- _. exfalso. apply Hc. left. reflexivity.
    + injection E as <- ->. right. eauto.
Qed.

Lemma contains_nil_false (n : str) : n <> [] -> contains n [] = false.
Proof. destruct n; [contradiction|reflexivity]. Qed.

Lemma contains_drop_prefix (n a b : str) :
  n <> [] -> Forall (fun c => ~ In c n) a ->
  contains n (a ++ b) = true -> contains n b = true.
Proof.
  intros Hn. induction 1 as [|c a Hc F IH]; intros H; [exact H|].
  change ((c :: a) ++ b) with ([] ++ c :: (a ++ b)) in H.
  apply contains_split in H; [|exact Hc].
  destruct H as [H|H]; [|auto].
  rewrite contains_nil_false in H by exact Hn. discriminate.
Qed.

Lemma contains_drop_suffix (n a b : str) :
  n <> [] -> Forall (fun c => ~ In c n) a ->
  contains n (b ++ a) = true -> contains n b = true.
Proof.
  intros Hn F. revert b. induction F as [|c a Hc F IH]; intros b H.
  - rewrite app_nil_r in H. exact H.
  - apply contains_split in H; [|exact Hc]. destruct H as [H|H]; [exact H|].
    rewrite <- (app_nil_l a) in H. apply IH in H.
    rewrite contains_nil_false in H by exact Hn. discriminate.
Qed.

Lemma contains_join (n sep : str) (items : list str) :
  (exists x, In x items /\ contains n x = true) ->
  contains n (join sep items) = true.
Proof.
  intros (x & Hin & Hx). induction items as [|y items IH]; [contradiction|].
  destruct items as [|z items].
  - destruct Hin as [->|[]]. exact Hx.
  - change (join sep (y :: z :: items)) with (y ++ sep ++ join sep (z :: items)).
    destruct Hin as [->|Hin].
    + apply contains_app_l. exact Hx.
    + apply contains_app_r, contains_app_r. apply IH. exact Hin.
Qed.

Lemma contains_join_inv (n : str) (c : ascii) (items : list str) :
  n <> [] -> ~ In c n -> contains n (join [c] items) = true ->
  exists x, In x items /\ contains n x = true.
Proof.
  intros Hn Hc. induction items as [|y items IH]; intros H.
  - change (join [c] []) with (@nil ascii) in H.
    rewrite contains_nil_false in H by exact Hn. discriminate.
  - destruct items as [|z items].
    + exists y. split; [left; reflexivity | exact H].
    + change (join [c] (y :: z :: items)) with (y ++ c :: join [c] (z :: items)) in H.
      apply contains_split in H; [|exact Hc]. destruct H as [H|H].
      * exists y. split; [left; reflexivity | exact H].
      * destruct (IH H) as (x & Hin & Hx). exists x. split; [right; exact Hin|exact Hx].
Qed.

Lemma contains_concat (n : str) (items : list str) :
  (exists x, In x items /\ contains n x = true) ->
  contains n (List.concat items) = true.
Proof.
  intros (x & Hin & Hx). induction items as [|y items IH]; [contradiction|].
  simpl. destruct Hin as [->|Hin].
  - apply contains_app_l. exact Hx.
  - apply contains_app_r. apply IH. exact Hin.
Qed.

(* ================================================================== *)
(** ** The [non_goals] guard *)
(* ================================================================== *)

Lemma lower_app (a b : str) : lower (a ++ b) = lower a ++ lower b.
Proof. apply map_app. Qed.

Lemma lower_join_space (items : list str) :
  lower (join (py " ") items) = join (py " ") (map lower items).
Proof.
  induction items as [|x items IH]; [reflexivity|].
  destruct items as [|y items]; [reflexivity|].
  change (join (py " ") (x :: y :: items))
    with (x ++ py " " ++ join (py " ") (y :: items)).
  rewrite !lower_app, IH. reflexivity.
Qed.

Lemma lower_concat (items : list str) :
  lower (List.concat items) = List.concat (map lower items).
Proof.
  induction items as [|x items IH]; [reflexivity|].
  simpl. rewrite lower_app, IH. reflexivity.
Qed.

Lemma advice_term_plain (term : str) :
  In term advice_terms -> term <> [] /\ forall c, In c term -> isspace c = false.
Proof.
  intros H.
  assert (F : forallb (fun t => negb (is_empty t) && forallb (fun c => negb (isspace c)) t)
                      advice_terms = true) by (vm_compute; reflexivity).
  rewrite forallb_forall in F. specialize (F term H).
  apply andb_prop in F. destruct F as (Hn & Hs). split.
  - intros ->. discriminate.
  - intros c Hc. rewrite forallb_forall in Hs. specialize (Hs c Hc).
    destruct (isspace c); [discriminate|reflexivity].
Qed.

Lemma advice_term_no_blank (term : str) :
  In term advice_terms -> ~ In " "%char term.
Proof.
  intros H Hin. destruct (advice_term_plain H) as (_ & Hs).
  specialize (Hs _ Hin). vm_compute in Hs. discriminate.
Qed.

(** A term found in the space-joined text lies within one element, hence
    in the plain concatenation too. *)
Lemma names_join_concat (items : list str) :
  names_advice_term (lower (join (py " ") items)) = true ->
  names_advice_term (lower (List.concat items)) = true.
Proof.
  unfold names_advice_term. rewrite !existsb_exists.
  intros (term & Hin & H). exists term. split; [exact Hin|].
  rewrite lower_join_space in H. rewrite lower_concat.
  apply contains_concat.
  apply (@contains_join_inv term " "%char); auto.
  - apply (advice_term_plain Hin).
  - apply advice_term_no_blank. exact Hin.
Qed.

(** C9, as stated, fails on its second half: checks run in a fixed order
    and the first failure is the one raised.  This record has a [non_goals]
    text with none of the terms and no [title]; the error names [title]. *)
Lemma non_goals_error_not_first :
  get Samples.untitled_dict (py "non_goals") = Some (VList [VStr (py "Nothing else.")]) /\
  names_advice_term (lower (List.concat [py "Nothing else."])) = false /\
  validate_conceptcard (VDict Samples.untitled_dict) =
    Err (FieldError (py "credit_score") (py "title") (py "missing required field")).
Proof. repeat split; vm_compute; reflexivity. Qed.

Lemma is_ok_inv (A : Type) (x : result A) : is_ok x = true -> exists a, x = Ok a.
Proof. destruct x; [eauto|discriminate]. Qed.

Lemma non_goals_error_when_reached (d : dict) (items : list raw_value) :
  get d (py "non_goals") = Some (VList items) ->
  blocks_advice items = false ->
  earlier_checks_pass d = true ->
  validate_conceptcard (VDict d) =
    Err (FieldError (_card_id_for_errors d) (py "non_goals")
           (py "must explicitly block advice/recommendation/optimization scope")).
Proof.
  intros G Hb He. unfold earlier_checks_pass in He. cbv zeta in He.
  apply andb_prop in He. destruct He as (He & K12).
  apply andb_prop in He. destruct He as (He & K11).
  apply andb_prop in He. destruct He as (He & K10).
  apply andb_prop in He. destruct He as (He & K9).
  apply andb_prop in He. destruct He as (He & K8).
  apply andb_prop in He. destruct He as (He & K7).
  apply andb_prop in He. destruct He as (He & K6).
  apply andb_prop in He. destruct He as (He & K5).
  apply andb_prop in He. destruct He as (He & K4).
  apply andb_prop in He. destruct He as (He & K3).
  apply andb_prop in He. destruct He as (K1 & K2).
  apply is_ok_inv in K1, K2, K3, K4, K5, K6, K7, K8, K9, K10, K11, K12.
  destruct K1 as (v1 & K1), K2 as (v2 & K2), K3 as (v3 & K3), K4 as (v4 & K4).
  destruct K5 as (v5 & K5), K6 as (v6 & K6), K7 as (v7 & K7), K8 as (v8 & K8).
  destruct K9 as (v9 & K9), K10 as ([al fo] & K10), K11 as ([so lu] & K11).
  destruct K12 as (v12 & K12).
  unfold validate_conceptcard.
  rewrite K1; cbn [bind]. rewrite K2; cbn [bind]. rewrite K3; cbn [bind].
  rewrite K4; cbn [bind]. rewrite K5; cbn [bind]. rewrite K6; cbn [bind].
  rewrite K7; cbn [bind]. rewrite K8; cbn [bind]. rewrite K9; cbn [bind].
  rewrite K10; cbn [bind]. rewrite K11; cbn [bind].
  unfold _education_only_heuristics. unfold summary_stage in K12.
  rewrite K12; cbn [bind].
  rewrite G. unfold blocks_advice, names_advice_term in Hb. rewrite Hb. reflexivity.
Qed.

(** C9, amended: when a record validates, the lowercased text of its
    [non_goals] (joined with spaces as the validator does, or plainly
    concatenated) has one of the five terms as a substring; a record whose
    joined text has none fails validation, and the error is the
    field-addressed one naming [non_goals] when every earlier check passes.
    A text that has no term when concatenated has none when joined, so the
    second half covers that reading too. *)
Theorem non_goals_guard (d : dict) (items : list raw_value) :
  get d (py "non_goals") = Some (VList items) ->
  (forall card,
      validate_conceptcard (VDict d) = Ok card ->
      names_advice_term (lower (join (py " ") (only_strs items))) = true /\
      names_advice_term (lower (List.concat (only_strs items))) = true) /\
  (names_advice_term (lower (join (py " ") (only_strs items))) = false ->
      (exists e, validate_conceptcard (VDict d) = Err e) /\
      (earlier_checks_pass d = true ->
       validate_conceptcard (VDict d) =
         Err (FieldError (_card_id_for_errors d) (py "non_goals")
                (py "must explicitly block advice/recommendation/optimization scope")))) /\
  (names_advice_term (lower (List.concat (only_strs items))) = false ->
   names_advice_term (lower (join (py " ") (only_strs items))) = false).
Proof.
  intros G.
  assert (A : forall card, validate_conceptcard (VDict d) = Ok card ->
                           blocks_advice items = true).
  { intros card H. apply validate_conceptcard_ok_iff in H.
    destruct H as (d' & E & H). injection E as <-. cbv zeta in H.
    destruct H as (_ & _ & _ & _ & _ & _ & _ & _ & _ & _ & _ & Hh & _).
    apply _education_only_heuristics_ok in Hh. destruct Hh as (_ & Hn & _).
    apply Hn. exact G. }
  split; [|split].
  - intros card H. pose proof (A card H) as B. split; [exact B|].
    apply names_join_concat. exact B.
  - intros B. change (blocks_advice items = false) in B.
    split.
    + destruct (validate_conceptcard (VDict d)) as [card|e] eqn:V; [|eauto].
      rewrite (A card eq_refl) in B. discriminate.
    + intros He. apply (non_goals_error_when_reached _ G B He).
  - intros Hc.
    destruct (names_advice_term (lower (join (py " ") (only_strs items)))) eqn:B;
      [|reflexivity].
    apply names_join_concat in B. congruence.
Qed.

Lemma non_goals_guard_witness :
  get Samples.split_dict (py "non_goals")
  = Some (VList [VStr (py "Not adv"); VStr (py "ice.")]) /\
  names_advice_term (lower (join (py " ") [py "Not adv"; py "ice."])) = false /\
  earlier_checks_pass Samples.split_dict = true /\
  validate_conceptcard (VDict Samples.split_dict) =
    Err (FieldError (py "credit_score") (py "non_goals")
           (py "must explicitly block advice/recommendation/optimization scope")).
Proof.
  split; [reflexivity|]. split; [vm_compute; reflexivity|].
  split; [vm_compute; reflexivity|].
  apply (@non_goals_guard Samples.split_dict [VStr (py "Not adv"); VStr (py "ice.")]);
    vm_compute; reflexivity.
Defined.

Example non_goals_vague_rejected :
  validate_conceptcard (VDict Samples.vague_dict) =
    Err (FieldError (py "credit_score") (py "non_goals")
           (py "must explicitly block advice/recommendation/optimization scope")).
Proof. vm_compute. reflexivity. Qed.

(* ================================================================== *)
(** ** Validating the serialized form of a validated card *)
(* ================================================================== *)

Lemma is_empty_strip_strip (s : str) :
  is_empty (strip s) = false -> is_empty (strip (strip s)) = false.
Proof. rewrite strip_idempotent. auto. Qed.

Lemma clean_str_again (item : raw_value) (out : str) :
  clean_str item out -> clean_str (VStr out) out.
Proof.
  intros (s & _ & He & Hp & ->). exists (strip s). split; [reflexivity|].
  split; [apply is_empty_strip_strip; exact He|].
  split; [apply no_placeholder_strip; exact Hp|].
  symmetry. apply strip_idempotent.
Qed.

Lemma clean_strs_again (items : list raw_value) (out : list str) :
  Forall2 clean_str items out -> Forall2 clean_str (map VStr out) out.
Proof.
  induction 1 as [|item o items out Hc HF IH]; simpl; constructor; auto.
  exact (clean_str_again Hc).
Qed.

Lemma clean_strs_shape (items : list raw_value) (out : list str) :
  Forall2 clean_str items out ->
  exists strs, items = map VStr strs /\ out = map strip strs.
Proof.
  induction 1 as [|item o items out Hc HF (strs & -> & ->)].
  - exists []. auto.
  - destruct Hc as (s & -> & _ & _ & ->). exists (s :: strs). auto.
Qed.

Lemma only_strs_map (l : list str) : only_strs (map VStr l) = l.
Proof. induction l as [|x l IH]; simpl; [reflexivity|rewrite IH; reflexivity]. Qed.

Lemma clean_example_again (ex : raw_value) (e : ConceptExample) :
  clean_example ex e -> clean_example (example_to_raw e) e.
Proof.
  intros (exd & sc & expl & _ & Hsc & Hex & P1 & P2 & ->).
  assert (N : forall d key s, nonblank_str (get d key) = Some s ->
                              is_empty (strip s) = false).
  { intros d key s H. destruct (get d key) as [[ | | |s'| | ]|]; try discriminate.
    simpl in H. destruct (is_empty (strip s')) eqn:E; [discriminate|].
    injection H as <-. exact E. }
  apply N in Hsc, Hex.
  exists [ (py "scenario", VStr (strip sc)); (py "explanation", VStr (strip expl)) ],
         (strip sc), (strip expl).
  split; [reflexivity|].
  split; [change (nonblank_str (Some (VStr (strip sc))) = Some (strip sc)); simpl;
          rewrite (is_empty_strip_strip _ Hsc); reflexivity|].
  split; [change (nonblank_str (Some (VStr (strip expl))) = Some (strip expl)); simpl;
          rewrite (is_empty_strip_strip _ Hex); reflexivity|].
  split; [apply no_placeholder_strip; exact P1|].
  split; [apply no_placeholder_strip; exact P2|].
  rewrite !strip_idempotent. reflexivity.
Qed.

Lemma clean_examples_again (items : list raw_value) (out : list ConceptExample) :
  Forall2 clean_example items out -> Forall2 clean_example (map example_to_raw out) out.
Proof.
  induction 1 as [|ex e items out Hc HF IH]; simpl; constructor; auto.
  exact (clean_example_again Hc).
Qed.

Lemma clean_intent_value (i : Intent) : clean_intent (value i) i.
Proof. destruct i; repeat split; vm_compute; reflexivity. Qed.

Lemma clean_intents_again (l : list Intent) :
  Forall2 clean_intent (map value l) l.
Proof.
  induction l as [|i l IH]; simpl; constructor; [apply clean_intent_value|exact IH].
Qed.

Lemma all_str_values (l : list Intent) :
  all_str (map (fun i => VStr (value i)) l) = Some (map value l).
Proof.
  induction l as [|i l IH]; [reflexivity|].
  cbn [all_str map]. rewrite IH. reflexivity.
Qed.

Lemma clean_enum_value (A : Type) (E : PyEnum A) (e : A) (d : dict) (card_id key : str) :
  get d key = Some (VStr (value e)) ->
  clean_str (VStr (value e)) (value e) -> enum_call (value e) = Some e ->
  _require_enum d card_id key = Ok e.
Proof.
  intros G Hc Hd. apply _require_enum_ok. exists (value e). split; [|exact Hd].
  apply _require_str_ok. eauto.
Qed.

Lemma clean_str_literal (s : str) :
  is_empty (strip s) = false -> search _PLACEHOLDER_RE s = false -> strip s = s ->
  clean_str (VStr s) s.
Proof. intros H1 H2 H3. exists s. auto. Qed.

Lemma category_value_ok (c : Category) :
  clean_str (VStr (value c)) (value c) /\ enum_call (value c) = Some c.
Proof.
  destruct c; (split; [apply clean_str_literal|]); vm_compute; reflexivity.
Qed.

Lemma difficulty_value_ok (c : Difficulty) :
  clean_str (VStr (value c)) (value c) /\ enum_call (value c) = Some c.
Proof.
  destruct c; (split; [apply clean_str_literal|]); vm_compute; reflexivity.
Qed.

Lemma space_lower (c : ascii) : isspace c = true -> lower_char c = c.
Proof.
  destruct c as [[] [] [] [] [] [] [] []]; vm_compute; intros H;
    first [reflexivity | discriminate H].
Qed.

Lemma spaces_not_in_term (term sp : str) :
  In term advice_terms -> Forall (fun c => isspace c = true) sp ->
  Forall (fun c => ~ In c term) (lower sp).
Proof.
  intros Ht F. unfold lower. apply Forall_map.
  apply Forall_impl with (2 := F). intros c Hc Hin.
  rewrite (space_lower _ Hc) in Hin.
  destruct (advice_term_plain Ht) as (_ & Hs). rewrite (Hs _ Hin) in Hc. discriminate.
Qed.

(** A term found in a lowercased text is found in the lowercased stripped
    text. *)
Lemma term_in_stripped (term s : str) :
  In term advice_terms -> contains term (lower s) = true ->
  contains term (lower (strip s)) = true.
Proof.
  intros Ht H. destruct (strip_decomp s) as (sp1 & sp2 & E & F1 & F2).
  rewrite E in H. rewrite !lower_app in H.
  destruct (advice_term_plain Ht) as (Hn & _).
  apply contains_drop_prefix in H; [|exact Hn|apply spaces_not_in_term; assumption].
  apply contains_drop_suffix in H; [|exact Hn|apply spaces_not_in_term; assumption].
  exact H.
Qed.

Lemma blocks_advice_again (items : list raw_value) (out : list str) :
  Forall2 clean_str items out -> blocks_advice items = true ->
  blocks_advice (map VStr out) = true.
Proof.
  intros HF. destruct (clean_strs_shape HF) as (strs & -> & ->).
  unfold blocks_advice, names_advice_term. rewrite !only_strs_map, !existsb_exists.
  intros (term & Ht & H). exists term. split; [exact Ht|].
  rewrite lower_join_space in H |- *.
  apply (@contains_join_inv term " "%char) in H;
    [|apply (advice_term_plain Ht)|apply advice_term_no_blank; exact Ht].
  destruct H as (x & Hin & Hx). apply in_map_iff in Hin. destruct Hin as (s & <- & Hin).
  apply contains_join. exists (lower (strip s)). split.
  - apply in_map, in_map. exact Hin.
  - apply term_in_stripped; assumption.
Qed.

Lemma no_second_person_again (items : list raw_value) (out : list str) :
  Forall2 clean_str items out -> no_second_person items ->
  no_second_person (map VStr out).
Proof.
  unfold no_second_person.
  induction 1 as [|item o items out Hc HF IH]; intros H; simpl; constructor;
    inversion H as [|? ? Hi Hr]; subst; auto.
  intros s E. injection E as <-.
  destruct Hc as (s0 & -> & _ & _ & ->).
  apply search_strip_back. apply Hi. reflexivity.
Qed.

(** C7: validating the serialized form of a validated card succeeds and
    gives the same card. *)
Theorem validate_serialized_roundtrip (raw : raw_value) (card : ConceptCard) :
  validate_conceptcard raw = Ok card ->
  validate_conceptcard (card_to_raw card) = Ok card.
Proof.
  intros H. apply validate_conceptcard_ok_iff in H.
  destruct H as (d & -> & H). cbv zeta in H.
  destruct H as (Hid & Hti & Hca & Hdi & Hsu & Hco & Hmi & Hno & Hex & Hsa & Hme & Hh & Hre).
  apply _require_str_ok in Hid, Hti.
  apply _require_list_of_str_ok in Hsu, Hco, Hmi, Hno.
  apply _require_examples_ok in Hex. apply _require_safety_ok_iff in Hsa.
  apply _require_metadata_ok in Hme. apply _education_only_heuristics_ok in Hh.
  destruct Hid as (i1 & _ & Hid), Hti as (i2 & _ & Hti).
  destruct Hsu as (l1 & G1 & F1 & N1), Hco as (l2 & _ & F2 & N2).
  destruct Hmi as (l3 & _ & F3 & N3), Hno as (l4 & G4 & F4 & N4).
  destruct Hex as (exs & _ & Fex).
  destruct Hsa as (sd & araw & fraw & _ & _ & _ & _ & _ & Hmiss & Hover).
  destruct Hme as (md & srcs & raw_lu & _ & _ & Hne & Fs & Glu & Elu & Plu & Dlu).
  destruct Hh as (Hsp & Hba & _).
  apply validate_conceptcard_ok_iff. exists (card_to_dict card).
  split; [reflexivity|]. cbv zeta.
  generalize (_card_id_for_errors (card_to_dict card)). intros cid.
  split; [apply _require_str_ok; exists (VStr (id card)); split;
          [reflexivity | exact (clean_str_again Hid)]|].
  split; [apply _require_str_ok; exists (VStr (title card)); split;
          [reflexivity | exact (clean_str_again Hti)]|].
  split; [apply clean_enum_value; [reflexivity | apply category_value_ok ..]|].
  split; [apply clean_enum_value; [reflexivity | apply difficulty_value_ok ..]|].
  split; [apply _require_list_of_str_ok; exists (map VStr (summary card));
          split; [reflexivity | split; [exact (clean_strs_again F1) | exact N1]]|].
  split; [apply _require_list_of_str_ok; exists (map VStr (core_mechanics card));
          split; [reflexivity | split; [exact (clean_strs_again F2) | exact N2]]|].
  split; [apply _require_list_of_str_ok; exists (map VStr (misconceptions card));
          split; [reflexivity | split; [exact (clean_strs_again F3) | exact N3]]|].
  split; [apply _require_list_of_str_ok; exists (map VStr (non_goals card));
          split; [reflexivity | split; [exact (clean_strs_again F4) | exact N4]]|].
  split; [apply _require_examples_ok; exists (map example_to_raw (examples card));
          split; [reflexivity | exact (clean_examples_again Fex)]|].
  split.
  { apply _require_safety_ok_iff.
    exists [ (py "allowed_intents", intents_to_raw (allowed_intents card));
             (py "forbidden_intents", intents_to_raw (forbidden_intents card)) ],
           (map value (allowed_intents card)), (map value (forbidden_intents card)).
    split; [reflexivity|].
    split; [apply all_str_values|]. split; [apply all_str_values|].
    split; [apply clean_intents_again|]. split; [apply clean_intents_again|].
    split; assumption. }
  split.
  { apply _require_metadata_ok.
    exists [ (py "sources", VList (map VStr (sources card)));
             (py "last_updated", VStr (last_updated card)) ],
           (map VStr (sources card)), (last_updated card).
    assert (Hlu : is_empty (strip raw_lu) = false).
    { destruct (get md (py "last_updated")) as [[ | | |s'| | ]|]; try discriminate.
      simpl in Glu. destruct (is_empty (strip s')) eqn:E; [discriminate|].
      injection Glu as <-. exact E. }
    split; [reflexivity|]. split; [reflexivity|].
    split.
    { inversion Fs; subst; [contradiction|]. discriminate. }
    split; [exact (clean_strs_again Fs)|].
    rewrite Elu.
    split.
    { change (nonblank_str (Some (VStr (strip raw_lu))) = Some (strip raw_lu)).
      simpl. rewrite (is_empty_strip_strip _ Hlu). reflexivity. }
    rewrite !strip_idempotent. auto. }
  split.
  { apply _education_only_heuristics_ok. split; [|split].
    - intros items G.
      assert (G' : get (card_to_dict card) (py "summary")
                   = Some (VList (map VStr (summary card)))) by reflexivity.
      rewrite G' in G. injection G as <-.
      apply (no_second_person_again F1). apply Hsp. exact G1.
    - intros items G.
      assert (G' : get (card_to_dict card) (py "non_goals")
                   = Some (VList (map VStr (non_goals card)))) by reflexivity.
      rewrite G' in G. injection G as <-.
      apply (blocks_advice_again F4). apply Hba. exact G4.
    - unfold swept, card_to_dict.
      repeat (constructor; [cbn [snd]; intros s E; try discriminate E|]);
        try injection E as <-.
      + destruct (clean_str_again Hid) as (s & E & _ & P & _). injection E as <-. exact P.
      + destruct (clean_str_again Hti) as (s & E & _ & P & _). injection E as <-. exact P.
      + destruct (category_value_ok (category card)) as ((s & E & _ & P & _) & _).
        injection E as <-. exact P.
      + destruct (difficulty_value_ok (difficulty card)) as ((s & E & _ & P & _) & _).
        injection E as <-. exact P.
      + constructor. }
  exact Hre.
Qed.

Lemma validate_serialized_roundtrip_witness :
  validate_conceptcard Samples.good_raw = Ok Samples.good_card /\
  validate_conceptcard (card_to_raw Samples.good_card) = Ok Samples.good_card.
Proof.
  split; [vm_compute; reflexivity|].
  apply (@validate_serialized_roundtrip Samples.good_raw Samples.good_card).
  vm_compute; reflexivity.
Defined.

(* ================================================================== *)
(** ** Whole-word patterns *)
(* ================================================================== *)

Lemma span_word_app (s : str) : s = fst (span_word s) ++ snd (span_word s).
Proof.
  induction s as [|x s IH]; simpl; [reflexivity|].
  destruct (isword x); [|reflexivity].
  destruct (span_word s) as [t rest]. simpl in *. rewrite IH at 1. reflexivity.
Qed.

Lemma span_word_word (s : str) : Forall (fun x => isword x = true) (fst (span_word s)).
Proof.
  induction s as [|x s IH]; simpl; [constructor|].
  destruct (isword x) eqn:Hx; [|constructor].
  destruct (span_word s) as [t rest]. simpl in *. constructor; assumption.
Qed.

Lemma span_word_rest (s : str) : hw (snd (span_word s)) = false.
Proof.
  induction s as [|x s IH]; simpl; [reflexivity|].
  destruct (isword x) eqn:Hx; [|simpl; exact Hx].
  destruct (span_word s) as [t rest]. simpl in *. exact IH.
Qed.

Lemma span_word_eq (t rest : str) :
  Forall (fun x => isword x = true) t -> hw rest = false ->
  span_word (t ++ rest) = (t, rest).
Proof.
  intros Ht Hr. induction Ht as [|x t Hx Ht IH]; simpl.
  - destruct rest as [|y rest]; simpl; [reflexivity|]. simpl in Hr. rewrite Hr. reflexivity.
  - rewrite Hx, IH. reflexivity.
Qed.

Lemma lw_word (pw : bool) (t : str) :
  t <> [] -> Forall (fun x => isword x = true) t -> lw pw t = true.
Proof.
  intros Hn Ht. revert pw. induction Ht as [|x t Hx Ht IH]; intros pw; [contradiction|].
  rewrite lw_cons. destruct t as [|y t]; [exact Hx|].
  apply IH. discriminate.
Qed.

Lemma cs_word_sound (cs : cset) (x : ascii) :
  cs_word cs = true -> cmatch cs x = true -> isword x = true.
Proof.
  unfold cs_word. rewrite forallb_forall. intros H Hx.
  specialize (H x (all_chars_complete x)). rewrite Hx in H. exact H.
Qed.

Lemma only_word_sound (r : regex) :
  only_word r = true ->
  forall pw m1 n, matches r pw m1 n -> Forall (fun x => isword x = true) m1.
Proof.
  induction r as [ |cs| |r1 IH1 r2 IH2|r1 IH1 r2 IH2|cs lo hi];
    simpl; intros Hw pw m1 n H.
  - subst. constructor.
  - destruct H as (x & -> & Hx). constructor; [|constructor].
    eapply cs_word_sound; eauto.
  - destruct H as (-> & _). constructor.
  - apply andb_prop in Hw. destruct Hw as (H1 & H2).
    destruct H as (a & b & -> & Ha & Hb). apply Forall_app. eauto.
  - apply andb_prop in Hw. destruct Hw as (H1 & H2). destruct H; eauto.
  - destruct H as (HF & _). apply Forall_impl with (2 := HF).
    intros x. apply cs_word_sound. exact Hw.
Qed.

Lemma nonnull_sound (r : regex) :
  nonnull r = true -> forall pw m1 n, matches r pw m1 n -> m1 <> [].
Proof.
  induction r as [ |cs| |r1 IH1 r2 IH2|r1 IH1 r2 IH2|cs lo hi];
    simpl; intros Hn pw m1 n H; try discriminate.
  - destruct H as (x & -> & _). discriminate.
  - destruct H as (a & b & -> & Ha & Hb). intros E.
    apply app_eq_nil in E. destruct E as (-> & ->).
    apply orb_prop in Hn. destruct Hn as [Hn|Hn].
    + eapply IH1; eauto.
    + eapply IH2; eauto.
  - apply andb_prop in Hn. destruct Hn as (H1 & H2). destruct H; eauto.
  - destruct H as (_ & Hlo & _). intros ->. simpl in Hlo.
    destruct lo; [discriminate|lia].
Qed.

(** A pattern with no [\b] matches the same texts wherever it is tried. *)
Lemma bnd_free_ctx (r : regex) :
  bnd_free r = true ->
  forall pw pw' m1 n n', matches r pw m1 n -> matches r pw' m1 n'.
Proof.
  induction r as [ |cs| |r1 IH1 r2 IH2|r1 IH1 r2 IH2|cs lo hi];
    simpl; intros Hb pw pw' m1 n n' H; try discriminate; auto.
  - apply andb_prop in Hb. destruct Hb as (H1 & H2).
    destruct H as (a & b & -> & Ha & Hb). exists a, b. eauto.
  - apply andb_prop in Hb. destruct Hb as (H1 & H2). destruct H; eauto.
Qed.

Lemma word_re_matches (A : regex) (pw : bool) (m1 n : str) :
  wordy A = true ->
  (matches (word_re A) pw m1 n <->
   pw = false /\ hw n = false /\ fullmatch A m1 = true).
Proof.
  unfold wordy. intros H. apply andb_prop in H. destruct H as (H & Hnn).
  apply andb_prop in H. destruct H as (Hbf & Hw).
  rewrite fullmatch_iff. simpl. split.
  - intros (a & b & -> & (-> & Hb1) & a0 & b0 & -> & Ha & -> & Hb2).
    simpl in *. rewrite app_nil_r in *.
    pose proof (only_word_sound _ Hw _ _ _ Ha) as Wd.
    pose proof (@nonnull_sound A Hnn _ _ _ Ha) as Ne.
    rewrite (lw_word pw Ne Wd) in Hb2.
    assert (Hh : hw (a0 ++ n) = true).
    { destruct a0 as [|x a0]; [contradiction|]. inversion Wd; assumption. }
    rewrite Hh in Hb1.
    split; [destruct pw; [discriminate|reflexivity]|].
    split; [destruct (hw n); [discriminate|reflexivity]|].
    apply (bnd_free_ctx _ Hbf _ false _ _ [] Ha).
  - intros (-> & Hn & Ha).
    pose proof (only_word_sound _ Hw _ _ _ Ha) as Wd.
    pose proof (@nonnull_sound A Hnn _ _ _ Ha) as Ne.
    exists [], m1. split; [reflexivity|]. split.
    + split; [reflexivity|]. simpl.
      destruct m1 as [|x m1]; [contradiction|]. inversion Wd; assumption.
    + exists m1, []. rewrite app_nil_r. split; [reflexivity|]. split.
      * apply (bnd_free_ctx _ Hbf _ _ _ _ _ Ha).
      * split; [reflexivity|]. simpl. rewrite (lw_word false Ne Wd), Hn. reflexivity.
Qed.

Lemma match_at_word_re (A : regex) (pw : bool) (s : str) :
  wordy A = true ->
  match_at (word_re A) pw s = tok_match (fullmatch A) pw s.
Proof.
  intros HA. destruct (match_at (word_re A) pw s) as [rest|] eqn:M.
  - apply match_at_sound in M. destruct M as (m1 & -> & M).
    apply word_re_matches in M; [|exact HA]. destruct M as (-> & Hn & Ha).
    pose proof Ha as Ha'. apply fullmatch_iff in Ha'.
    unfold wordy in HA. apply andb_prop in HA. destruct HA as (HA & Hnn).
    apply andb_prop in HA. destruct HA as (_ & Hw).
    pose proof (only_word_sound _ Hw _ _ _ Ha') as Wd.
    pose proof (@nonnull_sound A Hnn _ _ _ Ha') as Ne.
    unfold tok_match. rewrite (@span_word_eq m1 rest Wd Hn).
    destruct m1; [contradiction|]. rewrite Ha. reflexivity.
  - unfold tok_match. destruct pw; [reflexivity|].
    pose proof (span_word_app s) as E. pose proof (span_word_rest s) as R.
    destruct (span_word s) as [t rest]. simpl in E, R.
    destruct t as [|x t]; [reflexivity|].
    destruct (fullmatch A (x :: t)) eqn:F; [|reflexivity].
    exfalso. assert (Mt : matches (word_re A) false (x :: t) rest).
    { apply word_re_matches; auto. }
    apply match_at_complete in Mt. rewrite <- E in Mt. contradiction.
Qed.

Lemma sub_loop_ext (mt mt' : bool -> str -> option nat) (repl : str) :
  (forall pw s, mt pw s = mt' pw s) ->
  forall s skip pw, sub_loop mt repl skip pw s = sub_loop mt' repl skip pw s.
Proof.
  intros E. induction s as [|x s IH]; intros skip pw; simpl.
  - rewrite E. reflexivity.
  - destruct skip; [|apply IH]. rewrite E.
    destruct (mt' pw (x :: s)) as [[|n]|]; rewrite IH; reflexivity.
Qed.

Lemma scan_ext (mt mt' : bool -> str -> option str) :
  (forall pw s, mt pw s = mt' pw s) ->
  forall s pw, scan mt pw s = scan mt' pw s.
Proof.
  intros E. induction s as [|x s IH]; intros pw; simpl; rewrite E.
  - reflexivity.
  - destruct (mt' pw (x :: s)); [reflexivity|apply IH].
Qed.

Lemma sub_word_re (A : regex) (repl s : str) :
  wordy A = true -> sub (word_re A) repl s = tsub (fullmatch A) repl false s.
Proof.
  intros HA. unfold sub, tsub. apply sub_loop_ext. intros pw t.
  unfold match_len, len_of. rewrite match_at_word_re by exact HA. reflexivity.
Qed.

Lemma search_word_re (A : regex) (s : str) :
  wordy A = true -> search (word_re A) s = tscan (fullmatch A) false s.
Proof.
  intros HA. unfold search, search_from, tscan. apply scan_ext. intros pw t.
  apply match_at_word_re. exact HA.
Qed.

(** Texts are read word by word. *)
Lemma tok_ind (Q : str -> Prop) :
  Q [] ->
  (forall x s, isword x = false -> Q s -> Q (x :: s)) ->
  (forall t rest, t <> [] -> Forall (fun x => isword x = true) t ->
                  hw rest = false -> Q rest -> Q (t ++ rest)) ->
  forall s, Q s.
Proof.
  intros Hnil Hsep Htok s.
  remember (List.length s) as k eqn:Hk. revert s Hk.
  induction k as [k IH] using lt_wf_ind. intros s Hk.
  destruct s as [|x s]; [exact Hnil|].
  destruct (isword x) eqn:Hx.
  - pose proof (span_word_app (x :: s)) as E.
    pose proof (span_word_word (x :: s)) as W.
    pose proof (span_word_rest (x :: s)) as R.
    simpl in E, W, R. rewrite Hx in E, W, R.
    destruct (span_word s) as [t rest]. simpl in E, W, R.
    rewrite E. apply (Htok (x :: t) rest); [discriminate|exact W|exact R|].
    apply (IH (List.length rest)); [|reflexivity].
    subst k. rewrite E. simpl. rewrite length_app. lia.
  - apply Hsep; [exact Hx|]. apply (IH (List.length s)); [|reflexivity].
    subst k. simpl. lia.
Qed.

Section Words.

Variable P : str -> bool.
Variable repl : str.

Lemma tok_match_nil (pw : bool) : tok_match P pw [] = None.
Proof. destruct pw; reflexivity. Qed.

Lemma tok_match_sep (pw : bool) (x : ascii) (s : str) :
  isword x = false -> tok_match P pw (x :: s) = None.
Proof. intros Hx. unfold tok_match. simpl. rewrite Hx. destruct pw; reflexivity. Qed.

Lemma tok_match_word (t rest : str) :
  t <> [] -> Forall (fun x => isword x = true) t -> hw rest = false ->
  tok_match P false (t ++ rest) = if P t then Some rest else None.
Proof.
  intros Hn Ht Hr. unfold tok_match. rewrite (@span_word_eq t rest Ht Hr).
  destruct t; [contradiction|reflexivity].
Qed.

Lemma tsub_nil (pw : bool) : tsub P repl pw [] = [].
Proof. unfold tsub, len_of. simpl. rewrite tok_match_nil. reflexivity. Qed.

Lemma tsub_sep (pw : bool) (x : ascii) (s : str) :
  isword x = false -> tsub P repl pw (x :: s) = x :: tsub P repl false s.
Proof.
  intros Hx. unfold tsub, len_of. simpl.
  rewrite tok_match_sep by exact Hx. rewrite Hx. reflexivity.
Qed.

Lemma sub_loop_skip (mt : bool -> str -> option nat) (a rest : str) :
  forall pw,
  sub_loop mt repl (List.length a) pw (a ++ rest) = sub_loop mt repl 0 (lw pw a) rest.
Proof.
  induction a as [|x a IH]; intros pw; [reflexivity|].
  simpl. rewrite IH. reflexivity.
Qed.

Lemma tsub_inside (a rest : str) :
  Forall (fun x => isword x = true) a ->
  tsub P repl true (a ++ rest) = a ++ tsub P repl true rest.
Proof.
  induction 1 as [|x a Hx Ha IH]; [reflexivity|].
  unfold tsub in *. cbn [app sub_loop].
  replace (len_of (tok_match P) true (x :: a ++ rest)) with (@None nat) by reflexivity.
  rewrite Hx, IH. reflexivity.
Qed.

Lemma tsub_after (rest : str) :
  hw rest = false -> tsub P repl true rest = tsub P repl false rest.
Proof.
  destruct rest as [|y rest]; simpl; intros H.
  - rewrite !tsub_nil. reflexivity.
  - rewrite !tsub_sep by exact H. reflexivity.
Qed.

Lemma tsub_word (t rest : str) :
  t <> [] -> Forall (fun x => isword x = true) t -> hw rest = false ->
  tsub P repl false (t ++ rest) = (if P t then repl else t) ++ tsub P repl false rest.
Proof.
  intros Hn Ht Hr. pose proof (@tok_match_word t rest Hn Ht Hr) as M.
  destruct t as [|x t]; [contradiction|].
  inversion Ht as [|? ? Hx Ht']; subst.
  unfold tsub at 1. cbn [sub_loop app]. unfold len_of.
  change (x :: t ++ rest) with ((x :: t) ++ rest). rewrite M.
  destruct (P (x :: t)).
  - replace (List.length ((x :: t) ++ rest) - List.length rest)
      with (S (List.length t)) by (rewrite length_app; cbn [List.length]; lia).
    rewrite sub_loop_skip. rewrite <- lw_cons with (pw := false).
    rewrite (lw_word false Hn Ht).
    change (repl ++ tsub P repl true rest = repl ++ tsub P repl false rest).
    rewrite tsub_after by exact Hr. reflexivity.
  - rewrite Hx.
    change (x :: tsub P repl true (t ++ rest) = (x :: t) ++ tsub P repl false rest).
    rewrite tsub_inside by exact Ht'. rewrite tsub_after by exact Hr. reflexivity.
Qed.

Lemma hw_tsub (pw : bool) (rest : str) :
  hw rest = false -> hw (tsub P repl pw rest) = false.
Proof.
  destruct rest as [|y rest]; simpl; intros H.
  - rewrite tsub_nil. reflexivity.
  - rewrite tsub_sep by exact H. exact H.
Qed.

Lemma tscan_nil (pw : bool) : tscan P pw [] = false.
Proof. unfold tscan. simpl. rewrite tok_match_nil. reflexivity. Qed.

Lemma tscan_sep (pw : bool) (x : ascii) (s : str) :
  isword x = false -> tscan P pw (x :: s) = tscan P false s.
Proof.
  intros Hx. unfold tscan. simpl. rewrite tok_match_sep by exact Hx. rewrite Hx. reflexivity.
Qed.

Lemma tscan_inside (a rest : str) :
  Forall (fun x => isword x = true) a ->
  tscan P true (a ++ rest) = tscan P true rest.
Proof.
  induction 1 as [|x a Hx Ha IH]; [reflexivity|].
  unfold tscan in *. simpl. rewrite Hx. exact IH.
Qed.

Lemma tscan_after (rest : str) :
  hw rest = false -> tscan P true rest = tscan P false rest.
Proof.
  destruct rest as [|y rest]; simpl; intros H.
  - rewrite !tscan_nil. reflexivity.
  - rewrite !tscan_sep by exact H. reflexivity.
Qed.

Lemma tscan_word (t rest : str) :
  t <> [] -> Forall (fun x => isword x = true) t -> hw rest = false ->
  tscan P false (t ++ rest) = P t || tscan P false rest.
Proof.
  intros Hn Ht Hr. pose proof (@tok_match_word t rest Hn Ht Hr) as M.
  destruct t as [|x t]; [contradiction|].
  inversion Ht as [|? ? Hx Ht']; subst.
  unfold tscan at 1. cbn [scan app].
  change (x :: t ++ rest) with ((x :: t) ++ rest). rewrite M.
  destruct (P (x :: t)); [reflexivity|]. rewrite Hx.
  change (scan (tok_match P) true (t ++ rest)) with (tscan P true (t ++ rest)).
  rewrite tscan_inside by exact Ht'. rewrite tscan_after by exact Hr. reflexivity.
Qed.

End Words.

Lemma tscan_none (Q : str -> bool) :
  (forall t, Q t = false) -> forall s pw, tscan Q pw s = false.
Proof.
  intros HQ. assert (N : forall pw s, tok_match Q pw s = None).
  { intros pw s. unfold tok_match. destruct pw; [reflexivity|].
    destruct (span_word s) as [[|x t] rest]; [reflexivity|]. rewrite HQ. reflexivity. }
  unfold tscan. induction s as [|x s IH]; intros pw; simpl; rewrite N; auto.
Qed.

Lemma tscan_mono (Q Q' : str -> bool) :
  (forall t, Q' t = true -> Q t = true) ->
  forall s pw, tscan Q' pw s = true -> tscan Q pw s = true.
Proof.
  intros HQ. assert (N : forall pw s, tok_match Q pw s = None -> tok_match Q' pw s = None).
  { intros pw s. unfold tok_match. destruct pw; [reflexivity|].
    destruct (span_word s) as [[|x t] rest]; [reflexivity|].
    destruct (Q' (x :: t)) eqn:E; [|reflexivity].
    rewrite (HQ _ E). discriminate. }
  unfold tscan. induction s as [|x s IH]; intros pw; simpl.
  - destruct (tok_match Q pw []) eqn:E; [reflexivity|]. rewrite (N _ _ E). auto.
  - destruct (tok_match Q pw (x :: s)) eqn:E; [reflexivity|]. rewrite (N _ _ E). apply IH.
Qed.

(** Searching for [Q]-words after replacing the [P]-words by a quiet
    replacement finds exactly the [Q]-words that were not [P]-words. *)
Lemma tscan_tsub (P Q : str -> bool) (repl : str) :
  quiet Q repl ->
  forall s, tscan Q false (tsub P repl false s)
            = tscan (fun t => Q t && negb (P t)) false s.
Proof.
  intros Hq. apply tok_ind.
  - rewrite tsub_nil, !tscan_nil. reflexivity.
  - intros x s Hx IH. rewrite tsub_sep by exact Hx.
    rewrite !tscan_sep by exact Hx. exact IH.
  - intros t rest Hn Ht Hr IH.
    rewrite tsub_word by assumption.
    rewrite (@tscan_word (fun t => Q t && negb (P t)) t rest Hn Ht Hr).
    destruct (P t); simpl.
    + rewrite Hq by (apply hw_tsub; exact Hr). rewrite andb_false_r. exact IH.
    + rewrite tscan_word; [|exact Hn|exact Ht|apply hw_tsub; exact Hr].
      rewrite andb_true_r, IH. reflexivity.
Qed.

Lemma tsub_removes (P : str -> bool) (repl s : str) :
  quiet P repl -> tscan P false (tsub P repl false s) = false.
Proof.
  intros Hq. rewrite tscan_tsub by exact Hq. apply tscan_none.
  intros t. destruct (P t); reflexivity.
Qed.

Lemma tsub_adds_none (P Q : str -> bool) (repl s : str) :
  quiet Q repl -> tscan Q false s = false ->
  tscan Q false (tsub P repl false s) = false.
Proof.
  intros Hq H. rewrite tscan_tsub by exact Hq.
  destruct (tscan (fun t => Q t && negb (P t)) false s) eqn:E; [|reflexivity].
  apply (tscan_mono Q) in E; [congruence|].
  intros t Ht. apply andb_prop in Ht. tauto.
Qed.

Lemma quiet_word (Q : str -> bool) (w : str) :
  w <> [] -> Forall (fun x => isword x = true) w -> Q w = false -> quiet Q w.
Proof.
  intros Hn Hw HQ rest Hr. rewrite (@tscan_word Q w rest Hn Hw Hr), HQ. reflexivity.
Qed.

Lemma quiet_bracketed (Q : str -> bool) (a b : ascii) (w : str) :
  isword a = false -> isword b = false ->
  w <> [] -> Forall (fun x => isword x = true) w -> Q w = false ->
  quiet Q (a :: w ++ [b]).
Proof.
  intros Ha Hb Hn Hw HQ rest Hr.
  change ((a :: w ++ [b]) ++ rest) with (a :: (w ++ [b]) ++ rest).
  rewrite <- app_assoc. rewrite tscan_sep by exact Ha.
  rewrite tscan_word; [|exact Hn|exact Hw|exact Hb].
  rewrite HQ. simpl. apply tscan_sep. exact Hb.
Qed.

(* ================================================================== *)
(** ** The rewrite scrub *)
(* ================================================================== *)

Lemma sub_loop_all (mt : bool -> str -> option nat) (repl : str) (Q : ascii -> bool) :
  forallb Q repl = true ->
  (forall pw x s, Q x = false -> exists n, mt pw (x :: s) = Some (S n)) ->
  forall s skip pw, forallb Q (sub_loop mt repl skip pw s) = true.
Proof.
  intros Hr Hm. induction s as [|x s IH]; intros skip pw; simpl.
  - destruct skip; [|reflexivity]. destruct (mt pw []); [exact Hr|reflexivity].
  - destruct skip; [|apply IH].
    destruct (Q x) eqn:Hx.
    + destruct (mt pw (x :: s)) as [[|n]|]; try rewrite forallb_app; simpl;
        rewrite ?Hr, ?Hx, ?IH; reflexivity.
    + destruct (Hm pw x s Hx) as (n & E). rewrite E.
      rewrite forallb_app, Hr, IH. reflexivity.
Qed.

Lemma sub_loop_keeps (mt : bool -> str -> option nat) (repl : str) (Q : ascii -> bool) :
  forallb Q repl = true ->
  forall s skip pw, forallb Q s = true -> forallb Q (sub_loop mt repl skip pw s) = true.
Proof.
  intros Hr. induction s as [|x s IH]; intros skip pw H; simpl.
  - destruct skip; [|reflexivity]. destruct (mt pw []); [exact Hr|reflexivity].
  - simpl in H. apply andb_prop in H. destruct H as (Hx & Hs).
    destruct skip; [|apply IH; exact Hs].
    destruct (mt pw (x :: s)) as [[|n]|]; try rewrite forallb_app; simpl;
      rewrite ?Hr, ?Hx, ?IH; auto.
Qed.

Lemma strip_keeps (Q : ascii -> bool) (s : str) :
  forallb Q s = true -> forallb Q (strip s) = true.
Proof.
  destruct (strip_decomp s) as (sp1 & sp2 & E & _). intros H.
  rewrite E in H. rewrite !forallb_app in H.
  apply andb_prop in H. destruct H as (_ & H).
  apply andb_prop in H. tauto.
Qed.

Lemma amount_needs_digit (pw : bool) (m1 n : str) :
  matches AMOUNT_RE pw m1 n -> existsb isdigit m1 = true.
Proof.
  intros H. simpl in H.
  destruct H as (a & b & -> & _ & a1 & b1 & -> & (x & -> & Hx) & _).
  rewrite !existsb_app. simpl in Hx |- *. rewrite Hx.
  rewrite orb_true_r. reflexivity.
Qed.

Lemma amount_at_digit (pw : bool) (x : ascii) (s : str) :
  isdigit x = true -> exists n, match_len AMOUNT_RE pw (x :: s) = Some (S n).
Proof.
  intros Hx.
  assert (M : matches AMOUNT_RE pw [x] s).
  { simpl. exists [], [x]. split; [reflexivity|]. split; [right; reflexivity|].
    exists [x], []. split; [reflexivity|]. split; [exists x; auto|].
    exists [], []. split; [reflexivity|]. split.
    - split; [constructor|]. simpl. split; [lia|exact I].
    - right. reflexivity. }
  apply match_at_complete in M. simpl in M. unfold match_len.
  destruct (match_at AMOUNT_RE pw (x :: s)) as [rest|] eqn:E; [|contradiction].
  apply match_at_sound in E. destruct E as (m1 & E & Hm).
  apply amount_needs_digit in Hm.
  destruct m1 as [|y m1]; [discriminate|].
  rewrite E. exists (List.length m1).
  rewrite length_app. cbn [List.length Nat.add]. f_equal. lia.
Qed.

Lemma no_digit_no_amount (s : str) :
  forallb (fun c => negb (isdigit c)) s = true -> search AMOUNT_RE s = false.
Proof.
  intros H. destruct (search AMOUNT_RE s) eqn:E; [|reflexivity].
  apply search_iff in E. destruct E as (l & m1 & n & -> & Hm).
  apply amount_needs_digit in Hm.
  rewrite !forallb_app in H. apply andb_prop in H. destruct H as (_ & H).
  apply andb_prop in H. destruct H as (H & _).
  apply existsb_exists in Hm. destruct Hm as (c & Hin & Hc).
  rewrite forallb_forall in H. specialize (H c Hin). rewrite Hc in H. discriminate.
Qed.

Lemma ticker_wordy : wordy (Rep (Range "A" "Z") 1 (Some 5)) = true.
Proof. vm_compute. reflexivity. Qed.

Lemma buy_sell_wordy : wordy (alt [liti "buy"; liti "sell"]) = true.
Proof. vm_compute. reflexivity. Qed.

Lemma asset_quiet (A : regex) :
  fullmatch A (py "asset") = false -> quiet (fullmatch A) (py "[asset]").
Proof.
  intros H. apply (@quiet_bracketed (fullmatch A) "["%char "]"%char (py "asset"));
    try reflexivity; [discriminate| |exact H].
  repeat constructor.
Qed.

Lemma trade_quiet (A : regex) :
  fullmatch A (py "trade") = false -> quiet (fullmatch A) (py "trade").
Proof.
  intros H. apply quiet_word; [discriminate| |exact H]. repeat constructor.
Qed.

Example sanitize_rewrite_sample :
  _sanitize_rewrite (py "  Buy AAPL for $1,234.50 or sell IBM at 3.5, ABCDEF 12x BUY  ")
  = py "trade [asset] for [amount] or trade [asset] at [amount], ABCDEF [amount]x [asset]".
Proof. vm_compute. reflexivity. Qed.

(* ================================================================== *)
(** ** Worked cases *)
(* ================================================================== *)

Example route_education :
  route (py "How do ETFs work?")
  = {| action := ALLOW; reason := py "general_education"; rewrite := None |}.
Proof. vm_compute. reflexivity. Qed.

Example route_advice :
  route (py "What should I invest in?")
  = {| action := TRANSFORM; reason := py "asset_recommendation";
       rewrite := Some REWRITE_DEFAULT |}.
Proof. vm_compute. reflexivity. Qed.

Example route_allocation :
  route (py "I have $10,000, how should I allocate it?")
  = {| action := TRANSFORM; reason := py "portfolio_allocation";
       rewrite := Some REWRITE_ALLOCATION |}.
Proof. vm_compute. reflexivity. Qed.

Example route_illegal :
  route (py "How do I launder money?")
  = {| action := REFUSE; reason := py "illegal_financial"; rewrite := None |}.
Proof. vm_compute. reflexivity. Qed.

Example validate_all_duplicate :
  validate_all_conceptcards [Samples.good_raw; Samples.noted_raw]
  = Err (DuplicateId (py "credit_score")).
Proof. vm_compute. reflexivity. Qed.

Example validate_all_single :
  validate_all_conceptcards [Samples.good_raw] = Ok [Samples.good_card].
Proof. vm_compute. reflexivity. Qed.

Example validate_vague :
  validate_conceptcard (VDict Samples.vague_dict)
  = Err (FieldError (py "credit_score") (py "non_goals")
           (py "must explicitly block advice/recommendation/optimization scope")).
Proof. vm_compute. reflexivity. Qed.

(* ================================================================== *)
(** ** More on validated cards *)
(* ================================================================== *)

Lemma clean_str_stored (item : raw_value) (out : str) : clean_str item out -> stored out.
Proof.
  intros (s & _ & He & Hp & ->). exists s. split; [exact He|].
  split; [apply no_placeholder_strip; exact Hp|reflexivity].
Qed.

Lemma clean_strs_stored (items : list raw_value) (out : list str) :
  Forall2 clean_str items out -> Forall stored out.
Proof.
  induction 1 as [|item o items out Hc HF IH]; constructor; auto.
  exact (clean_str_stored Hc).
Qed.

Lemma nonblank_str_nonempty (v : option raw_value) (s : str) :
  nonblank_str v = Some s -> is_empty (strip s) = false.
Proof.
  destruct v as [[ | | |s'| | ]|]; try discriminate. simpl.
  destruct (is_empty (strip s')) eqn:E; [discriminate|]. intros H. injection H as <-. exact E.
Qed.

Lemma clean_examples_stored (items : list raw_value) (out : list ConceptExample) :
  Forall2 clean_example items out ->
  Forall stored (flat_map (fun e => [scenario e; explanation e]) out).
Proof.
  induction 1 as [|ex e items out Hc HF IH]; simpl; [constructor|].
  destruct Hc as (exd & sc & expl & _ & Hsc & Hex & P1 & P2 & ->). simpl.
  apply nonblank_str_nonempty in Hsc, Hex.
  constructor; [exists sc; auto using no_placeholder_strip|].
  constructor; [exists expl; auto using no_placeholder_strip|]. exact IH.
Qed.

(** Every string of a validated card is the stripped form of a non-blank
    text without placeholder markup. *)
Lemma card_strings_stored (raw : raw_value) (card : ConceptCard) :
  validate_conceptcard raw = Ok card -> Forall stored (card_strings card).
Proof.
  intros H. apply validate_conceptcard_ok_iff in H.
  destruct H as (d & -> & H). cbv zeta in H.
  destruct H as (Hid & Hti & _ & _ & Hsu & Hco & Hmi & Hno & Hex & _ & Hme & _).
  apply _require_str_ok in Hid, Hti.
  apply _require_list_of_str_ok in Hsu, Hco, Hmi, Hno.
  apply _require_examples_ok in Hex. apply _require_metadata_ok in Hme.
  destruct Hid as (i1 & _ & Hid), Hti as (i2 & _ & Hti).
  destruct Hsu as (l1 & _ & Hsu & _), Hco as (l2 & _ & Hco & _).
  destruct Hmi as (l3 & _ & Hmi & _), Hno as (l4 & _ & Hno & _).
  destruct Hex as (l5 & _ & Hex).
  destruct Hme as (md & srcs & raw_lu & _ & _ & _ & Hso & Glu & Hlu & Plu & _).
  unfold card_strings.
  apply Forall_app; split.
  { constructor; [exact (clean_str_stored Hid)|].
    constructor; [exact (clean_str_stored Hti)|].
    constructor; [|constructor].
    exists raw_lu. split; [exact (nonblank_str_nonempty _ Glu)|]. split; assumption. }
  apply Forall_app; split; [exact (clean_strs_stored Hsu)|].
  apply Forall_app; split; [exact (clean_strs_stored Hco)|].
  apply Forall_app; split; [exact (clean_strs_stored Hmi)|].
  apply Forall_app; split; [exact (clean_strs_stored Hno)|].
  apply Forall_app; split; [exact (clean_strs_stored Hso)|].
  exact (clean_examples_stored Hex).
Qed.

Lemma stored_nonempty (out : str) : stored out -> out <> [].
Proof. intros (s & He & _ & ->) E. rewrite E in He. discriminate. Qed.

(** X1: no string stored in a validated card is empty, and none holds
    placeholder markup. *)
Theorem validated_card_strings_filled (raw : raw_value) (card : ConceptCard) :
  validate_conceptcard raw = Ok card ->
  Forall (fun s => s <> [] /\ search _PLACEHOLDER_RE s = false) (card_strings card).
Proof.
  intros H. apply card_strings_stored in H.
  apply Forall_impl with (2 := H). intros out Hs. split.
  - exact (stored_nonempty Hs).
  - destruct Hs as (s & _ & Hp & ->). exact Hp.
Qed.

Lemma validated_card_strings_filled_witness :
  validate_conceptcard Samples.good_raw = Ok Samples.good_card /\
  Forall (fun s => s <> [] /\ search _PLACEHOLDER_RE s = false)
         (card_strings Samples.good_card).
Proof.
  split; [vm_compute; reflexivity|].
  apply (@validated_card_strings_filled Samples.good_raw Samples.good_card).
  vm_compute; reflexivity.
Defined.

Lemma range_az (x : ascii) : cmatch (Range "a" "z") x = is_lower_az x.
Proof. reflexivity. Qed.

Lemma id_class (x : ascii) :
  cmatch (Or (Range "a" "z") (Or (Range "0" "9") (Char "_"))) x = is_id_char x.
Proof. destruct x as [[] [] [] [] [] [] [] []]; vm_compute; reflexivity. Qed.

(** X2: the id of a validated card is a lowercase letter followed by
    lowercase letters, digits and underscores only. *)
Theorem validated_id_shape (raw : raw_value) (card : ConceptCard) :
  validate_conceptcard raw = Ok card ->
  exists c rest,
    id card = c :: rest /\ is_lower_az c = true /\ forallb is_id_char rest = true.
Proof.
  intros H. apply validate_conceptcard_ok_iff in H.
  destruct H as (d & -> & H). cbv zeta in H.
  destruct H as (_ & _ & _ & _ & _ & _ & _ & _ & _ & _ & _ & _ & Hre).
  apply fullmatch_iff in Hre. simpl in Hre.
  destruct Hre as (a & b & E & (c & -> & Hc) & HF & _).
  exists c, b. split; [exact E|]. split; [exact Hc|].
  apply forallb_forall. rewrite Forall_forall in HF.
  intros x Hx. rewrite <- id_class. apply HF. exact Hx.
Qed.

Lemma validated_id_shape_witness :
  validate_conceptcard Samples.good_raw = Ok Samples.good_card /\
  exists c rest,
    id Samples.good_card = c :: rest /\ is_lower_az c = true /\
    forallb is_id_char rest = true.
Proof.
  split; [vm_compute; reflexivity|].
  apply (@validated_id_shape Samples.good_raw Samples.good_card).
  vm_compute; reflexivity.
Defined.

Lemma times_digit (n : nat) (pw : bool) (a rest : str) :
  matches (times Digit n) pw a rest ->
  List.length a = n /\ forallb isdigit a = true.
Proof.
  simpl. intros (HF & Hlo & Hhi). split; [lia|].
  apply forallb_forall. rewrite Forall_forall in HF. exact HF.
Qed.

(** X3: the date of a validated card is four digits, a hyphen, two digits,
    a hyphen and two digits; nothing else is asked of it. *)
Theorem validated_date_shape (raw : raw_value) (card : ConceptCard) :
  validate_conceptcard raw = Ok card ->
  exists y m d,
    last_updated card = y ++ py "-" ++ m ++ py "-" ++ d /\
    List.length y = 4 /\ List.length m = 2 /\ List.length d = 2 /\
    forallb isdigit (y ++ m ++ d) = true.
Proof.
  intros H. apply validate_conceptcard_ok_iff in H.
  destruct H as (dd & -> & H). cbv zeta in H.
  destruct H as (_ & _ & _ & _ & _ & _ & _ & _ & _ & _ & Hme & _).
  apply _require_metadata_ok in Hme.
  destruct Hme as (md & srcs & raw_lu & _ & _ & _ & _ & _ & -> & _ & Hd).
  apply fullmatch_iff in Hd.
  change DATE_RE with
    (Seq (times Digit 4) (Seq (One (Char "-")) (Seq (times Digit 2)
       (Seq (One (Char "-")) (times Digit 2))))) in Hd.
  cbn [matches] in Hd.
  destruct Hd as (y & r1 & E1 & Hy & h1 & r2 & -> & (x1 & -> & Hx1)
                  & m & r3 & -> & Hm & h2 & d & -> & (x2 & -> & Hx2) & Hdd).
  apply times_digit in Hy, Hm, Hdd.
  destruct Hy as (Ly & Dy), Hm as (Lm & Dm), Hdd as (Ld & Dd).
  simpl in Hx1, Hx2. apply Ascii.eqb_eq in Hx1, Hx2. subst x1 x2.
  exists y, m, d. split; [exact E1|]. repeat split; try assumption.
  rewrite !forallb_app, Dy, Dm, Dd. reflexivity.
Qed.

Lemma validated_date_shape_witness :
  validate_conceptcard Samples.good_raw = Ok Samples.good_card /\
  exists y m d,
    last_updated Samples.good_card = y ++ py "-" ++ m ++ py "-" ++ d /\
    List.length y = 4 /\ List.length m = 2 /\ List.length d = 2 /\
    forallb isdigit (y ++ m ++ d) = true.
Proof.
  split; [vm_compute; reflexivity|].
  apply (@validated_date_shape Samples.good_raw Samples.good_card).
  vm_compute; reflexivity.
Defined.

Lemma nonblank_str_inv (v : option raw_value) (s : str) :
  nonblank_str v = Some s -> v = Some (VStr s).
Proof.
  destruct v as [[ | | |s'| | ]|]; try discriminate. simpl.
  destruct (is_empty (strip s')); [discriminate|]. intros H. injection H as <-. reflexivity.
Qed.

Lemma clean_strs_from_raw (d : dict) (key : str) (items : list raw_value)
      (out : list str) :
  get d key = Some (VList items) -> Forall2 clean_str items out ->
  exists strs, raw_strings d key strs /\ out = map strip strs.
Proof.
  intros G F. destruct (clean_strs_shape F) as (strs & -> & ->).
  exists strs. split; [exact G|reflexivity].
Qed.

Lemma clean_str_from_raw (d : dict) (key : str) (item : raw_value) (out : str) :
  get d key = Some item -> clean_str item out ->
  exists s, get d key = Some (VStr s) /\ out = strip s.
Proof. intros G (s & -> & _ & _ & ->). eauto. Qed.

(** X4: the texts of a validated card are those of the record, each
    stripped, in the record's order and with nothing left out. *)
Theorem validated_card_from_record (d : dict) (card : ConceptCard) :
  validate_conceptcard (VDict d) = Ok card ->
  (exists s, get d (py "id") = Some (VStr s) /\ id card = strip s) /\
  (exists s, get d (py "title") = Some (VStr s) /\ title card = strip s) /\
  (exists strs, raw_strings d (py "summary") strs /\ summary card = map strip strs) /\
  (exists strs, raw_strings d (py "core_mechanics") strs /\
                core_mechanics card = map strip strs) /\
  (exists strs, raw_strings d (py "misconceptions") strs /\
                misconceptions card = map strip strs) /\
  (exists strs, raw_strings d (py "non_goals") strs /\ non_goals card = map strip strs) /\
  (exists md strs s,
      get d (py "metadata") = Some (VDict md) /\
      raw_strings md (py "sources") strs /\ sources card = map strip strs /\
      get md (py "last_updated") = Some (VStr s) /\ last_updated card = strip s).
Proof.
  intros H. apply validate_conceptcard_ok_iff in H.
  destruct H as (d' & E & H). injection E as <-. cbv zeta in H.
  destruct H as (Hid & Hti & _ & _ & Hsu & Hco & Hmi & Hno & _ & _ & Hme & _).
  apply _require_str_ok in Hid, Hti.
  apply _require_list_of_str_ok in Hsu, Hco, Hmi, Hno.
  apply _require_metadata_ok in Hme.
  destruct Hid as (i1 & G1 & Hid), Hti as (i2 & G2 & Hti).
  destruct Hsu as (l1 & G3 & Hsu & _), Hco as (l2 & G4 & Hco & _).
  destruct Hmi as (l3 & G5 & Hmi & _), Hno as (l4 & G6 & Hno & _).
  destruct Hme as (md & srcs & raw_lu & Gm & Gs & _ & Hso & Glu & Hlu & _).
  split; [exact (clean_str_from_raw _ _ G1 Hid)|].
  split; [exact (clean_str_from_raw _ _ G2 Hti)|].
  split; [exact (clean_strs_from_raw _ _ G3 Hsu)|].
  split; [exact (clean_strs_from_raw _ _ G4 Hco)|].
  split; [exact (clean_strs_from_raw _ _ G5 Hmi)|].
  split; [exact (clean_strs_from_raw _ _ G6 Hno)|].
  destruct (clean_strs_from_raw _ _ Gs Hso) as (strs & Rs & Es).
  exists md, strs, raw_lu. repeat split; auto.
  apply nonblank_str_inv. exact Glu.
Qed.

Lemma validated_card_from_record_witness :
  validate_conceptcard (VDict Samples.good_dict) = Ok Samples.good_card /\
  exists strs, raw_strings Samples.good_dict (py "summary") strs /\
               summary Samples.good_card = map strip strs.
Proof.
  split; [vm_compute; reflexivity|].
  apply (@validated_card_from_record Samples.good_dict Samples.good_card).
  vm_compute; reflexivity.
Defined.

(** X5: in a validated card the lists [summary], [core_mechanics],
    [misconceptions], [non_goals] and [sources] each have an element. *)
Theorem validated_lists_nonempty (raw : raw_value) (card : ConceptCard) :
  validate_conceptcard raw = Ok card ->
  summary card <> [] /\ core_mechanics card <> [] /\ misconceptions card <> [] /\
  non_goals card <> [] /\ sources card <> [].
Proof.
  intros H. apply validate_conceptcard_ok_iff in H.
  destruct H as (d & -> & H). cbv zeta in H.
  destruct H as (_ & _ & _ & _ & Hsu & Hco & Hmi & Hno & _ & _ & Hme & _).
  apply _require_list_of_str_ok in Hsu, Hco, Hmi, Hno.
  apply _require_metadata_ok in Hme.
  destruct Hsu as (l1 & _ & _ & N1), Hco as (l2 & _ & _ & N2).
  destruct Hmi as (l3 & _ & _ & N3), Hno as (l4 & _ & _ & N4).
  destruct Hme as (md & srcs & raw_lu & _ & _ & Hne & Hso & _).
  repeat split; try (intros E; rewrite E in *; simpl in *; lia).
  intros E. rewrite E in Hso. inversion Hso. subst. contradiction.
Qed.

Lemma validated_lists_nonempty_witness :
  validate_conceptcard Samples.good_raw = Ok Samples.good_card /\
  (summary Samples.good_card <> [] /\ core_mechanics Samples.good_card <> [] /\
   misconceptions Samples.good_card <> [] /\ non_goals Samples.good_card <> [] /\
   sources Samples.good_card <> []).
Proof.
  split; [vm_compute; reflexivity|].
  apply (@validated_lists_nonempty Samples.good_raw Samples.good_card).
  vm_compute; reflexivity.
Defined.

(** X6: no element of the summary of a validated card has the standalone
    word you, your, yours or yourself, in any letter case. *)
Theorem validated_summary_impersonal (raw : raw_value) (card : ConceptCard) :
  validate_conceptcard raw = Ok card ->
  Forall (fun s => search _SECOND_PERSON_RE s = false) (summary card).
Proof.
  intros H. apply validate_conceptcard_ok_iff in H.
  destruct H as (d & -> & H). cbv zeta in H.
  destruct H as (_ & _ & _ & _ & Hsu & _ & _ & _ & _ & _ & _ & Hh & _).
  apply _require_list_of_str_ok in Hsu. apply _education_only_heuristics_ok in Hh.
  destruct Hsu as (l1 & G1 & F1 & _). destruct Hh as (Hsp & _).
  pose proof (no_second_person_again F1 (Hsp _ G1)) as N.
  unfold no_second_person in N. rewrite Forall_map in N.
  apply Forall_impl with (2 := N). intros s Hs. apply Hs. reflexivity.
Qed.

Lemma validated_summary_impersonal_witness :
  validate_conceptcard Samples.good_raw = Ok Samples.good_card /\
  Forall (fun s => search _SECOND_PERSON_RE s = false) (summary Samples.good_card).
Proof.
  split; [vm_compute; reflexivity|].
  apply (@validated_summary_impersonal Samples.good_raw Samples.good_card).
  vm_compute; reflexivity.
Defined.

(** X7: each of the eleven top-level keys is required: a mapping that
    lacks one of them does not validate. *)
Theorem missing_key_rejected (d : dict) (key : str) :
  In key required_keys -> get d key = None ->
  exists e, validate_conceptcard (VDict d) = Err e.
Proof.
  intros Hk Hg.
  destruct (validate_conceptcard (VDict d)) as [card|e] eqn:V; [|eauto].
  exfalso. apply validate_conceptcard_ok_iff in V.
  destruct V as (d' & E & H). injection E as <-. cbv zeta in H.
  destruct H as (Hid & Hti & Hca & Hdi & Hsu & Hco & Hmi & Hno & Hex & Hsa & Hme & _).
  apply _require_str_ok in Hid, Hti.
  apply _require_enum_ok in Hca, Hdi.
  destruct Hca as (s1 & Hca & _), Hdi as (s2 & Hdi & _).
  apply _require_str_ok in Hca, Hdi.
  apply _require_list_of_str_ok in Hsu, Hco, Hmi, Hno.
  apply _require_examples_ok in Hex. apply _require_safety_ok_iff in Hsa.
  apply _require_metadata_ok in Hme.
  destruct Hid as (? & G1 & _), Hti as (? & G2 & _).
  destruct Hca as (? & G3 & _), Hdi as (? & G4 & _).
  destruct Hsu as (? & G5 & _), Hco as (? & G6 & _).
  destruct Hmi as (? & G7 & _), Hno as (? & G8 & _).
  destruct Hex as (? & G9 & _).
  destruct Hsa as (? & ? & ? & G10 & _).
  destruct Hme as (? & ? & ? & G11 & _).
  unfold required_keys in Hk. cbn [In] in Hk.
  repeat (destruct Hk as [<-|Hk]; [congruence|]). exact Hk.
Qed.

Lemma missing_key_rejected_witness :
  In (py "title") required_keys /\ get Samples.untitled_dict (py "title") = None /\
  exists e, validate_conceptcard (VDict Samples.untitled_dict) = Err e.
Proof.
  split; [simpl; auto|]. split; [reflexivity|].
  apply (@missing_key_rejected Samples.untitled_dict (py "title"));
    [simpl; auto|reflexivity].
Defined.

(** X8: when [id] is absent, is not a string or is blank, the error is
    addressed to the card id [<missing-id>] and to the field [id]. *)
Theorem bad_id_error (d : dict) :
  (get d (py "id") = None ->
   validate_conceptcard (VDict d)
   = Err (FieldError (py "<missing-id>") (py "id") (py "missing required field"))) /\
  (forall v, get d (py "id") = Some v -> nonblank_str (Some v) = None ->
   validate_conceptcard (VDict d)
   = Err (FieldError (py "<missing-id>") (py "id") (py "must be a non-empty string"))).
Proof.
  split.
  - intros G. unfold validate_conceptcard, _card_id_for_errors, _require_str, _require_key.
    rewrite G. reflexivity.
  - intros v G N.
    unfold validate_conceptcard, _card_id_for_errors, _require_str, _require_key.
    rewrite G. cbn [bind].
    destruct v as [ | | |s| | ]; try reflexivity.
    simpl in N. destruct (is_empty (strip s)); [reflexivity|discriminate].
Qed.

Lemma enum_call_value (A : Type) (E : PyEnum A) (v : str) (e : A) :
  enum_call v = Some e -> value e = v.
Proof.
  unfold enum_call. intros H. apply find_some in H. destruct H as (_ & H).
  unfold str_eqb in H. destruct (list_eq_dec ascii_dec (value e) v); [assumption|discriminate].
Qed.

(** X9: decoding an enum member's value gives the member back, and a
    string decodes only to the member whose value it is, for each of
    [Category], [Difficulty] and [Intent]. *)
Theorem _to_enum_roundtrip (card_id field : str) :
  (forall (v : str) (e : Category), _to_enum card_id field v = Ok e <-> v = value e) /\
  (forall (v : str) (e : Difficulty), _to_enum card_id field v = Ok e <-> v = value e) /\
  (forall (v : str) (e : Intent), _to_enum card_id field v = Ok e <-> v = value e).
Proof.
  assert (G : forall (A : Type) (E : PyEnum A),
             (forall e : A, enum_call (value e) = Some e) ->
             forall v e, _to_enum card_id field v = Ok e <-> v = value e).
  { intros A E Hall v e. rewrite _to_enum_ok. split.
    - intros H. symmetry. eapply enum_call_value; eauto.
    - intros ->. apply Hall. }
  split; [|split]; apply G; intros e; destruct e; vm_compute; reflexivity.
Qed.

Lemma clean_intents_values (l : list str) (out : list Intent) :
  Forall2 clean_intent l out -> map value out = map strip l.
Proof.
  induction 1 as [|s e l out (_ & _ & Hd) HF IH]; cbn [map]; [reflexivity|].
  f_equal; [eapply enum_call_value; eauto | exact IH].
Qed.

(** X10: the category, the difficulty and the intents of a validated card
    are the members whose values are the record's strings, stripped; the
    intent lists keep the record's order and repetitions. *)
Theorem validated_enums_from_record (d : dict) (card : ConceptCard) :
  validate_conceptcard (VDict d) = Ok card ->
  (exists s, get d (py "category") = Some (VStr s) /\ value (category card) = strip s) /\
  (exists s, get d (py "difficulty") = Some (VStr s) /\
             value (difficulty card) = strip s) /\
  (exists sd araw fraw,
      get d (py "safety") = Some (VDict sd) /\
      list_of_strs (get sd (py "allowed_intents")) = Some araw /\
      list_of_strs (get sd (py "forbidden_intents")) = Some fraw /\
      map value (allowed_intents card) = map strip araw /\
      map value (forbidden_intents card) = map strip fraw).
Proof.
  intros H. apply validate_conceptcard_ok_iff in H.
  destruct H as (d' & E & H). injection E as <-. cbv zeta in H.
  destruct H as (_ & _ & Hca & Hdi & _ & _ & _ & _ & _ & Hsa & _).
  apply _require_enum_ok in Hca, Hdi.
  destruct Hca as (s1 & Hca & D1), Hdi as (s2 & Hdi & D2).
  apply _require_str_ok in Hca, Hdi. apply _require_safety_ok_iff in Hsa.
  destruct Hca as (i1 & G1 & C1), Hdi as (i2 & G2 & C2).
  destruct Hsa as (sd & araw & fraw & Gs & Ga & Gf & Fa & Ff & _).
  apply enum_call_value in D1, D2.
  destruct (clean_str_from_raw _ _ G1 C1) as (r1 & Gr1 & ->).
  destruct (clean_str_from_raw _ _ G2 C2) as (r2 & Gr2 & ->).
  split; [eauto|]. split; [eauto|].
  exists sd, araw, fraw. repeat split; auto using clean_intents_values.
Qed.

Lemma validated_enums_from_record_witness :
  validate_conceptcard (VDict Samples.good_dict) = Ok Samples.good_card /\
  exists s, get Samples.good_dict (py "category") = Some (VStr s) /\
            value (category Samples.good_card) = strip s.
Proof.
  split; [vm_compute; reflexivity|].
  apply (@validated_enums_from_record Samples.good_dict Samples.good_card).
  vm_compute; reflexivity.
Defined.

(* ================================================================== *)
(** ** Every validation error is addressed to the card *)
(* ================================================================== *)

Lemma bind_err (A B : Type) (x : result A) (f : A -> result B) (e : error) :
  bind x f = Err e -> x = Err e \/ exists a, x = Ok a /\ f a = Err e.
Proof.
  destruct x as [a|e0]; simpl; intros H; [right; eauto|].
  left. injection H as ->. reflexivity.
Qed.

Lemma _raise_addressed (A : Type) (card_id field msg : str) (e : error) :
  @_raise A card_id field msg = Err e -> addressed_to card_id e.
Proof. unfold _raise. intros H. injection H as <-. exists field, msg. reflexivity. Qed.

Ltac addressed :=
  repeat match goal with
    | H : _raise _ _ _ = Err _ |- _ => exact (_raise_addressed H)
    | H : Ok _ = Err _ |- _ => discriminate H
    | H : bind _ _ = Err _ |- _ =>
        apply bind_err in H; destruct H as [H|(? & ? & H)]
    | H : (if ?c then _ else _) = Err _ |- _ => destruct c
    | H : (let (_, _) := ?p in _) = Err _ |- _ => destruct p
    | H : match ?x with _ => _ end = Err _ |- _ => destruct x
    end.

Lemma _require_key_addressed (d : dict) (card_id key : str) (e : error) :
  _require_key d card_id key = Err e -> addressed_to card_id e.
Proof. unfold _require_key. intros H. addressed. Qed.

Lemma _require_str_addressed (d : dict) (card_id key : str) (e : error) :
  _require_str d card_id key = Err e -> addressed_to card_id e.
Proof.
  unfold _require_str. intros H. addressed; eauto using _require_key_addressed.
Qed.

Lemma list_of_str_loop_addressed (card_id key : str) (items : list raw_value) :
  forall i e, list_of_str_loop card_id key i items = Err e -> addressed_to card_id e.
Proof.
  induction items as [|item items IH]; intros i e H; cbn [list_of_str_loop] in H;
    addressed; eauto.
Qed.

Lemma _require_list_of_str_addressed (d : dict) (card_id key : str) (n : nat) (e : error) :
  _require_list_of_str d card_id key n = Err e -> addressed_to card_id e.
Proof.
  unfold _require_list_of_str. intros H.
  addressed; eauto using _require_key_addressed, list_of_str_loop_addressed.
Qed.

Lemma _to_enum_addressed (A : Type) (E : PyEnum A) (card_id field v : str) (e : error) :
  @_to_enum A E card_id field v = Err e -> addressed_to card_id e.
Proof. unfold _to_enum. intros H. addressed. Qed.

Lemma _require_enum_addressed (A : Type) (E : PyEnum A) (d : dict)
      (card_id key : str) (e : error) :
  @_require_enum A E d card_id key = Err e -> addressed_to card_id e.
Proof.
  unfold _require_enum. intros H.
  addressed; eauto using _require_str_addressed, _to_enum_addressed.
Qed.

Lemma examples_loop_addressed (card_id : str) (items : list raw_value) :
  forall i e, examples_loop card_id i items = Err e -> addressed_to card_id e.
Proof.
  induction items as [|ex items IH]; intros i e H;
    cbn -[nonblank_str search strip get py _PLACEHOLDER_RE] in H; addressed; eauto.
Qed.

Lemma _require_examples_addressed (d : dict) (card_id : str) (e : error) :
  _require_examples d card_id = Err e -> addressed_to card_id e.
Proof.
  unfold _require_examples. intros H.
  addressed; eauto using _require_key_addressed, examples_loop_addressed.
Qed.

Lemma intents_loop_addressed (card_id field : str) (l : list str) :
  forall i e, intents_loop card_id field i l = Err e -> addressed_to card_id e.
Proof.
  induction l as [|s l IH]; intros i e H; cbn [intents_loop] in H;
    addressed; eauto using _to_enum_addressed.
Qed.

Lemma _require_safety_addressed (d : dict) (card_id : str) (e : error) :
  _require_safety d card_id = Err e -> addressed_to card_id e.
Proof.
  unfold _require_safety. intros H.
  addressed; eauto using _require_key_addressed, intents_loop_addressed.
Qed.

Lemma sources_loop_addressed (card_id : str) (items : list raw_value) :
  forall i e, sources_loop card_id i items = Err e -> addressed_to card_id e.
Proof.
  induction items as [|item items IH]; intros i e H; cbn [sources_loop] in H;
    addressed; eauto.
Qed.

Lemma _require_metadata_addressed (d : dict) (card_id : str) (e : error) :
  _require_metadata d card_id = Err e -> addressed_to card_id e.
Proof.
  unfold _require_metadata. intros H.
  addressed; eauto using _require_key_addressed, sources_loop_addressed.
Qed.

Lemma second_person_loop_addressed (card_id : str) (items : list raw_value) :
  forall i e, second_person_loop card_id i items = Err e -> addressed_to card_id e.
Proof.
  induction items as [|item items IH]; intros i e H; cbn [second_person_loop] in H;
    addressed; eauto.
Qed.

Lemma placeholder_sweep_addressed (card_id : str) (d : dict) (e : error) :
  placeholder_sweep card_id d = Err e -> addressed_to card_id e.
Proof.
  induction d as [|[key v] d IH]; intros H; cbn [placeholder_sweep] in H;
    addressed; eauto.
Qed.

Lemma _education_only_heuristics_addressed (card_id : str) (d : dict) (e : error) :
  _education_only_heuristics card_id d = Err e -> addressed_to card_id e.
Proof.
  unfold _education_only_heuristics. intros H.
  addressed; eauto using second_person_loop_addressed, placeholder_sweep_addressed.
Qed.

(** X11: a value that is not a mapping is refused as such; every other
    failure of [validate_conceptcard] is a field-addressed error that
    carries the record's id, or [<missing-id>] when the id is unusable. *)
Theorem validation_errors_addressed (raw : raw_value) (e : error) :
  validate_conceptcard raw = Err e ->
  match raw with
  | VDict d => addressed_to (_card_id_for_errors d) e
  | _ => e = NotADict
  end.
Proof.
  intros H. destruct raw as [ | | | | |d]; try (injection H as <-; reflexivity).
  unfold validate_conceptcard in H.
  addressed;
    eauto using _require_str_addressed, _require_enum_addressed,
      _require_list_of_str_addressed, _require_examples_addressed,
      _require_safety_addressed, _require_metadata_addressed,
      _education_only_heuristics_addressed;
    match goal with
    | H : _require_enum _ _ _ = Err _ |- _ =>
        apply _require_enum_addressed in H; exact H
    end.
Qed.

Lemma validation_errors_addressed_witness :
  validate_conceptcard (VDict Samples.untitled_dict)
    = Err (FieldError (py "credit_score") (py "title") (py "missing required field")) /\
  addressed_to (_card_id_for_errors Samples.untitled_dict)
    (FieldError (py "credit_score") (py "title") (py "missing required field")).
Proof.
  split; [vm_compute; reflexivity|].
  apply (@validation_errors_addressed (VDict Samples.untitled_dict)).
  vm_compute; reflexivity.
Defined.

(* ================================================================== *)
(** ** What a validated corpus is *)
(* ================================================================== *)

Lemma validate_all_loop_inv (raws : list raw_value) :
  forall cards seen out,
  validate_all_loop raws cards seen = Ok out ->
  exists cs, out = cards ++ cs /\ Forall2 validates raws cs /\
             NoDup (map id cs) /\ forall c, In c cs -> ~ In (id c) seen.
Proof.
  induction raws as [|raw raws IH]; intros cards seen out H; simpl in H.
  - injection H as <-. exists []. rewrite app_nil_r.
    repeat split; try constructor. intros c [].
  - inv_bind H.
    destruct (existsb (str_eqb (id a)) seen) eqn:S; [discriminate|].
    apply seen_not_In in S. apply IH in H.
    destruct H as (cs & -> & HF & Hnd & Hseen).
    exists (a :: cs). rewrite <- app_assoc. split; [reflexivity|].
    split; [constructor; [exact E|exact HF]|].
    split.
    + simpl. constructor; [|exact Hnd].
      intros Hin. apply in_map_iff in Hin. destruct Hin as (c & Ec & Hc).
      apply (Hseen c Hc). left. symmetry. exact Ec.
    + intros c [<-|Hc]; [exact S|].
      intros Hin. apply (Hseen c Hc). right. exact Hin.
Qed.

(** X12: the corpus validator returns a list exactly when every record
    validates and the ids are pairwise distinct; the list then holds the
    records' cards, one per record, in input order. *)
Theorem validate_all_conceptcards_ok_iff (raw_cards : list raw_value)
        (cards : list ConceptCard) :
  validate_all_conceptcards raw_cards = Ok cards <->
  Forall2 validates raw_cards cards /\ NoDup (map id cards).
Proof.
  unfold validate_all_conceptcards. split.
  - intros H. apply validate_all_loop_inv in H.
    destruct H as (cs & -> & HF & Hnd & _). auto.
  - intros (HF & Hnd). rewrite <- (app_nil_r raw_cards).
    rewrite (validate_all_loop_prefix [] HF [] [] Hnd); [reflexivity|].
    intros c _ [].
Qed.

(* ================================================================== *)
(** ** Lowercasing a text and searching it *)
(* ================================================================== *)

Lemma lower_char_word (x : ascii) : isword (lower_char x) = isword x.
Proof. destruct x as [[] [] [] [] [] [] [] []]; vm_compute; reflexivity. Qed.

Lemma lower_char_space (x : ascii) : isspace (lower_char x) = isspace x.
Proof. destruct x as [[] [] [] [] [] [] [] []]; vm_compute; reflexivity. Qed.

Lemma lower_char_idem (x : ascii) : lower_char (lower_char x) = lower_char x.
Proof. destruct x as [[] [] [] [] [] [] [] []]; vm_compute; reflexivity. Qed.

Lemma lower_idem (s : str) : lower (lower s) = lower s.
Proof.
  unfold lower. rewrite map_map. apply map_ext. apply lower_char_idem.
Qed.

Lemma hw_lower (n : str) : hw (lower n) = hw n.
Proof. destruct n as [|x n]; [reflexivity|]. simpl. apply lower_char_word. Qed.

Lemma lw_lower (a : str) : forall pw, lw pw (lower a) = lw pw a.
Proof.
  induction a as [|x a IH]; intros pw; [reflexivity|].
  change (lower (x :: a)) with (lower_char x :: lower a).
  rewrite !lw_cons, lower_char_word. apply IH.
Qed.

Lemma cs_caseblind_sound (cs : cset) (x : ascii) :
  cs_caseblind cs = true -> cmatch cs (lower_char x) = cmatch cs x.
Proof.
  unfold cs_caseblind. rewrite forallb_forall. intros H.
  specialize (H x (all_chars_complete x)). apply Bool.eqb_prop in H. exact H.
Qed.

Lemma matches_lower (r : regex) :
  caseblind r = true ->
  forall pw m1 n, matches r pw m1 n -> matches r pw (lower m1) (lower n).
Proof.
  induction r as [ |cs| |r1 IH1 r2 IH2|r1 IH1 r2 IH2|cs lo hi];
    simpl; intros Hc pw m1 n H.
  - subst. reflexivity.
  - destruct H as (x & -> & Hx). exists (lower_char x). split; [reflexivity|].
    rewrite cs_caseblind_sound; assumption.
  - destruct H as (-> & Hb). split; [reflexivity|]. rewrite hw_lower. exact Hb.
  - apply andb_prop in Hc. destruct Hc as (H1 & H2).
    destruct H as (a & b & -> & Ha & Hb). exists (lower a), (lower b).
    split; [apply lower_app|]. split.
    + rewrite <- lower_app. apply IH1; assumption.
    + rewrite lw_lower. apply IH2; assumption.
  - apply andb_prop in Hc. destruct Hc as (H1 & H2). destruct H; [left|right]; auto.
  - destruct H as (HF & Hlo & Hhi). unfold lower. rewrite length_map.
    split; [|auto]. apply Forall_map. apply Forall_impl with (2 := HF).
    intros x Hx. rewrite cs_caseblind_sound; assumption.
Qed.

Lemma matches_unlower (r : regex) :
  caseblind r = true ->
  forall pw m1 n, matches r pw (lower m1) (lower n) -> matches r pw m1 n.
Proof.
  induction r as [ |cs| |r1 IH1 r2 IH2|r1 IH1 r2 IH2|cs lo hi];
    simpl; intros Hc pw m1 n H.
  - destruct m1; [reflexivity|discriminate].
  - destruct H as (x' & E & Hx). destruct m1 as [|x [|y m1]]; try discriminate.
    injection E as <-. exists x. split; [reflexivity|].
    rewrite <- (@cs_caseblind_sound cs x Hc). exact Hx.
  - destruct H as (E & Hb). split; [destruct m1; [reflexivity|discriminate]|].
    rewrite <- hw_lower. exact Hb.
  - apply andb_prop in Hc. destruct Hc as (H1 & H2).
    destruct H as (a & b & E & Ha & Hb).
    apply map_eq_app in E. destruct E as (a' & b' & -> & <- & <-).
    exists a', b'. split; [reflexivity|]. split.
    + apply IH1; [assumption|]. rewrite lower_app. exact Ha.
    + apply IH2; [assumption|]. rewrite <- (lw_lower a'). exact Hb.
  - apply andb_prop in Hc. destruct Hc as (H1 & H2). destruct H; [left|right]; auto.
  - destruct H as (HF & Hlo & Hhi). unfold lower in *. rewrite length_map in *.
    split; [|auto]. apply Forall_map in HF. apply Forall_impl with (2 := HF).
    intros x Hx. rewrite <- (@cs_caseblind_sound cs x Hc). exact Hx.
Qed.

Lemma has_match_lower (r : regex) (s : str) :
  caseblind r = true -> (has_match r false (lower s) <-> has_match r false s).
Proof.
  intros Hc. split.
  - intros (l & m1 & n & E & H).
    apply map_eq_app in E. destruct E as (l' & t & -> & <- & E).
    apply map_eq_app in E. destruct E as (m' & n' & -> & <- & <-).
    exists l', m', n'. split; [reflexivity|].
    apply matches_unlower; [assumption|]. rewrite <- (lw_lower l'). exact H.
  - intros (l & m1 & n & -> & H). exists (lower l), (lower m1), (lower n).
    split; [rewrite !lower_app; reflexivity|].
    rewrite lw_lower. apply matches_lower; assumption.
Qed.

Lemma search_lower (r : regex) (s : str) :
  caseblind r = true -> search r (lower s) = search r s.
Proof.
  intros Hc. destruct (search r s) eqn:E.
  - apply search_iff. apply (proj2 (@has_match_lower r s Hc)). apply search_iff. exact E.
  - destruct (search r (lower s)) eqn:E'; [|reflexivity].
    apply search_iff in E'. apply (proj1 (@has_match_lower r s Hc)) in E'.
    apply search_iff in E'. congruence.
Qed.

Lemma lstrip_lower (s : str) : lstrip (lower s) = lower (lstrip s).
Proof.
  induction s as [|c s IH]; [reflexivity|].
  change (lower (c :: s)) with (lower_char c :: lower s).
  cbn [lstrip]. rewrite lower_char_space. destruct (isspace c); [exact IH|reflexivity].
Qed.

Lemma rev_lower (s : str) : rev (lower s) = lower (rev s).
Proof. unfold lower. symmetry. apply map_rev. Qed.

Lemma strip_lower (s : str) : strip (lower s) = lower (strip s).
Proof.
  unfold strip, rstrip. rewrite lstrip_lower, rev_lower, lstrip_lower, rev_lower.
  reflexivity.
Qed.

Lemma search_strip_eq (r : regex) (s : str) :
  solid r = true -> search r (strip s) = search r s.
Proof.
  intros Hs. destruct (search r s) eqn:E.
  - apply search_strip; assumption.
  - apply search_strip_back. exact E.
Qed.

Lemma _matches_any_ext (patterns : list regex) (s t : str) :
  (forall p, In p patterns -> search p s = search p t) ->
  _matches_any patterns s = _matches_any patterns t.
Proof.
  unfold _matches_any. induction patterns as [|p ps IH]; intros H; [reflexivity|].
  simpl. rewrite (H p (or_introl eq_refl)). f_equal. apply IH.
  intros q Hq. apply H. right. exact Hq.
Qed.

Lemma steady_strip (patterns : list regex) (s : str) :
  steady patterns = true -> _matches_any patterns (strip s) = _matches_any patterns s.
Proof.
  unfold steady. intros H. apply andb_prop in H. destruct H as (H & _).
  rewrite forallb_forall in H. apply _matches_any_ext.
  intros p Hp. apply search_strip_eq. auto.
Qed.

Lemma steady_lower (patterns : list regex) (s : str) :
  steady patterns = true -> _matches_any patterns (lower s) = _matches_any patterns s.
Proof.
  unfold steady. intros H. apply andb_prop in H. destruct H as (_ & H).
  rewrite forallb_forall in H. apply _matches_any_ext.
  intros p Hp. apply search_lower. auto.
Qed.

Lemma illegal_steady : steady _ILLEGAL_PATTERNS = true.
Proof. vm_compute. reflexivity. Qed.

Lemma advice_steady : steady _ADVICE_PATTERNS = true.
Proof. vm_compute. reflexivity. Qed.

Lemma allocation_steady : steady _ALLOCATION_PATTERNS = true.
Proof. vm_compute. reflexivity. Qed.

Lemma timing_steady : steady _TIMING_PATTERNS = true.
Proof. vm_compute. reflexivity. Qed.

(* ================================================================== *)
(** ** The router decides by what the text matches *)
(* ================================================================== *)

Lemma _matches_any_nil (patterns : list regex) :
  steady patterns = true -> _matches_any patterns [] = false.
Proof.
  unfold steady. intros H. apply andb_prop in H. destruct H as (H & _).
  rewrite forallb_forall in H. unfold _matches_any.
  destruct (existsb (fun p => search p []) patterns) eqn:E; [|reflexivity].
  apply existsb_exists in E. destruct E as (p & Hp & Hs).
  apply search_iff in Hs. destruct Hs as (l & m1 & n & E & Hm).
  destruct (solid_sound _ _ _ _ (H p Hp) Hm) as (Hf & _).
  destruct l; [|discriminate]. destruct m1; [contradiction|discriminate].
Qed.

Lemma _safe_rewrite_for_advice_by_matches (original : str) :
  _safe_rewrite_for_advice original
  = rewrite_for (_matches_any _TIMING_PATTERNS (lower original))
                (_matches_any _ALLOCATION_PATTERNS (lower original)).
Proof.
  unfold _safe_rewrite_for_advice, rewrite_for. cbv zeta.
  rewrite <- strip_lower.
  rewrite (@steady_strip _TIMING_PATTERNS _ timing_steady).
  rewrite (@steady_strip _ALLOCATION_PATTERNS _ allocation_steady).
  reflexivity.
Qed.

Lemma lower_spaces (sp : str) : all_space sp -> all_space (lower sp).
Proof.
  intros H. unfold lower. apply Forall_map. eapply Forall_impl; [|exact H].
  intros c Hc. rewrite lower_char_space. exact Hc.
Qed.

(** The lowercase form of a text and that of the stripped text match the
    same groups. *)
Lemma _matches_any_lower_strip (patterns : list regex) (text : str) :
  steady patterns = true ->
  _matches_any patterns (lower (strip text)) = _matches_any patterns (lower text).
Proof.
  intros H. rewrite <- strip_lower. apply (@steady_strip patterns (lower text) H).
Qed.

Lemma route_decide (user_text : str) :
  route user_text
  = decide (_matches_any _ILLEGAL_PATTERNS user_text)
           (_matches_any _ADVICE_PATTERNS user_text)
           (_matches_any _ALLOCATION_PATTERNS user_text)
           (_matches_any _TIMING_PATTERNS user_text)
           (_matches_any _TIMING_PATTERNS (lower user_text))
           (_matches_any _ALLOCATION_PATTERNS (lower user_text)).
Proof.
  unfold route. cbv zeta.
  rewrite !_safe_rewrite_for_advice_by_matches.
  rewrite (@_matches_any_lower_strip _TIMING_PATTERNS user_text timing_steady).
  rewrite (@_matches_any_lower_strip _ALLOCATION_PATTERNS user_text allocation_steady).
  rewrite <- (@steady_strip _ILLEGAL_PATTERNS user_text illegal_steady).
  rewrite <- (@steady_strip _ADVICE_PATTERNS user_text advice_steady).
  rewrite <- (@steady_strip _ALLOCATION_PATTERNS user_text allocation_steady).
  rewrite <- (@steady_strip _TIMING_PATTERNS user_text timing_steady).
  destruct (strip user_text) as [|c t] eqn:E.
  - rewrite (@_matches_any_nil _ILLEGAL_PATTERNS illegal_steady).
    rewrite (@_matches_any_nil _ADVICE_PATTERNS advice_steady).
    rewrite (@_matches_any_nil _ALLOCATION_PATTERNS allocation_steady).
    rewrite (@_matches_any_nil _TIMING_PATTERNS timing_steady).
    reflexivity.
  - cbn [is_empty]. unfold decide.
    destruct (_matches_any _ILLEGAL_PATTERNS (c :: t)); [reflexivity|].
    destruct (_matches_any _ADVICE_PATTERNS (c :: t)); [reflexivity|].
    destruct (_matches_any _ALLOCATION_PATTERNS (c :: t)); [reflexivity|].
    destruct (_matches_any _TIMING_PATTERNS (c :: t)); reflexivity.
Qed.

(** X13: the action and the reason of [route] are fixed by which of the
    four pattern groups the text as given matches: illegal first, then
    advice, then allocation, then timing; the rewrite is picked by what the
    lowercased text matches: the timing text when it matches the timing
    group, else the allocation text when it matches that group, else the
    default text. *)
Theorem route_by_matches (user_text : str) :
  route user_text
  = decide (_matches_any _ILLEGAL_PATTERNS user_text)
           (_matches_any _ADVICE_PATTERNS user_text)
           (_matches_any _ALLOCATION_PATTERNS user_text)
           (_matches_any _TIMING_PATTERNS user_text)
           (_matches_any _TIMING_PATTERNS (lower user_text))
           (_matches_any _ALLOCATION_PATTERNS (lower user_text)).
Proof. apply route_decide. Qed.

(** X14: for a text of ASCII characters, on which lowercasing acts
    character by character, the letter case does not matter to [route]. *)
Theorem route_case_insensitive (user_text : str) :
  is_ascii user_text = true ->
  route (lower user_text) = route user_text.
Proof.
  intros _. rewrite !route_decide. rewrite lower_idem.
  rewrite (@steady_lower _ILLEGAL_PATTERNS user_text illegal_steady).
  rewrite (@steady_lower _ADVICE_PATTERNS user_text advice_steady).
  rewrite (@steady_lower _ALLOCATION_PATTERNS user_text allocation_steady).
  rewrite (@steady_lower _TIMING_PATTERNS user_text timing_steady).
  reflexivity.
Qed.

Lemma route_case_insensitive_witness :
  is_ascii (py "Should I SELL now?") = true /\
  route (lower (py "Should I SELL now?")) = route (py "Should I SELL now?").
Proof.
  split; [reflexivity|].
  apply (@route_case_insensitive (py "Should I SELL now?")). reflexivity.
Defined.

Lemma lstrip_spaces (sp u : str) : all_space sp -> lstrip (sp ++ u) = lstrip u.
Proof.
  induction 1 as [|c sp Hc F IH]; [reflexivity|]. simpl. rewrite Hc. exact IH.
Qed.

Lemma rstrip_spaces (sp u : str) : all_space sp -> rstrip (u ++ sp) = rstrip u.
Proof.
  intros H. unfold rstrip. rewrite rev_app_distr.
  rewrite lstrip_spaces; [reflexivity|]. apply Forall_rev. exact H.
Qed.

Lemma lstrip_all_space (s : str) : all_space s -> lstrip s = [].
Proof.
  intros H. rewrite <- (app_nil_r s). rewrite lstrip_spaces by exact H. reflexivity.
Qed.

Lemma strip_padding (sp1 sp2 t : str) :
  all_space sp1 -> all_space sp2 -> strip (sp1 ++ t ++ sp2) = strip t.
Proof.
  intros H1 H2. unfold strip. rewrite lstrip_spaces by exact H1.
  destruct (lstrip_decomp t) as (sp & E & F).
  destruct (lstrip_head t) as [N|S].
  - rewrite N in *. rewrite app_nil_r in E. subst sp.
    rewrite lstrip_all_space; [reflexivity|].
    apply Forall_app. split; assumption.
  - rewrite E at 1. rewrite <- app_assoc. rewrite lstrip_spaces by exact F.
    rewrite <- (app_nil_l (lstrip t ++ sp2)).
    rewrite lstrip_app_solid by (apply starts_solid_app; exact S).
    simpl. apply rstrip_spaces. exact H2.
Qed.

(** X15: white space around the text does not matter to [route]. *)
Theorem route_ignores_padding (sp1 sp2 user_text : str) :
  all_space sp1 -> all_space sp2 ->
  route (sp1 ++ user_text ++ sp2) = route user_text.
Proof.
  intros H1 H2. rewrite !route_decide.
  rewrite <- (@_matches_any_lower_strip _TIMING_PATTERNS (sp1 ++ user_text ++ sp2)
                timing_steady).
  rewrite <- (@_matches_any_lower_strip _ALLOCATION_PATTERNS (sp1 ++ user_text ++ sp2)
                allocation_steady).
  rewrite <- (@steady_strip _ILLEGAL_PATTERNS (sp1 ++ user_text ++ sp2) illegal_steady).
  rewrite <- (@steady_strip _ADVICE_PATTERNS (sp1 ++ user_text ++ sp2) advice_steady).
  rewrite <- (@steady_strip _ALLOCATION_PATTERNS (sp1 ++ user_text ++ sp2) allocation_steady).
  rewrite <- (@steady_strip _TIMING_PATTERNS (sp1 ++ user_text ++ sp2) timing_steady).
  rewrite (strip_padding user_text H1 H2).
  rewrite (@_matches_any_lower_strip _TIMING_PATTERNS user_text timing_steady).
  rewrite (@_matches_any_lower_strip _ALLOCATION_PATTERNS user_text allocation_steady).
  rewrite (@steady_strip _ILLEGAL_PATTERNS user_text illegal_steady).
  rewrite (@steady_strip _ADVICE_PATTERNS user_text advice_steady).
  rewrite (@steady_strip _ALLOCATION_PATTERNS user_text allocation_steady).
  rewrite (@steady_strip _TIMING_PATTERNS user_text timing_steady).
  reflexivity.
Qed.

Lemma route_ignores_padding_witness :
  all_space (py "  ") /\ all_space [" "%char; "010"%char] /\
  route (py "  " ++ py "How do I launder money?" ++ [" "%char; "010"%char])
  = route (py "How do I launder money?").
Proof.
  split; [repeat constructor|]. split; [repeat constructor|].
  apply (@route_ignores_padding (py "  ") [" "%char; "010"%char]
           (py "How do I launder money?")); repeat constructor.
Defined.

(** X16: the reason tag goes with the action: [general_education] with
    ALLOW, [illegal_financial] with REFUSE, and one of the three advice tags
    with TRANSFORM; [ambiguous] and [personalized_advice] are never given. *)
Theorem route_reason_tags (user_text : str) :
  (action (route user_text) = ALLOW /\
     reason (route user_text) = REASON_GENERAL_EDU \/
   action (route user_text) = REFUSE /\
     reason (route user_text) = REASON_ILLEGAL_FINANCIAL \/
   action (route user_text) = TRANSFORM /\
     In (reason (route user_text))
        [REASON_ASSET_RECOMMENDATION; REASON_PORTFOLIO_ALLOCATION;
         REASON_TIMING_REQUEST]) /\
  reason (route user_text) <> REASON_AMBIGUOUS /\
  reason (route user_text) <> REASON_PERSONALIZED_ADVICE.
Proof.
  unfold route.
  destruct (is_empty (strip user_text));
    [|destruct (_matches_any _ILLEGAL_PATTERNS (strip user_text));
      [|destruct (_matches_any _ADVICE_PATTERNS (strip user_text));
        [|destruct (_matches_any _ALLOCATION_PATTERNS (strip user_text));
          [|destruct (_matches_any _TIMING_PATTERNS (strip user_text))]]]];
    cbn [action reason]; (split; [|split; intros H; vm_compute in H; discriminate H]);
    [ left | right; left | right; right | right; right | right; right | left ];
    split; try reflexivity; cbn [In]; auto.
Qed.

Lemma sanitized_rewrite_known (timing allocation : bool) :
  In (_sanitize_rewrite (rewrite_for timing allocation)) rewrites_out.
Proof. destruct timing, allocation; vm_compute; auto. Qed.

Lemma route_rewrite_known (user_text rw : str) :
  rewrite (route user_text) = Some rw -> In rw rewrites_out.
Proof.
  rewrite route_decide. unfold decide.
  destruct (_matches_any _ILLEGAL_PATTERNS user_text); [discriminate|].
  destruct (_matches_any _ADVICE_PATTERNS user_text
            || _matches_any _ALLOCATION_PATTERNS user_text
            || _matches_any _TIMING_PATTERNS user_text); [|discriminate].
  cbn [rewrite]. intros H.
  assert (E : rw = _sanitize_rewrite
                     (rewrite_for (_matches_any _TIMING_PATTERNS (lower user_text))
                                  (_matches_any _ALLOCATION_PATTERNS (lower user_text))))
    by congruence.
  rewrite E. apply sanitized_rewrite_known.
Qed.

(** X17: a rewrite returned by [route] is one of three fixed texts, whatever
    the user wrote; it has no dollar sign and no digit, and its lowercase
    form has neither "buy" nor "sell" as a substring. *)
Theorem route_rewrite_harmless (user_text rw : str) :
  rewrite (route user_text) = Some rw ->
  In rw rewrites_out /\
  contains (py "$") rw = false /\ existsb isdigit rw = false /\
  contains (py "buy") (lower rw) = false /\ contains (py "sell") (lower rw) = false.
Proof.
  intros H. apply route_rewrite_known in H. split; [exact H|].
  unfold rewrites_out in H. cbn [In] in H.
  destruct H as [<-|[<-|[<-|[]]]]; vm_compute; auto.
Qed.

Lemma route_rewrite_harmless_witness :
  rewrite (route (py "Should I sell now?")) = Some (hd [] rewrites_out) /\
  In (hd [] rewrites_out) rewrites_out /\
  contains (py "$") (hd [] rewrites_out) = false /\
  existsb isdigit (hd [] rewrites_out) = false /\
  contains (py "buy") (lower (hd [] rewrites_out)) = false /\
  contains (py "sell") (lower (hd [] rewrites_out)) = false.
Proof.
  split; [vm_compute; reflexivity|].
  apply (@route_rewrite_harmless (py "Should I sell now?") (hd [] rewrites_out)).
  vm_compute; reflexivity.
Defined.

(* ================================================================== *)
(** ** The scrub on a clean text *)
(* ================================================================== *)

Lemma sub_loop_no_match (r : regex) (repl : str) (s : str) :
  forall pw, scan (match_at r) pw s = false ->
             sub_loop (match_len r) repl 0 pw s = s.
Proof.
  induction s as [|x s IH]; intros pw H; simpl in H |- *; unfold match_len.
  - destruct (match_at r pw []); [discriminate|reflexivity].
  - destruct (match_at r pw (x :: s)); [discriminate|]. rewrite IH by exact H.
    reflexivity.
Qed.

Lemma sub_no_match (r : regex) (repl s : str) :
  search r s = false -> sub r repl s = s.
Proof. apply sub_loop_no_match. Qed.

Lemma search_strip_false (r : regex) (s : str) :
  search r s = false -> search r (strip s) = false.
Proof. apply search_strip_back. Qed.

(** X18: a text in which none of the three scrub patterns matches comes
    out of [_sanitize_rewrite] stripped and otherwise unchanged. *)
Theorem sanitize_clean_text (rw : str) :
  search AMOUNT_RE rw = false -> search _TICKER_LIKE rw = false ->
  search BUY_SELL_RE rw = false ->
  _sanitize_rewrite rw = strip rw.
Proof.
  intros H1 H2 H3. unfold _sanitize_rewrite. cbv zeta.
  rewrite (@sub_no_match AMOUNT_RE (py "[amount]") rw H1).
  rewrite (@sub_no_match _TICKER_LIKE (py "[asset]") rw H2).
  rewrite (@sub_no_match BUY_SELL_RE (py "trade") rw H3).
  reflexivity.
Qed.

Lemma sanitize_clean_text_witness :
  search AMOUNT_RE REWRITE_DEFAULT = false /\
  search _TICKER_LIKE REWRITE_DEFAULT = false /\
  search BUY_SELL_RE REWRITE_DEFAULT = false /\
  _sanitize_rewrite REWRITE_DEFAULT = strip REWRITE_DEFAULT.
Proof.
  split; [vm_compute; reflexivity|]. split; [vm_compute; reflexivity|].
  split; [vm_compute; reflexivity|].
  apply (@sanitize_clean_text REWRITE_DEFAULT); vm_compute; reflexivity.
Defined.

Lemma scrub_leaves_nothing (rw : str) :
  search AMOUNT_RE (_sanitize_rewrite rw) = false /\
  search _TICKER_LIKE (_sanitize_rewrite rw) = false /\
  search BUY_SELL_RE (_sanitize_rewrite rw) = false.
Proof.
  unfold _sanitize_rewrite. cbv zeta.
  set (s1 := sub AMOUNT_RE (py "[amount]") rw).
  change _TICKER_LIKE with (word_re (Rep (Range "A" "Z") 1 (Some 5))).
  change BUY_SELL_RE with (word_re (alt [liti "buy"; liti "sell"])).
  rewrite sub_word_re by exact buy_sell_wordy.
  rewrite sub_word_re by exact ticker_wordy.
  split; [|split].
  - apply no_digit_no_amount. apply strip_keeps.
    unfold tsub. apply sub_loop_keeps; [reflexivity|].
    apply sub_loop_keeps; [reflexivity|].
    unfold s1, sub. apply sub_loop_all; [reflexivity|].
    intros pw x s Hx. apply amount_at_digit.
    destruct (isdigit x); [reflexivity|discriminate].
  - apply search_strip_back. rewrite search_word_re by exact ticker_wordy.
    apply tsub_adds_none; [apply trade_quiet; vm_compute; reflexivity|].
    apply tsub_removes. apply asset_quiet. vm_compute; reflexivity.
  - apply search_strip_back. rewrite search_word_re by exact buy_sell_wordy.
    apply tsub_removes. apply trade_quiet. vm_compute; reflexivity.
Qed.

(** X19: scrubbing twice is scrubbing once. *)
Theorem sanitize_idempotent (rw : str) :
  _sanitize_rewrite (_sanitize_rewrite rw) = _sanitize_rewrite rw.
Proof.
  destruct (scrub_leaves_nothing rw) as (H1 & H2 & H3).
  unfold _sanitize_rewrite at 1. cbv zeta.
  rewrite (@sub_no_match AMOUNT_RE (py "[amount]") _ H1).
  rewrite (@sub_no_match _TICKER_LIKE (py "[asset]") _ H2).
  rewrite (@sub_no_match BUY_SELL_RE (py "trade") _ H3).
  unfold _sanitize_rewrite. cbv zeta. apply strip_idempotent.
Qed.

(* ================================================================== *)
(** ** Keys the validator does not know *)
(* ================================================================== *)

Lemma str_eqb_neq (a b : str) : a <> b -> str_eqb a b = false.
Proof.
  intros H. unfold str_eqb. destruct (list_eq_dec ascii_dec a b); [contradiction|reflexivity].
Qed.

Lemma get_app_other (d : dict) (k key : str) (v : raw_value) :
  k <> key -> get (d ++ [(k, v)]) key = get d key.
Proof.
  intros H. induction d as [|[k' v'] d IH]; simpl.
  - rewrite str_eqb_neq by exact H. reflexivity.
  - destruct (str_eqb k' key); [reflexivity|exact IH].
Qed.

Lemma placeholder_sweep_app (card_id : str) (d d' : dict) :
  placeholder_sweep card_id (d ++ d')
  = (_ <- placeholder_sweep card_id d ;; placeholder_sweep card_id d').
Proof.
  induction d as [|[k v] d IH]; [reflexivity|].
  simpl. destruct v; try exact IH.
  destruct (search _PLACEHOLDER_RE s); [reflexivity|exact IH].
Qed.

Section SameKeys.

Variables d d' : dict.
Variable card_id : str.

Lemma _require_key_same (key : str) :
  get d' key = get d key -> _require_key d' card_id key = _require_key d card_id key.
Proof. unfold _require_key. intros ->. reflexivity. Qed.

Lemma _require_str_same (key : str) :
  get d' key = get d key -> _require_str d' card_id key = _require_str d card_id key.
Proof. unfold _require_str. intros H. rewrite (_require_key_same _ H). reflexivity. Qed.

Lemma _require_list_of_str_same (key : str) (min_len : nat) :
  get d' key = get d key ->
  _require_list_of_str d' card_id key min_len = _require_list_of_str d card_id key min_len.
Proof.
  unfold _require_list_of_str. intros H. rewrite (_require_key_same _ H). reflexivity.
Qed.

Lemma _require_enum_same (A : Type) `{PyEnum A} (key : str) :
  get d' key = get d key ->
  _require_enum (A := A) d' card_id key = _require_enum d card_id key.
Proof. unfold _require_enum. intros E. rewrite (_require_str_same _ E). reflexivity. Qed.

Lemma _require_examples_same :
  get d' (py "examples") = get d (py "examples") ->
  _require_examples d' card_id = _require_examples d card_id.
Proof. unfold _require_examples. intros H. rewrite (_require_key_same _ H). reflexivity. Qed.

Lemma _require_safety_same :
  get d' (py "safety") = get d (py "safety") ->
  _require_safety d' card_id = _require_safety d card_id.
Proof. unfold _require_safety. intros H. rewrite (_require_key_same _ H). reflexivity. Qed.

Lemma _require_metadata_same :
  get d' (py "metadata") = get d (py "metadata") ->
  _require_metadata d' card_id = _require_metadata d card_id.
Proof. unfold _require_metadata. intros H. rewrite (_require_key_same _ H). reflexivity. Qed.

End SameKeys.

Lemma _card_id_for_errors_same (d d' : dict) :
  get d' (py "id") = get d (py "id") ->
  _card_id_for_errors d' = _card_id_for_errors d.
Proof. unfold _card_id_for_errors. intros ->. reflexivity. Qed.

Lemma heuristics_with_new_key (card_id : str) (d : dict) (k : str) (v : raw_value) :
  k <> py "summary" -> k <> py "non_goals" ->
  _education_only_heuristics card_id (d ++ [(k, v)])
  = (_ <- _education_only_heuristics card_id d ;; placeholder_sweep card_id [(k, v)]).
Proof.
  intros H1 H2. unfold _education_only_heuristics.
  rewrite !get_app_other by assumption.
  match goal with
  | |- bind ?x _ = _ => destruct x; cbn [bind]; [|reflexivity]
  end.
  match goal with
  | |- bind ?x _ = _ => destruct x; cbn [bind]; [|reflexivity]
  end.
  apply placeholder_sweep_app.
Qed.

Section NewKey.

Variable d : dict.
Variable k : str.
Variable v : raw_value.
Hypothesis Hk : ~ In k required_keys.

Lemma get_with_new_key (key : str) :
  In key required_keys -> get (d ++ [(k, v)]) key = get d key.
Proof. intros Hin. apply get_app_other. intros ->. exact (Hk Hin). Qed.

Lemma required_key_in (key : str) :
  existsb (str_eqb key) required_keys = true -> In key required_keys.
Proof. apply seen_In. Qed.

Lemma new_key_not_summary : k <> py "summary".
Proof. intros ->. apply Hk. apply required_key_in. vm_compute. reflexivity. Qed.

Lemma new_key_not_non_goals : k <> py "non_goals".
Proof. intros ->. apply Hk. apply required_key_in. vm_compute. reflexivity. Qed.

End NewKey.

Ltac known_key := apply get_with_new_key; [assumption | apply required_key_in; vm_compute; reflexivity].

Ltac same_stage L d e :=
  rewrite (L d e) by known_key;
  match goal with
  | |- bind ?x _ = bind ?x _ => destruct x; cbn [bind]; [|reflexivity]
  end;
  try match goal with
      | |- (let (_, _) := ?p in _) = _ => destruct p
      end.

(** X20: a key the validator does not know, holding anything but a string
    with a placeholder, changes nothing: the record with the key added
    validates to the same card or fails with the same error. *)
Theorem unknown_key_ignored (d : dict) (k : str) (v : raw_value) :
  get d k = None -> ~ In k required_keys ->
  (forall s, v = VStr s -> search _PLACEHOLDER_RE s = false) ->
  validate_conceptcard (VDict (d ++ [(k, v)])) = validate_conceptcard (VDict d).
Proof.
  intros _ Hk Hv.
  unfold validate_conceptcard. cbv zeta.
  rewrite (@_card_id_for_errors_same d (d ++ [(k, v)])) by known_key.
  set (card_id := _card_id_for_errors d).
  set (e := d ++ [(k, v)]).
  same_stage _require_str_same d e.
  same_stage _require_str_same d e.
  same_stage _require_enum_same d e.
  same_stage _require_enum_same d e.
  same_stage _require_list_of_str_same d e.
  same_stage _require_list_of_str_same d e.
  same_stage _require_list_of_str_same d e.
  same_stage _require_list_of_str_same d e.
  same_stage _require_examples_same d e.
  same_stage _require_safety_same d e.
  same_stage _require_metadata_same d e.
  subst e.
  rewrite heuristics_with_new_key
    by (first [exact (new_key_not_summary Hk) | exact (new_key_not_non_goals Hk)]).
  assert (E : placeholder_sweep card_id [(k, v)] = Ok tt).
  { cbn [placeholder_sweep]. destruct v as [ | | |s1| | ]; try reflexivity.
    rewrite (Hv s1 eq_refl). reflexivity. }
  rewrite E.
  destruct (_education_only_heuristics card_id d) as [[]|]; reflexivity.
Qed.

Lemma unknown_key_ignored_witness :
  get Samples.good_dict (py "notes") = None /\
  ~ In (py "notes") required_keys /\
  (forall s, VInt 3 = VStr s -> search _PLACEHOLDER_RE s = false) /\
  validate_conceptcard (VDict (Samples.good_dict ++ [(py "notes", VInt 3)]))
  = validate_conceptcard (VDict Samples.good_dict).
Proof.
  assert (N : ~ In (py "notes") required_keys).
  { intros H. apply seen_In in H. vm_compute in H. discriminate H. }
  split; [vm_compute; reflexivity|]. split; [exact N|].
  split; [intros s H; discriminate H|].
  apply (@unknown_key_ignored Samples.good_dict (py "notes") (VInt 3));
    [vm_compute; reflexivity | exact N | intros s H; discriminate H].
Defined.

(** X21: a valid record stops validating once a new key holds a string with
    a placeholder; the error names that key. *)
Theorem unknown_key_placeholder_rejected (d : dict) (k s : str) (card : ConceptCard) :
  validate_conceptcard (VDict d) = Ok card ->
  get d k = None -> ~ In k required_keys ->
  search _PLACEHOLDER_RE s = true ->
  validate_conceptcard (VDict (d ++ [(k, VStr s)]))
  = Err (FieldError (_card_id_for_errors d) k
                    (py "contains placeholder text like <...>")).
Proof.
  intros H _ Hk Hs.
  apply validate_conceptcard_ok_iff in H. destruct H as (d0 & E0 & H).
  injection E0 as <-. cbv zeta in H.
  destruct H as (H1 & H2 & H3 & H4 & H5 & H6 & H7 & H8 & H9 & H10 & H11 & H12 & _).
  unfold validate_conceptcard. cbv zeta.
  rewrite (@_card_id_for_errors_same d (d ++ [(k, VStr s)])) by known_key.
  set (card_id := _card_id_for_errors d) in *.
  set (e := d ++ [(k, VStr s)]).
  rewrite (_require_str_same d e) by known_key. rewrite H1. cbn [bind].
  rewrite (_require_str_same d e) by known_key. rewrite H2. cbn [bind].
  rewrite (_require_enum_same d e) by known_key. rewrite H3. cbn [bind].
  rewrite (_require_enum_same d e) by known_key. rewrite H4. cbn [bind].
  rewrite (_require_list_of_str_same d e) by known_key. rewrite H5. cbn [bind].
  rewrite (_require_list_of_str_same d e) by known_key. rewrite H6. cbn [bind].
  rewrite (_require_list_of_str_same d e) by known_key. rewrite H7. cbn [bind].
  rewrite (_require_list_of_str_same d e) by known_key. rewrite H8. cbn [bind].
  rewrite (_require_examples_same d e) by known_key. rewrite H9. cbn [bind].
  rewrite (_require_safety_same d e) by known_key. rewrite H10. cbn [bind].
  rewrite (_require_metadata_same d e) by known_key. rewrite H11. cbn [bind].
  subst e.
  rewrite heuristics_with_new_key
    by (first [exact (new_key_not_summary Hk) | exact (new_key_not_non_goals Hk)]).
  rewrite H12. cbn [bind placeholder_sweep]. rewrite Hs. reflexivity.
Qed.

Lemma unknown_key_placeholder_rejected_witness :
  validate_conceptcard (VDict Samples.good_dict) = Ok Samples.good_card /\
  get Samples.good_dict (py "notes") = None /\
  ~ In (py "notes") required_keys /\
  search _PLACEHOLDER_RE (py "see <later>") = true /\
  validate_conceptcard (VDict (Samples.good_dict ++ [(py "notes", VStr (py "see <later>"))]))
  = Err (FieldError (_card_id_for_errors Samples.good_dict) (py "notes")
                    (py "contains placeholder text like <...>")).
Proof.
  assert (N : ~ In (py "notes") required_keys).
  { intros H. apply seen_In in H. vm_compute in H. discriminate H. }
  split; [vm_compute; reflexivity|]. split; [vm_compute; reflexivity|].
  split; [exact N|]. split; [vm_compute; reflexivity|].
  apply (@unknown_key_placeholder_rejected Samples.good_dict (py "notes")
           (py "see <later>") Samples.good_card);
    [vm_compute; reflexivity | vm_compute; reflexivity | exact N | vm_compute; reflexivity].
Defined.

(* ================================================================== *)
(** ** Tokens *)
(* ================================================================== *)

Lemma word_cs_char (x : ascii) : cmatch WORD_CS x = is_token_char x.
Proof. reflexivity. Qed.

Lemma span_app (P : ascii -> bool) (s : str) : s = fst (span P s) ++ snd (span P s).
Proof.
  induction s as [|x s IH]; [reflexivity|]. simpl.
  destruct (P x); [|reflexivity].
  destruct (span P s) as [t rest]. simpl in *. rewrite IH at 1. reflexivity.
Qed.

Lemma span_all (P : ascii -> bool) (s : str) :
  Forall (fun x => P x = true) (fst (span P s)).
Proof.
  induction s as [|x s IH]; simpl; [constructor|].
  destruct (P x) eqn:Hx; [|constructor].
  destruct (span P s) as [t rest]. simpl in *. constructor; assumption.
Qed.

(** The text does not start with a character that satisfies [P]. *)
Lemma span_rest (P : ascii -> bool) (s : str) :
  match snd (span P s) with x :: _ => P x = false | [] => True end.
Proof.
  induction s as [|x s IH]; simpl; [exact I|].
  destruct (P x) eqn:Hx; [|exact Hx].
  destruct (span P s) as [t rest]. simpl in *. exact IH.
Qed.

(** An unbounded repetition at the end of a pattern takes the longest run. *)
Lemma rep_greedy (cs : cset) (s : str) :
  forall lo pw,
    rep_m cs lo None pw s (fun _ rest => Some rest)
    = if lo <=? List.length (fst (span (cmatch cs) s))
      then Some (snd (span (cmatch cs) s)) else None.
Proof.
  induction s as [|x s IH]; intros lo pw.
  - simpl. destruct lo; reflexivity.
  - cbn [rep_m span hi_zero negb andb option_map].
    destruct (cmatch cs x).
    + rewrite IH. destruct (span (cmatch cs) s) as [t rest].
      cbn [fst snd List.length]. destruct lo as [|lo]; [reflexivity|].
      cbn [pred Nat.leb]. destruct (lo <=? List.length t); reflexivity.
    + destruct lo; reflexivity.
Qed.

Lemma match_len_plus (cs : cset) (pw : bool) (s : str) :
  match_len (plus cs) pw s
  = match fst (span (cmatch cs) s) with
    | [] => None
    | (_ :: _) as t => Some (List.length t)
    end.
Proof.
  unfold match_len, match_at, plus. cbn [m]. rewrite rep_greedy.
  pose proof (span_app (cmatch cs) s) as E.
  destruct (span (cmatch cs) s) as [t rest]. cbn [fst snd] in *.
  destruct t as [|y t]; [reflexivity|]. cbn [List.length Nat.leb].
  f_equal. rewrite E at 1. rewrite length_app. cbn [List.length]. lia.
Qed.

Lemma findall_skip (mt : bool -> str -> option nat) (a rest : str) :
  forall pw,
    findall_loop mt (List.length a) pw (a ++ rest) = findall_loop mt 0 (lw pw a) rest.
Proof.
  induction a as [|x a IH]; intros pw; [reflexivity|].
  cbn [List.length app findall_loop]. rewrite IH. reflexivity.
Qed.

Lemma words_run (P : ascii -> bool) (a rest : str) :
  Forall (fun x => P x = true) a ->
  match rest with x :: _ => P x = false | [] => True end ->
  forall cur, cur ++ a <> [] ->
              words P cur (a ++ rest) = (cur ++ a) :: words P [] rest.
Proof.
  intros Ha Hr. induction Ha as [|x a Hx Ha IH]; intros cur Hne.
  - rewrite app_nil_r in *. cbn [app].
    destruct rest as [|y rest]; cbn [words].
    + destruct cur; [contradiction|reflexivity].
    + rewrite Hr. destruct cur; [contradiction|reflexivity].
  - cbn [app words]. rewrite Hx. rewrite IH.
    + rewrite <- app_assoc. reflexivity.
    + destruct cur; discriminate.
Qed.

(** [findall] with [cs+] collects the maximal runs of the class. *)
Lemma findall_plus_words (cs : cset) (n : nat) :
  forall s pw, List.length s <= n ->
               findall_loop (match_len (plus cs)) 0 pw s = words (cmatch cs) [] s.
Proof.
  induction n as [|n IH]; intros s pw Hn.
  - destruct s; [|simpl in Hn; lia]. cbn [findall_loop words].
    rewrite match_len_plus. reflexivity.
  - destruct s as [|x s]; [cbn [findall_loop words]; rewrite match_len_plus; reflexivity|].
    cbn [findall_loop]. rewrite match_len_plus.
    pose proof (span_app (cmatch cs) (x :: s)) as E.
    pose proof (span_all (cmatch cs) (x :: s)) as A.
    pose proof (span_rest (cmatch cs) (x :: s)) as R.
    cbn [span words] in *. destruct (cmatch cs x) eqn:Hx.
    + destruct (span (cmatch cs) s) as [t rest]. cbn [fst snd List.length] in *.
      injection E as E. subst s.
      cbn [firstn app]. rewrite firstn_app, firstn_all, Nat.sub_diag.
      cbn [firstn]. rewrite app_nil_r.
      rewrite findall_skip. rewrite IH.
      * inversion A; subst. rewrite (@words_run (cmatch cs) t rest H2 R [x]); [reflexivity|discriminate].
      * rewrite length_app in Hn. simpl in Hn. lia.
    + cbn [fst]. apply IH. simpl in Hn. lia.
Qed.

Lemma findall_word_re (s : str) : findall _WORD_RE s = words is_token_char [] s.
Proof. unfold findall, _WORD_RE. apply (@findall_plus_words WORD_CS (List.length s)). lia. Qed.

Lemma words_shape (P : ascii -> bool) (s : str) :
  forall cur, Forall (fun x => P x = true) cur ->
              Forall (fun w => w <> [] /\ Forall (fun x => P x = true) w) (words P cur s).
Proof.
  induction s as [|x s IH]; intros cur Hc; cbn [words].
  - destruct cur; constructor; [|constructor]. split; [discriminate|exact Hc].
  - destruct (P x) eqn:Hx.
    + apply IH. apply Forall_app. split; [exact Hc|]. constructor; [exact Hx|constructor].
    + destruct cur as [|c cur]; [apply IH; constructor|].
      constructor; [split; [discriminate|exact Hc]|]. apply IH. constructor.
Qed.

Lemma words_sep (P : ascii -> bool) (x : ascii) (a b : str) :
  P x = false ->
  forall cur, words P cur (a ++ x :: b) = words P cur a ++ words P [] b.
Proof.
  intros Hx. induction a as [|y a IH]; intros cur; cbn [app words].
  - rewrite Hx. destruct cur; reflexivity.
  - destruct (P y); [apply IH|]. destruct cur; [apply IH|].
    rewrite IH. reflexivity.
Qed.

Lemma words_skip_front (P : ascii -> bool) (sp u : str) :
  Forall (fun x => P x = false) sp -> words P [] (sp ++ u) = words P [] u.
Proof.
  induction 1 as [|x sp Hx F IH]; [reflexivity|].
  cbn [app words]. rewrite Hx. exact IH.
Qed.

Lemma words_skip_back (P : ascii -> bool) (sp : str) :
  Forall (fun x => P x = false) sp ->
  forall u cur, words P cur (u ++ sp) = words P cur u.
Proof.
  intros F. induction F as [|x sp Hx F IH]; intros u cur.
  - rewrite app_nil_r. reflexivity.
  - rewrite (@words_sep P x u sp Hx). rewrite <- (app_nil_l sp), IH.
    cbn [words]. apply app_nil_r.
Qed.

Lemma space_not_token_char (x : ascii) : isspace x = true -> is_token_char x = false.
Proof.
  destruct x as [[] [] [] [] [] [] [] []]; vm_compute; intros H;
    first [reflexivity | discriminate H].
Qed.

Lemma spaces_not_token (sp : str) :
  all_space sp -> Forall (fun x => is_token_char x = false) sp.
Proof.
  intros H. eapply Forall_impl; [|exact H]. intros x. apply space_not_token_char.
Qed.

Lemma member_In (t : str) (xs : list str) : member t xs = true <-> In t xs.
Proof. apply seen_In. Qed.

Lemma member_not_In (t : str) (xs : list str) : member t xs = false <-> ~ In t xs.
Proof. apply seen_not_In. Qed.

Lemma _tokens_In (text t : str) :
  In t (_tokens text) <->
  In t (words is_token_char [] (lower text)) /\ ~ In t _STOPWORDS.
Proof.
  unfold _tokens, to_set. cbv zeta. rewrite nodup_In, filter_In, findall_word_re.
  rewrite negb_true_iff, member_not_In. reflexivity.
Qed.

Lemma _tokens_lower (text : str) : _tokens (lower text) = _tokens text.
Proof. unfold _tokens. rewrite lower_idem. reflexivity. Qed.

Lemma _tokens_strip (text : str) : _tokens (strip text) = _tokens text.
Proof.
  unfold _tokens. cbv zeta. rewrite !findall_word_re. rewrite <- strip_lower.
  destruct (strip_decomp (lower text)) as (sp1 & sp2 & E & F1 & F2).
  rewrite E at 2.
  rewrite (@words_skip_front is_token_char sp1 _ (spaces_not_token F1)).
  rewrite (@words_skip_back is_token_char sp2 (spaces_not_token F2)). reflexivity.
Qed.

Lemma _tokens_nil : _tokens [] = [].
Proof. reflexivity. Qed.

Lemma intersection_In (a b : list str) (t : str) :
  In t (intersection a b) <-> In t a /\ In t b.
Proof. unfold intersection. rewrite filter_In, member_In. reflexivity. Qed.

Lemma intersection_nil_r (a : list str) : intersection a [] = [].
Proof. induction a as [|x a IH]; [reflexivity|exact IH]. Qed.

Lemma intersection_length (a b : list str) :
  List.length (intersection a b) <= List.length a.
Proof. apply filter_length_le. Qed.

(* ================================================================== *)
(** ** Candidates and scores *)
(* ================================================================== *)

Section Retrieval.

Variable T : Type.
Variable attribute : T -> str -> option attr.

(** The haystack check of the two loops is covered by the token check: a
    card whose stripped text is empty has no token. *)
Lemma blank_card_no_overlap (q_tokens : list str) (card : T) :
  is_empty (strip (card_text attribute card)) = true ->
  intersection q_tokens (_tokens (card_text attribute card)) = [].
Proof.
  intros H. rewrite <- _tokens_strip.
  destruct (strip (card_text attribute card)); [|discriminate].
  rewrite _tokens_nil. apply intersection_nil_r.
Qed.

Lemma candidates_loop_filter (q_tokens : list str) (cards : list T) :
  forall candidates,
    candidates_loop attribute q_tokens cards candidates
    = candidates
      ++ filter (fun card =>
                   any (intersection q_tokens
                                     (_tokens (card_text attribute card)))) cards.
Proof.
  induction cards as [|card cards IH]; intros candidates; cbn [candidates_loop filter].
  - rewrite app_nil_r. reflexivity.
  - cbv zeta. destruct (is_empty (strip (card_text attribute card))) eqn:E.
    + rewrite (blank_card_no_overlap q_tokens card E). cbn [any]. apply IH.
    + rewrite _tokens_strip.
      destruct (intersection q_tokens (_tokens (card_text attribute card)));
        cbn [any]; rewrite IH; [reflexivity|].
      rewrite <- app_assoc. reflexivity.
Qed.

Lemma retrieve_candidates_filter (query : str) (cards : list T) :
  retrieve_candidates attribute query cards
  = filter (fun card =>
              any (intersection (_tokens query)
                                (_tokens (card_text attribute card)))) cards.
Proof.
  unfold retrieve_candidates. cbv zeta. rewrite _tokens_strip.
  assert (N : _tokens query = [] ->
              filter (fun card =>
                        any (intersection (_tokens query)
                                          (_tokens (card_text attribute card)))) cards
              = []).
  { intros ->. induction cards as [|c cards IH]; [reflexivity|exact IH]. }
  destruct (is_empty (strip query)) eqn:E.
  - symmetry. apply N. rewrite <- _tokens_strip.
    destruct (strip query); [reflexivity|discriminate].
  - destruct (_tokens query) eqn:Q; [symmetry; apply N; reflexivity|].
    rewrite candidates_loop_filter. reflexivity.
Qed.

Lemma overlap_shares (query : str) (card : T) :
  any (intersection (_tokens query) (_tokens (card_text attribute card)))
  = true <-> shares_token attribute query card.
Proof.
  unfold shares_token. split.
  - destruct (intersection _ _) as [|t l] eqn:E; [discriminate|]. intros _.
    exists t. apply intersection_In. rewrite E. left. reflexivity.
  - intros (t & H). apply intersection_In in H.
    destruct (intersection _ _); [contradiction|reflexivity].
Qed.

Lemma scored_loop_map (q_tokens : list str) (candidates : list T) :
  Forall (fun card =>
            intersection q_tokens (_tokens (card_text attribute card)) <> [])
         candidates ->
  forall scored,
    scored_loop attribute q_tokens candidates scored
    = scored
      ++ map (fun card =>
                (List.length (intersection q_tokens
                                (_tokens (card_text attribute card))), card))
             candidates.
Proof.
  induction 1 as [|card candidates Hc F IH]; intros scored; cbn [scored_loop map].
  - rewrite app_nil_r. reflexivity.
  - cbv zeta. destruct (is_empty (strip (card_text attribute card))) eqn:E.
    + exfalso. apply Hc. apply blank_card_no_overlap. exact E.
    + rewrite _tokens_strip, IH, <- app_assoc. reflexivity.
Qed.

Lemma candidates_overlap (query : str) (cards : list T) :
  Forall (fun card =>
            intersection (_tokens query) (_tokens (card_text attribute card)) <> [])
         (retrieve_candidates attribute query cards).
Proof.
  rewrite retrieve_candidates_filter. apply Forall_forall. intros c Hc.
  apply filter_In in Hc. destruct Hc as (_ & Hc).
  destruct (intersection _ _); [discriminate|discriminate].
Qed.

Lemma retrieve_candidates_strip (query : str) (cards : list T) :
  retrieve_candidates attribute (strip query) cards
  = retrieve_candidates attribute query cards.
Proof. rewrite !retrieve_candidates_filter, _tokens_strip. reflexivity. Qed.

(** What [retrieve] returns without [debug]. *)
Lemma retrieve_plain (query : str) (cards : list T) (top_k : Z) :
  retrieve attribute query cards top_k false
  = Scored (firstn (Z.to_nat top_k)
              (map (fun card => (overlap attribute query card, card))
                   (retrieve_candidates attribute query cards))).
Proof.
  unfold retrieve. cbv zeta.
  destruct (is_empty (strip query)) eqn:E; cbn [orb].
  - rewrite retrieve_candidates_filter.
    assert (Q : _tokens query = []).
    { rewrite <- _tokens_strip. destruct (strip query); [reflexivity|discriminate]. }
    rewrite Q. f_equal.
    assert (N : filter (fun card : T =>
                          any (intersection []
                                            (_tokens (card_text attribute card)))) cards
                = []).
    { induction cards as [|c cards IH]; [reflexivity|exact IH]. }
    rewrite N. cbn [map]. rewrite firstn_nil. reflexivity.
  - destruct (top_k <=? 0)%Z eqn:K.
    + apply Z.leb_le in K. replace (Z.to_nat top_k) with 0 by lia. reflexivity.
    + cbn [negb]. rewrite retrieve_candidates_strip, _tokens_strip.
      rewrite scored_loop_map by apply candidates_overlap. reflexivity.
Qed.

End Retrieval.

Example retrieve_compound :
  retrieve Fakes.fake_attribute (py "Compound interest?") Fakes.shelf 10 false
  = Scored [(2, Fakes.compound)].
Proof. vm_compute. reflexivity. Qed.

(** X22: [_tokens] gives, without repetition, the maximal runs of the
    characters a-z and 0-9 of the lowercased text that are not stopwords;
    no token is empty. *)
Theorem _tokens_spec (text : str) :
  NoDup (_tokens text) /\
  (forall t, In t (_tokens text) <->
             In t (words is_token_char [] (lower text)) /\ ~ In t _STOPWORDS) /\
  Forall (fun t => t <> [] /\ forallb is_token_char t = true) (_tokens text).
Proof.
  split; [apply NoDup_nodup|]. split; [intros t; apply _tokens_In|].
  apply Forall_forall. intros t Ht. apply _tokens_In in Ht. destruct Ht as (Ht & _).
  pose proof (@words_shape is_token_char (lower text) [] (Forall_nil _)) as W.
  rewrite Forall_forall in W. destruct (W t Ht) as (Hne & Hall).
  split; [exact Hne|]. apply forallb_forall. rewrite Forall_forall in Hall. exact Hall.
Qed.

(** X23: a card is a candidate exactly when it is in the corpus and its
    text shares a token with the query. *)
Theorem retrieve_candidates_iff (T : Type) (attribute : T -> str -> option attr)
        (query : str) (cards : list T) (card : T) :
  In card (retrieve_candidates attribute query cards) <->
  In card cards /\ shares_token attribute query card.
Proof.
  rewrite retrieve_candidates_filter, filter_In, overlap_shares. reflexivity.
Qed.

(** X24: each card is judged on its own and the corpus order is kept: the
    candidates of two corpora put together are the candidates of the first
    followed by those of the second. *)
Theorem retrieve_candidates_app (T : Type) (attribute : T -> str -> option attr)
        (query : str) (cards1 cards2 : list T) :
  retrieve_candidates attribute query (cards1 ++ cards2)
  = retrieve_candidates attribute query cards1
    ++ retrieve_candidates attribute query cards2.
Proof. rewrite !retrieve_candidates_filter. apply filter_app. Qed.

Lemma firstn_incl (A : Type) (n : nat) (l : list A) (x : A) :
  In x (firstn n l) -> In x l.
Proof.
  intros H. rewrite <- (firstn_skipn n l). apply in_or_app. left. exact H.
Qed.

(** X25: without [debug], [retrieve] returns the first [top_k] candidates
    in corpus order, each with the number of query tokens its text has;
    that number is at least one and at most the number of query tokens. *)
Theorem retrieve_first_candidates (T : Type) (attribute : T -> str -> option attr)
        (query : str) (cards : list T) (top_k : Z) (scored : list (nat * T)) :
  retrieve attribute query cards top_k false = Scored scored ->
  map snd scored = firstn (Z.to_nat top_k) (retrieve_candidates attribute query cards) /\
  Forall (fun p => fst p = overlap attribute query (snd p) /\
                   1 <= fst p <= List.length (_tokens query)) scored.
Proof.
  rewrite retrieve_plain. intros H. injection H as <-. split.
  - rewrite <- firstn_map, map_map. cbn [snd]. rewrite map_id. reflexivity.
  - apply Forall_forall. intros p Hp. apply firstn_incl in Hp.
    apply in_map_iff in Hp. destruct Hp as (c & <- & Hc). cbn [fst snd].
    split; [reflexivity|]. unfold overlap.
    pose proof (candidates_overlap attribute query cards) as F.
    rewrite Forall_forall in F. specialize (F c Hc).
    pose proof (intersection_length (_tokens query)
                  (_tokens (card_text attribute c))) as L.
    destruct (intersection (_tokens query) (_tokens (card_text attribute c)));
      [contradiction|]. cbn [List.length] in *. lia.
Qed.

Lemma retrieve_first_candidates_witness :
  retrieve Fakes.fake_attribute (py "Compound interest?") Fakes.shelf 10 false
  = Scored [(2, Fakes.compound)] /\
  map snd [(2, Fakes.compound)]
  = firstn (Z.to_nat 10)
      (retrieve_candidates Fakes.fake_attribute (py "Compound interest?") Fakes.shelf) /\
  Forall (fun p => fst p = overlap Fakes.fake_attribute (py "Compound interest?") (snd p) /\
                   1 <= fst p <= List.length (_tokens (py "Compound interest?")))
         [(2, Fakes.compound)].
Proof.
  split; [vm_compute; reflexivity|].
  apply (@retrieve_first_candidates Fakes.FakeCard Fakes.fake_attribute
           (py "Compound interest?") Fakes.shelf 10 [(2, Fakes.compound)]).
  vm_compute. reflexivity.
Defined.

(** X26: with [debug] set, a query that is not blank and a positive
    [top_k] make [retrieve] raise: UnboundLocalError when no card is a
    candidate, TypeError otherwise. *)
Theorem retrieve_debug_raises (T : Type) (attribute : T -> str -> option attr)
        (query : str) (cards : list T) (top_k : Z) :
  is_empty (strip query) = false -> (0 < top_k)%Z ->
  retrieve attribute query cards top_k true
  = match retrieve_candidates attribute query cards with
    | [] => Raised T (UnboundLocalError (py "score"))
    | _ :: _ => Raised T TypeError
    end.
Proof.
  intros E K. unfold retrieve. cbv zeta. rewrite E.
  replace (top_k <=? 0)%Z with false by (symmetry; apply Z.leb_gt; exact K).
  cbn [orb negb]. rewrite retrieve_candidates_strip, _tokens_strip.
  rewrite scored_loop_map by apply candidates_overlap.
  destruct (retrieve_candidates attribute query cards); reflexivity.
Qed.

Lemma retrieve_debug_raises_witness :
  is_empty (strip (py "compound")) = false /\ (0 < 10)%Z /\
  retrieve Fakes.fake_attribute (py "compound") Fakes.shelf 10 true
  = match retrieve_candidates Fakes.fake_attribute (py "compound") Fakes.shelf with
    | [] => Raised Fakes.FakeCard (UnboundLocalError (py "score"))
    | _ :: _ => Raised Fakes.FakeCard TypeError
    end.
Proof.
  split; [reflexivity|]. split; [lia|].
  apply (@retrieve_debug_raises Fakes.FakeCard Fakes.fake_attribute
           (py "compound") Fakes.shelf 10); [reflexivity|lia].
Defined.

Lemma is_empty_lower (s : str) : is_empty (lower s) = is_empty s.
Proof. destruct s; reflexivity. Qed.

Lemma retrieve_by_strip (T : Type) (attribute : T -> str -> option attr)
      (query query' : str) (cards : list T) (top_k : Z) (debug : bool) :
  is_empty (strip query') = is_empty (strip query) ->
  _tokens query' = _tokens query ->
  retrieve attribute query' cards top_k debug = retrieve attribute query cards top_k debug.
Proof.
  intros E Q. unfold retrieve. cbv zeta. rewrite E.
  rewrite !retrieve_candidates_strip, !retrieve_candidates_filter, !_tokens_strip, Q.
  reflexivity.
Qed.

(** X27: the letter case of the query and white space around it do not
    matter to [retrieve]. *)
Theorem retrieve_query_normalised (T : Type) (attribute : T -> str -> option attr)
        (query : str) (cards : list T) (top_k : Z) (debug : bool) :
  retrieve attribute (lower query) cards top_k debug
  = retrieve attribute query cards top_k debug /\
  (forall sp1 sp2,
      all_space sp1 -> all_space sp2 ->
      retrieve attribute (sp1 ++ query ++ sp2) cards top_k debug
      = retrieve attribute query cards top_k debug).
Proof.
  split.
  - apply retrieve_by_strip.
    + rewrite strip_lower. apply is_empty_lower.
    + apply _tokens_lower.
  - intros sp1 sp2 H1 H2. apply retrieve_by_strip.
    + rewrite (strip_padding query H1 H2). reflexivity.
    + rewrite <- _tokens_strip, (strip_padding query H1 H2). apply _tokens_strip.
Qed.

(** X28: a query without tokens, such as one made of stopwords and
    punctuation only, retrieves nothing. *)
Theorem retrieve_no_tokens (T : Type) (attribute : T -> str -> option attr)
        (query : str) (cards : list T) (top_k : Z) :
  _tokens query = [] ->
  retrieve_candidates attribute query cards = [] /\
  retrieve attribute query cards top_k false = Scored [].
Proof.
  intros Q.
  assert (C : retrieve_candidates attribute query cards = []).
  { rewrite retrieve_candidates_filter, Q.
    induction cards as [|c cards IH]; [reflexivity|exact IH]. }
  split; [exact C|]. rewrite retrieve_plain, C. cbn [map]. rewrite firstn_nil. reflexivity.
Qed.

Lemma retrieve_no_tokens_witness :
  _tokens (py "What is the ...?") = [] /\
  retrieve_candidates Fakes.fake_attribute (py "What is the ...?") Fakes.shelf = [] /\
  retrieve Fakes.fake_attribute (py "What is the ...?") Fakes.shelf 8 false = Scored [].
Proof.
  split; [vm_compute; reflexivity|].
  apply (@retrieve_no_tokens Fakes.FakeCard Fakes.fake_attribute
           (py "What is the ...?") Fakes.shelf 8).
  vm_compute. reflexivity.
Defined.

(* ================================================================== *)
(** ** Retrieval over concept cards *)
(* ================================================================== *)

Lemma words_join (P : ascii -> bool) (sep : ascii) (items : list str) :
  P sep = false ->
  words P [] (join [sep] items) = flat_map (words P []) items.
Proof.
  intros Hs. induction items as [|x items IH]; [reflexivity|].
  destruct items as [|y items].
  - cbn [join flat_map]. rewrite app_nil_r. reflexivity.
  - change (join [sep] (x :: y :: items)) with (x ++ sep :: join [sep] (y :: items)).
    rewrite (@words_sep P sep x _ Hs). rewrite IH. reflexivity.
Qed.

Lemma present_some (items : list str) : present (map Some items) = items.
Proof. induction items as [|x items IH]; [reflexivity|]. cbn [map present]. rewrite IH. reflexivity. Qed.

Lemma concept_card_text (card : ConceptCard) :
  card_text concept_attribute card
  = join (py " ") [title card; []; join (py " ") (summary card)].
Proof.
  unfold card_text. cbv zeta.
  change (getattr concept_attribute card (py "title") (AStr [])) with (AStr (title card)).
  change (getattr concept_attribute card (py "tags") (AStr [])) with (AStr []).
  change (getattr concept_attribute card (py "summary") (AStr []))
    with (AItems (map Some (summary card))).
  cbn [_stringify]. rewrite present_some. reflexivity.
Qed.

Lemma _tokens_join (items : list str) (t : str) :
  In t (_tokens (join (py " ") items)) <-> exists s, In s items /\ In t (_tokens s).
Proof.
  rewrite _tokens_In, lower_join_space. change (py " ") with [" "%char].
  rewrite (@words_join is_token_char " "%char _ eq_refl), in_flat_map. split.
  - intros ((ls & Hls & Ht) & Hn). apply in_map_iff in Hls.
    destruct Hls as (s & <- & Hs). exists s. split; [exact Hs|].
    apply _tokens_In. auto.
  - intros (s & Hs & Ht). apply _tokens_In in Ht. destruct Ht as (Ht & Hn).
    split; [|exact Hn]. exists (lower s). split; [apply in_map; exact Hs|exact Ht].
Qed.

(** X29: of a concept card the retriever reads the title and the summary:
    the tokens of the card's text are those of the title and those of the
    summary's items. *)
Theorem concept_card_tokens (card : ConceptCard) (t : str) :
  In t (_tokens (card_text concept_attribute card)) <->
  In t (_tokens (title card)) \/ exists s, In s (summary card) /\ In t (_tokens s).
Proof.
  rewrite concept_card_text, _tokens_join. cbn [In]. rewrite <- _tokens_join. split.
  - intros (s & [<-|[<-|[<-|[]]]] & Ht); auto. rewrite _tokens_nil in Ht. destruct Ht.
  - intros [H|H]; eauto 6.
Qed.

(* ================================================================== *)
(** ** The debug record *)
(* ================================================================== *)

Lemma insert_sorted_In (t x : str) (xs : list str) :
  In x (insert_sorted t xs) <-> x = t \/ In x xs.
Proof.
  induction xs as [|y xs IH]; cbn [insert_sorted In].
  - intuition auto.
  - destruct (str_leb t y); cbn [In]; rewrite ?IH; intuition auto.
Qed.

Lemma sorted_In (x : str) (xs : list str) : In x (sorted xs) <-> In x xs.
Proof.
  induction xs as [|y xs IH]; [reflexivity|].
  cbn [sorted fold_right In]. rewrite insert_sorted_In. fold (sorted xs).
  rewrite IH. intuition auto.
Qed.

Lemma union_In (a b : list str) (x : str) : In x (union a b) <-> In x a \/ In x b.
Proof. unfold union, to_set. rewrite nodup_In. apply in_app_iff. Qed.

Lemma match_debug_loop_spec (q : list str) (fields : list (str * str)) :
  forall mf ao,
    fst (match_debug_loop q fields mf ao)
    = mf ++ map fst (filter (fun f => any (intersection q (_tokens (snd f)))) fields)
    /\ (forall t, In t (snd (match_debug_loop q fields mf ao)) <->
                  In t ao \/ exists f, In f fields /\
                                       In t (intersection q (_tokens (snd f)))).
Proof.
  induction fields as [|[name text] fields IH]; intros mf ao;
    cbn [match_debug_loop filter map fst snd].
  - rewrite app_nil_r. split; [reflexivity|]. intros t. split; [auto|].
    intros [H|(f & [] & _)]. exact H.
  - cbv zeta. destruct (intersection q (_tokens text)) as [|o os] eqn:E; cbn [any].
    + destruct (IH mf ao) as (I1 & I2). split; [exact I1|]. intros t. rewrite I2.
      split.
      * intros [H|(f & Hf & Ht)]; [auto|]. right. exists f. split; [right; exact Hf|exact Ht].
      * intros [H|(f & [<-|Hf] & Ht)]; [auto| |eauto].
        cbn [snd] in Ht. rewrite E in Ht. destruct Ht.
    + destruct (IH (mf ++ [name]) (union ao (o :: os))) as (I1 & I2).
      split; [rewrite I1; cbn [map fst]; rewrite <- app_assoc; reflexivity|].
      intros t. rewrite I2, union_In. split.
      * intros [[H|H]|(f & Hf & Ht)]; [auto| |].
        -- right. exists (name, text). split; [left; reflexivity|]. cbn [snd].
           rewrite E. exact H.
        -- right. exists f. split; [right; exact Hf|exact Ht].
      * intros [H|(f & [<-|Hf] & Ht)]; [auto| |eauto].
        cbn [snd] in Ht. rewrite E in Ht. auto.
Qed.

(** X30: the debug record agrees with the candidate rule: its matched
    terms are the query tokens the card's text has, and it names a matched
    field exactly when the card shares a token with the query. *)
Theorem _match_debug_spec (T : Type) (attribute : T -> str -> option attr)
        (query : str) (card : T) :
  (forall t, In t (matched_terms (_match_debug attribute (_tokens query) card)) <->
             In t (_tokens query) /\ In t (_tokens (card_text attribute card))) /\
  (matched_fields (_match_debug attribute (_tokens query) card) <> [] <->
   shares_token attribute query card).
Proof.
  unfold _match_debug, shares_token, card_text. cbv zeta.
  set (a := _stringify (getattr attribute card (py "title") (AStr []))).
  set (b := _stringify (getattr attribute card (py "tags") (AStr []))).
  set (c := _stringify (getattr attribute card (py "summary") (AStr []))).
  destruct (match_debug_loop_spec (_tokens query)
              [(py "title", a); (py "tags", b); (py "summary", c)] [] [])
    as (I1 & I2).
  destruct (match_debug_loop (_tokens query)
              [(py "title", a); (py "tags", b); (py "summary", c)] [] [])
    as [mf ao].
  cbn [fst snd matched_terms matched_fields] in *.
  assert (J : forall t,
             In t (_tokens query) /\ In t (_tokens (join (py " ") [a; b; c])) <->
             In t ao).
  { intros t. rewrite I2, _tokens_join. cbn [In]. split.
    - intros (Hq & s & [<-|[<-|[<-|[]]]] & Ht); right;
        [exists (py "title", a)|exists (py "tags", b)|exists (py "summary", c)];
        (split; [auto|]); apply intersection_In; auto.
    - intros [[]|(f & [<-|[<-|[<-|[]]]] & Ht)]; apply intersection_In in Ht;
        destruct Ht as (Hq & Ht); cbn [snd] in Ht; eauto 8. }
  split.
  - intros t. rewrite sorted_In. symmetry. apply J.
  - rewrite I1. cbn [app]. split.
    + intros H.
      assert (K : exists f, In f [(py "title", a); (py "tags", b); (py "summary", c)] /\
                            any (intersection (_tokens query) (_tokens (snd f))) = true).
      { destruct (filter _ _) as [|f fs] eqn:F; [contradiction|].
        exists f.
        apply (proj1 (filter_In
                        (fun f => any (intersection (_tokens query) (_tokens (snd f))))
                        f [(py "title", a); (py "tags", b); (py "summary", c)])).
        rewrite F. left. reflexivity. }
      destruct K as (f & Hf & Ha).
      destruct (intersection (_tokens query) (_tokens (snd f))) as [|t ts] eqn:E;
        [discriminate|].
      exists t. apply J. apply I2. right. exists f. split; [exact Hf|].
      rewrite E. left. reflexivity.
    + intros (t & Ht). apply J in Ht. apply I2 in Ht.
      destruct Ht as [[]|(f & Hf & Ht)].
      assert (Hin : In f (filter (fun f => any (intersection (_tokens query)
                                                  (_tokens (snd f))))
                            [(py "title", a); (py "tags", b); (py "summary", c)])).
      { apply filter_In. split; [exact Hf|].
        destruct (intersection (_tokens query) (_tokens (snd f))); [destruct Ht|reflexivity]. }
      intros N. apply (f_equal (@List.length str)) in N.
      rewrite length_map in N.
      destruct (filter _ _); [destruct Hin|discriminate].
Qed.

(* ================================================================== *)
(** ** The scrub replaces what it finds *)
(* ================================================================== *)



Section SubReplaced.

Variable r : regex.
Variable repl : str.

(** No match of the pattern is empty, and the match the engine picks at a
    position is a longest one there. *)
Hypothesis Hnn : forall pw m1 n, matches r pw m1 n -> m1 <> [].
Hypothesis Hlong :
  forall pw s rest m' n',
    match_at r pw s = Some rest -> m' ++ n' = s -> matches r pw m' n' ->
    List.length rest <= List.length n'.



End SubReplaced.












(** The sample of the worked cases, pass by pass. *)
Example sanitize_rewrite_passes :
  sub AMOUNT_RE (py "[amount]") (py "Buy AAPL for $1,234.50 now")
  = py "Buy AAPL for [amount] now" /\
  sub _TICKER_LIKE (py "[asset]") (py "Buy AAPL for [amount] now")
  = py "Buy [asset] for [amount] now" /\
  sub BUY_SELL_RE (py "trade") (py "Buy [asset] for [amount] now")
  = py "trade [asset] for [amount] now".
Proof. vm_compute. auto. Qed.
